(** * Embroidery digitization core: stitch generators, layer composer and
      the DST / EXP encoders.

    The development embeds
    - the geometry kernel, the three stitch generators, the tie / cleanup
      layer and the layer composer [digitizeDesign] of the digitizer service,
    - [encodeTajimaStitch] and [createDstFile] of [services/dstExporter.ts],
    - [createExpFile] of [services/vtracerService.ts].

    JavaScript numbers are kept abstract: the code is written once against
    the interface [JSNumber] and is run on two carriers, IEEE binary64
    ([float], for evaluating the code on concrete designs; the functions
    ECMAScript leaves to the engine are a parameter of it) and the real
    numbers ([R], for the metric properties of the generators). *)

From Stdlib Require Import Floats String Ascii.
From Stdlib Require Import ZArith List Bool QArith Qreals.
From Stdlib Require Import Reals Lra Lia Psatz Permutation.
Import ListNotations.

Set Implicit Arguments.

(* ================================================================== *)
(** ** Numbers *)

(** The operations of a JavaScript [number] the core uses.  [Math.ceil]
    returns a number, which may be [Infinity] or NaN: the loops it bounds
    count in [num].  The results of [Math.round] are used as integers and
    are integers of Rocq ([Z]); [num_ofZ] injects an integer back.
    [Math.round] of a value that is not finite (NaN, an infinity) is outside
    the interface: coordinates are finite, and so are their multiples the
    code rounds.  Where the source starts a running minimum at [Infinity]
    the embedding uses [option].  [Math_pow a n] is [Math.pow(a, n)] for an
    integer literal [n]. *)
Class JSNumber (num : Type) : Type := {
  num_lit : Q -> num;                 (* a decimal literal of the source *)
  num_ofZ : Z -> num;                 (* an integer-valued number *)
  num_add : num -> num -> num;
  num_sub : num -> num -> num;
  num_mul : num -> num -> num;
  num_div : num -> num -> num;
  num_rem : num -> num -> num;        (* a % b *)
  num_neg : num -> num;
  num_eq : num -> num -> bool;        (* a === b *)
  num_lt : num -> num -> bool;        (* a < b *)
  num_le : num -> num -> bool;        (* a <= b *)
  Math_sqrt : num -> num;
  Math_abs : num -> num;
  Math_sin : num -> num;
  Math_cos : num -> num;
  Math_floor : num -> num;
  Math_ceil : num -> num;
  Math_round : num -> Z;
  Math_min : num -> num -> num;
  Math_max : num -> num -> num;
  Math_pow : num -> nat -> num;
  Math_PI : num
}.

Declare Scope num_scope.
Delimit Scope num_scope with num.
Infix "+" := num_add : num_scope.
Infix "-" := num_sub : num_scope.
Infix "*" := num_mul : num_scope.
Infix "/" := num_div : num_scope.
Notation "- a" := (num_neg a) : num_scope.
Notation "a =? b" := (num_eq a b) : num_scope.
Notation "a <? b" := (num_lt a b) : num_scope.
Notation "a <=? b" := (num_le a b) : num_scope.
Notation "a >? b" := (num_lt b a) : num_scope.
Notation "a >=? b" := (num_le b a) : num_scope.

(* ------------------------------------------------------------------ *)
(** *** IEEE binary64 *)

Module F64.

(** The odd part of [p] and the power of two taken out of it. *)
Fixpoint oddPart (p : positive) : positive * Z :=
  match p with
  | xO p' => let '(m, t) := oddPart p' in (m, (t + 1)%Z)
  | _ => (p, 0%Z)
  end.

(** The float [z / 2^k], exact when the odd part of [z] fits the 53 bits
    of a mantissa. *)
Definition ofDyadic (z k : Z) : float :=
  match z with
  | Z0 => PrimFloat.zero
  | Zpos p => let '(m, t) := oddPart p in SF2Prim (S754_finite false m (t - k))
  | Zneg p => let '(m, t) := oddPart p in SF2Prim (S754_finite true m (t - k))
  end.

Definition ofZ (z : Z) : float := ofDyadic z 0.

(** A decimal literal [n/d] with [n] and [d] below 2^53 is the quotient of
    two exact floats, which IEEE division rounds correctly. *)
Definition lit (q : Q) : float :=
  PrimFloat.div (ofZ (Qnum q)) (ofZ (Zpos (Qden q))).

(** A finite float as the exact rational [z / 2^k], [0 <= k]. *)
Definition dyadic (f : float) : option (Z * Z) :=
  match Prim2SF f with
  | S754_zero _ => Some (0, 0)%Z
  | S754_finite s m e =>
      let z := if s then Zneg m else Zpos m in
      if (0 <=? e)%Z then Some (z * 2 ^ e, 0)%Z else Some (z, - e)%Z
  | _ => None
  end.

Definition floorZ (f : float) : Z :=
  match dyadic f with
  | Some (z, k) => (z / 2 ^ k)%Z
  | None => 0%Z
  end.

(** The least integer not below a finite float. *)
Definition ceilZ (f : float) : Z :=
  match dyadic f with
  | Some (z, k) => (- ((- z) / 2 ^ k))%Z
  | None => 0%Z
  end.

(** [Math.ceil]: NaN, the infinities, the zeros and the floats that are
    integers (all those with an exponent that is not negative) are returned
    as they are; an argument between -1 and 0 gives -0. *)
Definition ceil (f : float) : float :=
  match Prim2SF f with
  | S754_finite s _ e =>
      if (0 <=? e)%Z then f
      else
        let z := ceilZ f in
        if (z =? 0)%Z then (if s then PrimFloat.neg_zero else PrimFloat.zero) else ofZ z
  | _ => f
  end.

(** [Math.round]: the nearest integer, ties towards +infinity. *)
Definition roundZ (f : float) : Z :=
  match dyadic f with
  | Some (z, k) => ((2 * z + 2 ^ k) / 2 ^ (k + 1))%Z
  | None => 0%Z
  end.

(** [Math.floor]: NaN, the infinities and the zeros are returned as they
    are. *)
Definition floor (f : float) : float :=
  match Prim2SF f with
  | S754_finite _ _ _ => ofZ (floorZ f)
  | _ => f
  end.

(** [a % b]: the exact remainder of the truncated division, with the sign
    of [a]; NaN for a zero divisor or an infinite dividend. *)
Definition rem (a b : float) : float :=
  match dyadic a, dyadic b with
  | Some (za, ka), Some (zb, kb) =>
      if (zb =? 0)%Z then PrimFloat.nan
      else
        let r := Z.rem (za * 2 ^ kb) (zb * 2 ^ ka) in
        if (r =? 0)%Z then PrimFloat.mul a PrimFloat.zero else ofDyadic r (ka + kb)
  | Some _, None => if PrimFloat.is_infinity b then a else PrimFloat.nan
  | None, _ => PrimFloat.nan
  end.

Definition min (a b : float) : float :=
  if PrimFloat.is_nan a then a
  else if PrimFloat.is_nan b then b
  else if PrimFloat.ltb b a then b else a.

Definition max (a b : float) : float :=
  if PrimFloat.is_nan a then a
  else if PrimFloat.is_nan b then b
  else if PrimFloat.ltb a b then b else a.

(** The nearest binary64 to pi. *)
Definition PI : float := lit (884279719003555 # 281474976710656).

(** [Math.sin], [Math.cos] and [Math.pow] are implementation-approximated
    in ECMAScript: the standard fixes their results at the zeros, the
    infinities and NaN and leaves the other values to the engine.  An
    [Engine] holds the functions of one implementation. *)
Record Engine : Type := mkEngine {
  engine_sin : float -> float;
  engine_cos : float -> float;
  engine_pow : float -> float -> float
}.

Definition sin (e : Engine) (a : float) : float :=
  match Prim2SF a with
  | S754_zero _ => a
  | S754_finite _ _ _ => engine_sin e a
  | _ => PrimFloat.nan
  end.

Definition cos (e : Engine) (a : float) : float :=
  match Prim2SF a with
  | S754_zero _ => PrimFloat.one
  | S754_finite _ _ _ => engine_cos e a
  | _ => PrimFloat.nan
  end.

(** [Math.pow(a, n)] for an integer [n >= 0]. *)
Definition pow (e : Engine) (a : float) (n : nat) : float :=
  match n with
  | O => PrimFloat.one
  | _ =>
      match Prim2SF a with
      | S754_nan => PrimFloat.nan
      | S754_infinity s =>
          if s && Nat.odd n then PrimFloat.neg_infinity else PrimFloat.infinity
      | S754_zero s => if s && Nat.odd n then PrimFloat.neg_zero else PrimFloat.zero
      | S754_finite _ _ _ => engine_pow e a (ofZ (Z.of_nat n))
      end
  end.

(** An engine for running the examples: the argument of a sine or cosine
    is brought to [[-pi, pi]] and the Taylor series is summed to degree 25;
    a power is a repeated product. *)
Definition reduce (a : float) : float :=
  let twoPi := PrimFloat.mul (ofZ 2) PI in
  PrimFloat.sub a (PrimFloat.mul (ofZ (roundZ (PrimFloat.div a twoPi))) twoPi).

Definition series (r2 : float) (denominators : list Z) : float :=
  fold_right
    (fun d acc =>
       PrimFloat.sub PrimFloat.one (PrimFloat.mul (PrimFloat.div r2 (ofZ d)) acc))
    PrimFloat.one denominators.

Definition seriesSin (a : float) : float :=
  let r := reduce a in
  PrimFloat.mul r
    (series (PrimFloat.mul r r) [6; 20; 42; 72; 110; 156; 210; 272; 342; 420; 506; 600]%Z).

Definition seriesCos (a : float) : float :=
  let r := reduce a in
  series (PrimFloat.mul r r) [2; 12; 30; 56; 90; 132; 182; 240; 306; 380; 462; 552]%Z.

Definition productPow (a b : float) : float :=
  Nat.iter (Z.to_nat (roundZ b)) (PrimFloat.mul a) PrimFloat.one.

Definition seriesEngine : Engine := mkEngine seriesSin seriesCos productPow.

End F64.

(** Binary64 on the engine [e]. *)
Definition FloatNumber (e : F64.Engine) : JSNumber float := {|
  num_lit := F64.lit;
  num_ofZ := F64.ofZ;
  num_add := PrimFloat.add;
  num_sub := PrimFloat.sub;
  num_mul := PrimFloat.mul;
  num_div := PrimFloat.div;
  num_rem := F64.rem;
  num_neg := PrimFloat.opp;
  num_eq := PrimFloat.eqb;
  num_lt := PrimFloat.ltb;
  num_le := PrimFloat.leb;
  Math_sqrt := PrimFloat.sqrt;
  Math_abs := PrimFloat.abs;
  Math_sin := F64.sin e;
  Math_cos := F64.cos e;
  Math_floor := F64.floor;
  Math_ceil := F64.ceil;
  Math_round := F64.roundZ;
  Math_min := F64.min;
  Math_max := F64.max;
  Math_pow := F64.pow e;
  Math_PI := F64.PI
|}.

(** The carrier of the concrete designs of this development.  None of them
    reaches a value that is left to the engine, as the lemmas that run them
    on every engine show. *)
#[export] Instance ExampleNumber : JSNumber float := FloatNumber F64.seriesEngine.

(* ------------------------------------------------------------------ *)
(** *** Exact real arithmetic *)

Module Exact.

Definition eqb (a b : R) : bool := if Req_dec_T a b then true else false.
Definition ltb (a b : R) : bool := if Rlt_dec a b then true else false.
Definition leb (a b : R) : bool := if Rle_dec a b then true else false.

Definition ceilZ (a : R) : Z := (- Int_part (- a))%Z.
Definition roundZ (a : R) : Z := Int_part (a + / 2).
Definition truncZ (a : R) : Z :=
  if Rle_dec 0 a then Int_part a else (- Int_part (- a))%Z.
Definition rem (a b : R) : R := (a - b * IZR (truncZ (a / b)))%R.

End Exact.

#[export] Instance RealNumber : JSNumber R := {|
  num_lit := Q2R;
  num_ofZ := IZR;
  num_add := Rplus;
  num_sub := Rminus;
  num_mul := Rmult;
  num_div := Rdiv;
  num_rem := Exact.rem;
  num_neg := Ropp;
  num_eq := Exact.eqb;
  num_lt := Exact.ltb;
  num_le := Exact.leb;
  Math_sqrt := R_sqrt.sqrt;
  Math_abs := Rabs;
  Math_sin := Rtrigo_def.sin;
  Math_cos := Rtrigo_def.cos;
  Math_floor := fun a => IZR (Int_part a);
  Math_ceil := fun a => IZR (Exact.ceilZ a);
  Math_round := Exact.roundZ;
  Math_min := Rmin;
  Math_max := Rmax;
  Math_pow := pow;
  Math_PI := Rtrigo1.PI
|}.

(* ================================================================== *)
(** ** Outcome of a call *)

(** A call of the source returns a value, throws (a [TypeError] on reading
    a property of [undefined]), or is still running when the loop budget
    [fuel] of the embedding is used up. *)
Inductive outcome (A : Type) : Type :=
| Returned (a : A)
| Throws
| OutOfFuel.

Arguments Returned {A} a.
Arguments Throws {A}.
Arguments OutOfFuel {A}.

Definition bind {A B : Type} (o : outcome A) (k : A -> outcome B) : outcome B :=
  match o with
  | Returned a => k a
  | Throws => Throws
  | OutOfFuel => OutOfFuel
  end.

Notation "x <- e ;; k" := (bind e (fun x => k))
  (at level 61, e at next level, right associativity).

(** [call] returns [a] whenever its loop budget is large enough. *)
Definition returns {A : Type} (call : nat -> outcome A) (a : A) : Prop :=
  exists fuel0 : nat, forall fuel : nat, (fuel0 <= fuel)%nat -> call fuel = Returned a.

(** [xs[xs.length - 1]] *)
Definition lastOf {A : Type} (xs : list A) : option A :=
  match rev xs with
  | [] => None
  | a :: _ => Some a
  end.

Definition isEmpty {A : Type} (xs : list A) : bool :=
  match xs with [] => true | _ :: _ => false end.

(** The integers [lo], [lo+1], ..., [hi] of a counting [for] loop. *)
Definition range (lo hi : Z) : list Z :=
  map (fun k => (lo + Z.of_nat k)%Z) (seq 0 (Z.to_nat (hi - lo + 1))).

(* ================================================================== *)
(** ** Data model ([types.ts]) *)

Inductive StitchKind : Type :=
| stitch | jump | color_change | end_ | trim.

Definition StitchKind_eqb (a b : StitchKind) : bool :=
  match a, b with
  | stitch, stitch | jump, jump | color_change, color_change
  | end_, end_ | trim, trim => true
  | _, _ => false
  end.

Inductive StitchType : Type := running | satin | tatami.
Inductive DesignStyle : Type := vintage | patch_line | patch_fill.

Section Core.

Context {num : Type} {N : JSNumber num}.
Local Open Scope num_scope.

Record Point : Type := mkPoint { x : num; y : num }.

(** [interface Stitch extends Point]; the optional fields are [None] when
    the object literal leaves them out. *)
Record Stitch : Type := mkStitch {
  pos :> Point;
  type : StitchKind;
  colorIndex : option nat;
  hexColor : option string;
  isStructure : option bool
}.

Record VectorLayer : Type := mkLayer {
  color : string;
  paths : list (list Point)
}.

Record ProcessingConfig : Type := mkConfig {
  designStyle : DesignStyle;
  widthMm : num;
  stitchType : StitchType;
  densityMm : num;
  satinColumnWidthMm : num;
  pullCompensationMm : num;
  enableUnderlay : bool;
  tatamiAngle : num;
  maxStitchLengthMm : num;
  minStitchLengthMm : num;
  trimJumpDistanceMm : num;
  colorCount : Z
}.

Definition zero : num := num_ofZ 0.
Definition origin : Point := mkPoint zero zero.

(** [a || b] on numbers: [a] unless it is falsy (zero). *)
Definition orElse (a b : num) : num :=
  if (a <? zero) || (zero <? a) then a else b.

(** [Math.pow(a, 2)] *)
Definition pow2 (a : num) : num := a * a.

(* ------------------------------------------------------------------ *)
(** *** Helper functions *)

Definition dist (p1 p2 : Point) : num :=
  Math_sqrt (pow2 (x p1 - x p2) + pow2 (y p1 - y p2)).

Definition distSq (p1 p2 : Point) : num :=
  pow2 (x p1 - x p2) + pow2 (y p1 - y p2).

Definition rotatePoint (p : Point) (angleRad : num) : Point :=
  mkPoint (x p * Math_cos angleRad - y p * Math_sin angleRad)
          (x p * Math_sin angleRad + y p * Math_cos angleRad).

Definition interpolatePoints (p1 p2 : Point) (t : num) : Point :=
  mkPoint (x p1 + (x p2 - x p1) * t) (y p1 + (y p2 - y p1) * t).

Definition normalize (p : Point) : Point :=
  let len := Math_sqrt (x p * x p + y p * y p) in
  if len =? zero then mkPoint zero zero else mkPoint (x p / len) (y p / len).

Definition addPoints (p1 p2 : Point) : Point := mkPoint (x p1 + x p2) (y p1 + y p2).
Definition subPoints (p1 p2 : Point) : Point := mkPoint (x p1 - x p2) (y p1 - y p2).
Definition scalePoint (p : Point) (s : num) : Point := mkPoint (x p * s) (y p * s).
Definition dotProduct (p1 p2 : Point) : num := x p1 * x p2 + y p1 * y p2.

(* ------------------------------------------------------------------ *)
(** *** Geometry engine *)

(** 1. Polygon offset.  The indices [(i - 1 + len) % len] and
    [(i + 1) % len] are below [len], so the default of [nth] is not read. *)
Definition offsetPolygon (path : list Point) (offsetMm : num) : list Point :=
  let len := length path in
  if (len <? 3)%nat then path
  else
    map (fun i =>
           let prev := nth ((i + len - 1) mod len)%nat path origin in
           let curr := nth i path origin in
           let next := nth ((i + 1) mod len)%nat path origin in
           let v1 := normalize (mkPoint (x curr - x prev) (y curr - y prev)) in
           let v2 := normalize (mkPoint (x next - x curr) (y next - y curr)) in
           let n1 := mkPoint (- y v1) (x v1) in
           let n2 := mkPoint (- y v2) (x v2) in
           let avgN := normalize (addPoints n1 n2) in
           let dot := x n1 * x n2 + y n1 * y n2 in
           let miter := num_ofZ 1 / Math_max (num_lit 0.1) ((num_ofZ 1 + dot) / num_ofZ 2) in
           let miter := Math_min miter (num_lit 2.0) in
           addPoints curr (scalePoint avgN (offsetMm * miter)))
        (seq 0 len).

(** 2. Resampling.  The loop of the source steps back ([i--]) each time it
    emits a point, so it re-reads [path[i]]: [rest] is [path.slice(i)]. *)
Fixpoint resampleLoop (fuel : nat) (spacing : num) (prev : Point)
    (accumulatedDist : num) (rest newPath : list Point) : outcome (list Point) :=
  match rest with
  | [] => Returned newPath
  | curr :: rest' =>
      match fuel with
      | O => OutOfFuel
      | S fuel' =>
          let d := dist prev curr in
          if accumulatedDist + d >=? spacing then
            let needed := spacing - accumulatedDist in
            let ratio := needed / d in
            let nextPoint := interpolatePoints prev curr ratio in
            resampleLoop fuel' spacing nextPoint zero rest (newPath ++ [nextPoint])
          else
            resampleLoop fuel' spacing curr (accumulatedDist + d) rest' newPath
      end
  end.

Definition resamplePath (fuel : nat) (path : list Point) (spacing : num)
  : outcome (list Point) :=
  match path with
  | p0 :: ((_ :: _) as rest) =>
      newPath <- resampleLoop fuel spacing p0 zero rest [p0] ;;
      Returned (newPath ++ [last path p0])
  | _ => Returned path
  end.

(** 3. Sequence optimization (closest join). *)
Definition reorderPolygonToStartAt (path : list Point) (bestIdx : nat) : list Point :=
  match bestIdx with
  | O => path
  | _ =>
      let uniquePoints := firstn (length path - 1) path in
      let part1 := skipn bestIdx uniquePoints in
      let part2 := firstn bestIdx uniquePoints in
      let rotated := part1 ++ part2 in
      (* rotated.push(rotated[0]); [rotated] is not empty when
         [0 < bestIdx < path.length - 1], as in every call *)
      rotated ++ firstn 1 rotated
  end.

(** The running best of the double loop: [(bestPathIdx, bestVertexIdx,
    minDistanceSq)], [None] for [(-1, -1, Infinity)]. *)
Definition Best : Type := option (nat * nat * num).

Definition scanVertex (currentPos : Point) (i v : nat) (p : Point) (best : Best) : Best :=
  let dSq := distSq currentPos p in
  match best with
  | None => Some (i, v, dSq)
  | Some (_, _, minDistanceSq) =>
      if dSq <? minDistanceSq then Some (i, v, dSq) else best
  end.

(** [for (v = 0; v < path.length - 1; v++)] over [vs = path.slice(v)]. *)
Fixpoint scanPath (currentPos : Point) (i v : nat) (vs : list Point) (best : Best) : Best :=
  match vs with
  | p :: ((_ :: _) as vs') => scanPath currentPos i (S v) vs' (scanVertex currentPos i v p best)
  | _ => best
  end.

Fixpoint scanPaths (currentPos : Point) (i : nat) (remaining : list (list Point))
    (best : Best) : Best :=
  match remaining with
  | [] => best
  | path :: remaining' =>
      scanPaths currentPos (S i) remaining' (scanPath currentPos i 0 path best)
  end.

(** [remaining.splice(i, 1)] *)
Definition removeAt {A : Type} (i : nat) (xs : list A) : list A :=
  firstn i xs ++ skipn (S i) xs.

(** The [while (remaining.length > 0)] loop; every round removes one path,
    so [length remaining] rounds are enough. *)
Fixpoint optimizeLoop (rounds : nat) (currentPos : Point)
    (remaining optimized : list (list Point)) : list (list Point) :=
  match rounds, remaining with
  | S rounds', first :: rest =>
      match scanPaths currentPos 0 remaining None with
      | Some (bestPathIdx, bestVertexIdx, _) =>
          let chosenPath := nth bestPathIdx remaining [] in
          let reorderedPath := reorderPolygonToStartAt chosenPath bestVertexIdx in
          optimizeLoop rounds' (last reorderedPath currentPos)
            (removeAt bestPathIdx remaining) (optimized ++ [reorderedPath])
      | None =>
          optimizeLoop rounds' currentPos rest (optimized ++ [first])
      end
  | _, _ => optimized
  end.

Definition optimizePathSequence (paths : list (list Point)) : list (list Point) :=
  optimizeLoop (length paths) origin paths [].

(* ------------------------------------------------------------------ *)
(** *** Stitch generation engine *)

(** [{ x: p.x, y: p.y, type: 'stitch', colorIndex: colorIdx, hexColor }] *)
Definition faceStitch (p : Point) (colorIdx : nat) (hexColor : string) : Stitch :=
  mkStitch p stitch (Some colorIdx) (Some hexColor) None.

(** One round of the first loop of [generateSatinStitches]: the two rail
    points at [curr], whose neighbours on the resampled spine are [prev]
    and [next]. *)
Definition satinRail (halfWidth : num) (prev curr next : Point) : Point * Point :=
  let v1 := normalize (subPoints curr prev) in
  let v2 := normalize (subPoints next curr) in
  let n1 := mkPoint (- y v1) (x v1) in
  let tangentSum := addPoints v1 v2 in
  let tangentLen := Math_sqrt (x tangentSum * x tangentSum + y tangentSum * y tangentSum) in
  let '(miterVector, miterLength) :=
    if tangentLen <? num_lit 0.001 then (n1, halfWidth)
    else
      let bisector := normalize tangentSum in
      let miterVector := mkPoint (- y bisector) (x bisector) in
      let dot := dotProduct miterVector n1 in
      (miterVector, if Math_abs dot >? num_lit 0.1 then halfWidth / dot else halfWidth) in
  let MITER_LIMIT := halfWidth * num_lit 3.0 in
  let miterLength := if miterLength >? MITER_LIMIT then MITER_LIMIT else miterLength in
  (addPoints curr (scalePoint miterVector miterLength),
   subPoints curr (scalePoint miterVector miterLength)).

(** The rails over the whole resampled spine (at least two points, so
    [resampled[i + 1]] at [i = 0] and [resampled[i - 1]] at the last index
    exist). *)
Definition satinRails (halfWidth : num) (resampled : list Point) : list (Point * Point) :=
  let len := length resampled in
  map (fun i =>
         let curr := nth i resampled origin in
         let prev := if (0 <? i)%nat then nth (i - 1) resampled origin
                     else subPoints curr (subPoints (nth (i + 1) resampled origin) curr) in
         let next := if (i <? len - 1)%nat then nth (i + 1) resampled origin
                     else addPoints curr (subPoints curr (nth (i - 1) resampled origin)) in
         satinRail halfWidth prev curr next)
      (seq 0 len).

(** The penetration pair [(p1, p2)] of round [i] of the second loop, after
    the short-stitch shortening. *)
Definition satinPenetration (leftRail rightRail : list Point) (i : nat) : Point * Point :=
  let p1 := nth i leftRail origin in
  let p2 := nth i rightRail origin in
  if (0 <? i)%nat then
    let prevP1 := nth (i - 1) leftRail origin in
    let prevP2 := nth (i - 1) rightRail origin in
    let dLeft := dist p1 prevP1 in
    let dRight := dist p2 prevP2 in
    let SHORTENING_RATIO := num_lit 0.6 in
    let CRITICAL_DENSITY := num_lit 0.4 in
    let SHORTEN_AMOUNT := num_lit 0.3 in
    if negb (i mod 2 =? 0)%nat then
      if (dLeft <? dRight * SHORTENING_RATIO) && (dLeft <? CRITICAL_DENSITY)
      then (interpolatePoints p1 p2 SHORTEN_AMOUNT, p2)
      else if (dRight <? dLeft * SHORTENING_RATIO) && (dRight <? CRITICAL_DENSITY)
      then (p1, interpolatePoints p2 p1 SHORTEN_AMOUNT)
      else (p1, p2)
    else (p1, p2)
  else (p1, p2).

(** [pattern[i % 3]] for [pattern = [0, 0.5, -0.5]] *)
Definition shiftPattern (i : nat) : num :=
  match (i mod 3)%nat with
  | O => num_ofZ 0
  | S O => num_lit 0.5
  | _ => num_lit (-0.5)
  end.

(** The stitch of round [k] of the splitting loop of a crossing. *)
Definition satinSplit (colorIdx : nat) (hexColor : string) (i : nat) (p1 p2 : Point)
    (currentLen maxSafeShift steps k : num) : Stitch :=
  let t := k / steps in
  let t :=
    if maxSafeShift >? num_lit 0.5 then
      let shiftMm := shiftPattern i * Math_min maxSafeShift (num_lit 2.0) in
      let shiftT := shiftMm / currentLen in
      t + shiftT
    else t in
  faceStitch (interpolatePoints p1 p2 t) colorIdx hexColor.

(** [for (let k = 1; k < steps; k++)]: the stitches pushed from round [k]
    on. *)
Fixpoint satinSteps (fuel : nat) (colorIdx : nat) (hexColor : string) (i : nat)
    (p1 p2 : Point) (currentLen maxSafeShift steps k : num) : outcome (list Stitch) :=
  if k <? steps then
    match fuel with
    | O => OutOfFuel
    | S fuel' =>
        rest <- satinSteps fuel' colorIdx hexColor i p1 p2 currentLen maxSafeShift steps
                  (k + num_ofZ 1) ;;
        Returned (satinSplit colorIdx hexColor i p1 p2 currentLen maxSafeShift steps k :: rest)
    end
  else Returned [].

(** The stitches of one crossing from [p1] to [p2]. *)
Definition satinCrossing (fuel : nat) (config : ProcessingConfig) (colorIdx : nat)
    (hexColor : string) (i : nat) (p1 p2 : Point) : outcome (list Stitch) :=
  let currentLen := dist p1 p2 in
  if currentLen >? maxStitchLengthMm config then
    let maxLen := orElse (maxStitchLengthMm config) (num_lit 7.0) in
    let steps := Math_ceil (currentLen / maxLen) in
    let idealSegLen := currentLen / steps in
    let maxSafeShift := maxLen - idealSegLen - num_lit 0.1 in
    mids <- satinSteps fuel colorIdx hexColor i p1 p2 currentLen maxSafeShift steps
              (num_ofZ 1) ;;
    Returned ([faceStitch p1 colorIdx hexColor] ++ mids ++ [faceStitch p2 colorIdx hexColor])
  else
    Returned [faceStitch p1 colorIdx hexColor; faceStitch p2 colorIdx hexColor].

(** The crossings of the second loop, one after the other. *)
Fixpoint satinCrossings (fuel : nat) (config : ProcessingConfig) (colorIdx : nat)
    (hexColor : string) (pens : list (nat * (Point * Point))) : outcome (list Stitch) :=
  match pens with
  | [] => Returned []
  | ip :: pens' =>
      crossing <- satinCrossing fuel config colorIdx hexColor (fst ip)
                    (fst (snd ip)) (snd (snd ip)) ;;
      rest <- satinCrossings fuel config colorIdx hexColor pens' ;;
      Returned (crossing ++ rest)
  end.

Definition halfWidthOf (config : ProcessingConfig) : num :=
  (satinColumnWidthMm config / num_ofZ 2) + (pullCompensationMm config / num_ofZ 2).

(** The penetration pairs of the second loop, in order. *)
Definition satinPenetrations (fuel : nat) (pathMm : list Point) (config : ProcessingConfig)
  : outcome (list (Point * Point)) :=
  resampled <- resamplePath fuel pathMm (densityMm config) ;;
  let rails := satinRails (halfWidthOf config) resampled in
  let leftRail := map fst rails in
  let rightRail := map snd rails in
  Returned (map (satinPenetration leftRail rightRail) (seq 0 (length leftRail))).

Definition generateSatinStitches (fuel : nat) (pathMm : list Point)
    (config : ProcessingConfig) (colorIdx : nat) (hexColor : string)
  : outcome (list Stitch) :=
  if (length pathMm <? 2)%nat then Returned []
  else
    pens <- satinPenetrations fuel pathMm config ;;
    satinCrossings fuel config colorIdx hexColor (combine (seq 0 (length pens)) pens).

(** [generateRunningStitches], step 1: drop the points within 0.01 of the
    last point kept. *)
Fixpoint cleanLoop (lastKept : Point) (rest : list Point) : list Point :=
  match rest with
  | [] => []
  | p :: rest' =>
      if dist lastKept p >? num_lit 0.01 then p :: cleanLoop p rest'
      else cleanLoop lastKept rest'
  end.

Definition cleanPath (pathMm : list Point) : list Point :=
  match pathMm with
  | [] => []
  | p0 :: rest => p0 :: cleanLoop p0 rest
  end.

Definition MAX_RUN_LEN (config : ProcessingConfig) : num :=
  if maxStitchLengthMm config >? zero then maxStitchLengthMm config else num_lit 2.5.

(** [for (let s = 1; s <= steps; s++)]: the stitches pushed from round
    [s] on. *)
Fixpoint runSteps (fuel : nat) (colorIdx : nat) (hexColor : string) (prev curr : Point)
    (steps s : num) : outcome (list Stitch) :=
  if s <=? steps then
    match fuel with
    | O => OutOfFuel
    | S fuel' =>
        let t := s / steps in
        rest <- runSteps fuel' colorIdx hexColor prev curr steps (s + num_ofZ 1) ;;
        Returned (faceStitch (interpolatePoints prev curr t) colorIdx hexColor :: rest)
    end
  else Returned [].

(** The stitches of the segment from [prev] to [curr]. *)
Definition runSegment (fuel : nat) (maxRunLen : num) (colorIdx : nat) (hexColor : string)
    (prev curr : Point) : outcome (list Stitch) :=
  let d := dist prev curr in
  if d >? maxRunLen then
    let steps := Math_ceil (d / maxRunLen) in
    runSteps fuel colorIdx hexColor prev curr steps (num_ofZ 1)
  else Returned [faceStitch curr colorIdx hexColor].

Fixpoint runLoop (fuel : nat) (maxRunLen : num) (colorIdx : nat) (hexColor : string)
    (prev : Point) (rest : list Point) : outcome (list Stitch) :=
  match rest with
  | [] => Returned []
  | curr :: rest' =>
      segment <- runSegment fuel maxRunLen colorIdx hexColor prev curr ;;
      more <- runLoop fuel maxRunLen colorIdx hexColor curr rest' ;;
      Returned (segment ++ more)
  end.

Definition generateRunningStitches (fuel : nat) (pathMm : list Point)
    (config : ProcessingConfig) (colorIdx : nat) (hexColor : string)
  : outcome (list Stitch) :=
  if (length pathMm <? 2)%nat then Returned []
  else
    match cleanPath pathMm with
    | p0 :: ((_ :: _) as cleanRest) =>
        stitches <- runLoop fuel (MAX_RUN_LEN config) colorIdx hexColor p0 cleanRest ;;
        Returned (faceStitch p0 colorIdx hexColor :: stitches)
    | _ => Returned []
    end.

(** The fill generator.  An edge is [(p1, p2)] with [p1.y < p2.y]. *)
Definition orientEdge (a b : Point) : list (Point * Point) :=
  if Math_abs (y a - y b) >? num_lit 0.001 then
    if y a <? y b then [(a, b)] else [(b, a)]
  else [].

Fixpoint innerEdges (path : list Point) : list (Point * Point) :=
  match path with
  | a :: ((b :: _) as rest) => orientEdge a b ++ innerEdges rest
  | _ => []
  end.

(** The edges of one rotated path; on an empty path [path[path.length - 1]]
    is [undefined] and reading [last.y] throws. *)
Definition pathEdges (path : list Point) : outcome (list (Point * Point)) :=
  match path, lastOf path with
  | first :: _, Some last => Returned (innerEdges path ++ orientEdge last first)
  | _, _ => Throws
  end.

Fixpoint allEdges (rotatedPaths : list (list Point)) : outcome (list (Point * Point)) :=
  match rotatedPaths with
  | [] => Returned []
  | path :: rest =>
      es <- pathEdges path ;;
      es' <- allEdges rest ;;
      Returned (es ++ es')
  end.

(** [minY] and [maxY] over all points, [None] while still at the initial
    [Infinity] / [-Infinity]. *)
Definition lowerY (acc : option num) (p : Point) : option num :=
  match acc with
  | None => Some (y p)
  | Some minY => if y p <? minY then Some (y p) else acc
  end.

Definition upperY (acc : option num) (p : Point) : option num :=
  match acc with
  | None => Some (y p)
  | Some maxY => if y p >? maxY then Some (y p) else acc
  end.

(** [intersections.sort((a, b) => a - b)] *)
Fixpoint insertSorted (a : num) (xs : list num) : list num :=
  match xs with
  | [] => [a]
  | b :: xs' => if b - a <? zero then b :: insertSorted a xs' else a :: b :: xs'
  end.

Definition sortNumbers (xs : list num) : list num := fold_right insertSorted [] xs.

Definition rowIntersections (edges : list (Point * Point)) (yRow : num) : list num :=
  concat
    (map (fun e =>
            let y1 := y (fst e) in
            let y2 := y (snd e) in
            if (y1 <=? yRow) && (y2 >? yRow)
            then [x (fst e) + (yRow - y1) * (x (snd e) - x (fst e)) / (y2 - y1)]
            else [])
         edges).

(** [while (currX < xEnd) { lineStitches.push({x: currX, y}); currX += stitchLen }] *)
Fixpoint brickLoop (fuel : nat) (currX xEnd stitchLen yRow : num) (lineStitches : list Point)
  : outcome (list Point) :=
  if currX <? xEnd then
    match fuel with
    | O => OutOfFuel
    | S fuel' =>
        brickLoop fuel' (currX + stitchLen) xEnd stitchLen yRow
          (lineStitches ++ [mkPoint currX yRow])
    end
  else Returned lineStitches.

Definition lineStitchesOf (fuel : nat) (maxSatinLen yRow xStart xEnd : num)
  : outcome (list Point) :=
  let stitchLen := num_lit 4.0 in
  let segmentLen := xEnd - xStart in
  if segmentLen <=? maxSatinLen then
    Returned [mkPoint xStart yRow; mkPoint xEnd yRow]
  else
    let pseudoRandom := Math_sin (yRow * num_lit 123.45) * num_ofZ 10000 in
    let noise := (pseudoRandom - Math_floor pseudoRandom) * num_lit 0.4 in
    let offsetFraction :=
      num_ofZ (Z.rem (Z.abs (Math_round (yRow * num_ofZ 10))) 3) / num_lit 3.0 + noise in
    let rowOffset := offsetFraction * stitchLen in
    let currX := xStart + num_rem (stitchLen - rowOffset) stitchLen in
    let currX := if currX <=? xStart then currX + stitchLen else currX in
    bricks <- brickLoop fuel currX xEnd stitchLen yRow [mkPoint xStart yRow] ;;
    Returned (bricks ++ [mkPoint xEnd yRow]).

(** The stitches one inside-segment appends to [stitches]. *)
Definition emitSegment (colorIdx : nat) (hexColor : string) (invAngle : num)
    (isReverse : bool) (lineStitches : list Point) (stitches : list Stitch) : list Stitch :=
  let lineStitches := if isReverse then rev lineStitches else lineStitches in
  let firstP := rotatePoint (nth 0 lineStitches origin) invAngle in
  let jumpTo := mkStitch firstP jump (Some colorIdx) (Some hexColor) (Some true) in
  let connect :=
    match lastOf stitches with
    | Some lastStitch =>
        let d := dist lastStitch firstP in
        if d >? num_lit 2.0 then [jumpTo]
        else if d >? num_lit 0.1 then [faceStitch firstP colorIdx hexColor]
        else []
    | None => [jumpTo]
    end in
  stitches ++ connect
  ++ map (fun p => faceStitch (rotatePoint p invAngle) colorIdx hexColor)
         (skipn 1 lineStitches).

(** [for (i = 0; i < intersections.length; i += 2)] over the sorted row. *)
Fixpoint rowSegments (fuel : nat) (colorIdx : nat) (hexColor : string)
    (invAngle maxSatinLen rowSpacing yRow : num) (intersections : list num)
    (stitches : list Stitch) : outcome (list Stitch) :=
  match intersections with
  | xStart :: xEnd :: rest =>
      let segmentLen := xEnd - xStart in
      if segmentLen <? num_lit 0.5 then
        rowSegments fuel colorIdx hexColor invAngle maxSatinLen rowSpacing yRow rest stitches
      else
        lineStitches <- lineStitchesOf fuel maxSatinLen yRow xStart xEnd ;;
        let isReverse := Z.eqb (Z.rem (Math_round (yRow / rowSpacing)) 2) 0 in
        rowSegments fuel colorIdx hexColor invAngle maxSatinLen rowSpacing yRow rest
          (emitSegment colorIdx hexColor invAngle isReverse lineStitches stitches)
  | _ => Returned stitches
  end.

(** [for (let y = minY + rowSpacing; y < maxY; y += rowSpacing)] *)
Fixpoint rowLoop (fuel : nat) (colorIdx : nat) (hexColor : string)
    (edges : list (Point * Point)) (invAngle maxSatinLen rowSpacing maxY yRow : num)
    (stitches : list Stitch) : outcome (list Stitch) :=
  if yRow <? maxY then
    match fuel with
    | O => OutOfFuel
    | S fuel' =>
        let intersections := sortNumbers (rowIntersections edges yRow) in
        stitches' <- rowSegments fuel' colorIdx hexColor invAngle maxSatinLen rowSpacing
                       yRow intersections stitches ;;
        rowLoop fuel' colorIdx hexColor edges invAngle maxSatinLen rowSpacing maxY
          (yRow + rowSpacing) stitches'
    end
  else Returned stitches.

Definition generateTatamiStitches (fuel : nat) (shapePathsMm : list (list Point))
    (config : ProcessingConfig) (colorIdx : nat) (hexColor : string)
  : outcome (list Stitch) :=
  if isEmpty shapePathsMm then Returned []
  else
    let compensatedPaths :=
      map (fun p => offsetPolygon p (pullCompensationMm config)) shapePathsMm in
    let angleRad := (- tatamiAngle config) * (Math_PI / num_ofZ 180) in
    let invAngle := - angleRad in
    let rotatedPaths := map (map (fun p => rotatePoint p angleRad)) compensatedPaths in
    let minY := fold_left lowerY (concat rotatedPaths) None in
    let maxY := fold_left upperY (concat rotatedPaths) None in
    edges <- allEdges rotatedPaths ;;
    let rowSpacing := densityMm config in
    let maxSatinLen := orElse (maxStitchLengthMm config) (num_lit 7.0) in
    match minY, maxY with
    | Some minY, Some maxY =>
        rowLoop fuel colorIdx hexColor edges invAngle maxSatinLen rowSpacing maxY
          (minY + rowSpacing) []
    | _, _ => Returned []
    end.

(** [{ ...s, isStructure: true }] *)
Definition asStructure (s : Stitch) : Stitch :=
  mkStitch (pos s) (type s) (colorIndex s) (hexColor s) (Some true).

(** [{ ...s, type: k }] *)
Definition withType (s : Stitch) (k : StitchKind) : Stitch :=
  mkStitch (pos s) k (colorIndex s) (hexColor s) (isStructure s).

(** [{ ...s, type: k, colorIndex: i, hexColor: color, isStructure: true }] *)
Definition command (s : Stitch) (k : StitchKind) (i : nat) (hex : string) : Stitch :=
  mkStitch (pos s) k (Some i) (Some hex) (Some true).

(** [{ ...config, satinColumnWidthMm: w, densityMm: 2.0, pullCompensationMm: 0 }] *)
Definition underlayConfig (config : ProcessingConfig) (w : num) : ProcessingConfig :=
  mkConfig (designStyle config) (widthMm config) (stitchType config)
    (num_lit 2.0) w (num_ofZ 0) (enableUnderlay config) (tatamiAngle config)
    (maxStitchLengthMm config) (minStitchLengthMm config) (trimJumpDistanceMm config)
    (colorCount config).

Definition generateUnderlay (fuel : nat) (pathMm : list Point) (config : ProcessingConfig)
    (colorIdx : nat) (hexColor : string) : outcome (list Stitch) :=
  if negb (enableUnderlay config) then Returned []
  else
    stitches <-
      match stitchType config with
      | satin =>
          let width := satinColumnWidthMm config in
          if width <? num_lit 2.0 then
            generateRunningStitches fuel pathMm config colorIdx hexColor
          else
            let inset := (width / num_ofZ 2) - num_lit 0.4 in
            if inset >? zero then
              generateSatinStitches fuel pathMm (underlayConfig config (inset * num_ofZ 2))
                colorIdx hexColor
            else Returned []
      | _ =>
          let insetPoly := offsetPolygon pathMm (num_lit (-0.6)) in
          if (2 <? length insetPoly)%nat then
            run <- generateRunningStitches fuel insetPoly config colorIdx hexColor ;;
            let stitches := map asStructure run in
            match run with
            | run0 :: _ => Returned (stitches ++ [asStructure (withType run0 stitch)])
            | [] => Returned stitches
            end
          else Returned []
      end ;;
    Returned (map asStructure stitches).

Definition isJumpOrEnd (k : StitchKind) : bool :=
  match k with jump | end_ => true | _ => false end.

(** [{ x: px, y: s.y, type: k, colorIndex: s.colorIndex, hexColor: s.hexColor,
      isStructure: true }] *)
Definition tieStitch (s : Stitch) (px : num) (k : StitchKind) : Stitch :=
  mkStitch (mkPoint px (y s)) k (colorIndex s) (hexColor s) (Some true).

Definition addTieIn (stitches : list Stitch) : list Stitch :=
  match stitches with
  | [] => []
  | first :: _ =>
      if isJumpOrEnd (type first) then stitches
      else
        let tieIn := [tieStitch first (x first + num_lit 0.5) stitch;
                      tieStitch first (x first) stitch] in
        tieIn ++ stitches
  end.

Definition addTieOff (stitches : list Stitch) : list Stitch :=
  match lastOf stitches with
  | None => []
  | Some last =>
      if isJumpOrEnd (type last) then stitches
      else
        let tieOff := [tieStitch last (x last - num_lit 0.5) stitch;
                       tieStitch last (x last) stitch;
                       tieStitch last (x last) trim] in
        stitches ++ tieOff
  end.

(** An element of the array [digitizeDesign] returns.  [removeSmallStitches]
    starts its result with [stitches[0]], which is [undefined] when there
    is no stitch, and [{ ...undefined, type: 'end' }] carries a type only. *)
Inductive Item : Type :=
| undefined
| record (s : Stitch)
| typeOnly (k : StitchKind).

Definition kindOf (it : Item) : option StitchKind :=
  match it with
  | undefined => None
  | record s => Some (type s)
  | typeOnly k => Some k
  end.

(** [{ ...it, type: k }] *)
Definition itemWithType (it : Item) (k : StitchKind) : Item :=
  match it with
  | record s => record (withType s k)
  | _ => typeOnly k
  end.

(** The loop of [removeSmallStitches] from [i = 1]; [prev] is the last
    element of [result]. *)
Fixpoint removeLoop (minLen : num) (prev : Stitch) (rest : list Stitch) : list Stitch :=
  match rest with
  | [] => []
  | curr :: rest' =>
      let d := dist prev curr in
      if StitchKind_eqb (type curr) stitch && ((d <? minLen) && (d >? num_lit 0.01))
      then removeLoop minLen prev rest'
      else curr :: removeLoop minLen curr rest'
  end.

Definition removeSmallStitches (stitches : list Stitch) (minLen : num) : list Item :=
  match stitches with
  | [] => [undefined]
  | s0 :: rest => map record (s0 :: removeLoop minLen s0 rest)
  end.

(* ------------------------------------------------------------------ *)
(** *** Phase 3: digitize *)

(** The stitches of the main generator for one path. *)
Definition generateMain (fuel : nat) (path : list Point) (config : ProcessingConfig)
    (i : nat) (hex : string) : outcome (list Stitch) :=
  match stitchType config with
  | tatami => generateTatamiStitches fuel [path] config i hex
  | satin => generateSatinStitches fuel path config i hex
  | running => generateRunningStitches fuel path config i hex
  end.

(** One round of [for (const path of layer.paths)]. *)
Definition digitizePath (fuel : nat) (config : ProcessingConfig) (i : nat) (hex : string)
    (layerStitches : list Stitch) (path : list Point) : outcome (list Stitch) :=
  (* 1. underlay *)
  underlay <- generateUnderlay fuel path config i hex ;;
  let layerStitches :=
    match addTieIn underlay with
    | [] => layerStitches
    | (tied0 :: _) as tiedUnderlay =>
        (if isEmpty layerStitches then layerStitches
         else layerStitches ++ [command tied0 jump i hex])
        ++ tiedUnderlay
    end in
  (* 2. main stitches *)
  main <- generateMain fuel path config i hex ;;
  (* 3. cleanup *)
  if isEmpty main then Returned layerStitches
  else
    let main := if isEmpty underlay then addTieIn main else main in
    let main := addTieOff main in
    let layerStitches :=
      match lastOf layerStitches, main with
      | Some last, first :: _ =>
          let d := dist last first in
          if d >? trimJumpDistanceMm config then
            layerStitches ++ [command last trim i hex; command first jump i hex]
          else layerStitches ++ [command first jump i hex]
      | _, _ => layerStitches
      end in
    Returned (layerStitches ++ main).

Fixpoint digitizePaths (fuel : nat) (config : ProcessingConfig) (i : nat) (hex : string)
    (layerStitches : list Stitch) (ps : list (list Point)) : outcome (list Stitch) :=
  match ps with
  | [] => Returned layerStitches
  | path :: ps' =>
      layerStitches' <- digitizePath fuel config i hex layerStitches path ;;
      digitizePaths fuel config i hex layerStitches' ps'
  end.

(** One round of [for (let i = 0; i < layers.length; i++)]. *)
Definition digitizeLayer (fuel : nat) (config : ProcessingConfig) (i : nat)
    (allStitches : list Stitch) (layer : VectorLayer) : outcome (list Stitch) :=
  layerStitches <- digitizePaths fuel config i (color layer) [] (paths layer) ;;
  match layerStitches with
  | [] => Returned allStitches
  | first :: _ =>
      Returned
        (match lastOf allStitches with
         | Some last =>
             allStitches ++ [command last color_change i (color layer);
                             command first jump i (color layer)]
         | None => allStitches
         end ++ layerStitches)
  end.

Fixpoint digitizeLayers (fuel : nat) (config : ProcessingConfig) (i : nat)
    (allStitches : list Stitch) (layers : list VectorLayer) : outcome (list Stitch) :=
  match layers with
  | [] => Returned allStitches
  | layer :: layers' =>
      allStitches' <- digitizeLayer fuel config i allStitches layer ;;
      digitizeLayers fuel config (S i) allStitches' layers'
  end.

Definition digitizeDesign (fuel : nat) (layers : list VectorLayer) (config : ProcessingConfig)
  : outcome (list Item) :=
  allStitches <- digitizeLayers fuel config 0 [] layers ;;
  let cleanedStitches := removeSmallStitches allStitches (minStitchLengthMm config) in
  match lastOf cleanedStitches with
  | Some last => Returned (cleanedStitches ++ [itemWithType last end_])
  | None => Returned cleanedStitches
  end.

(* ================================================================== *)
(** ** The DST encoder ([services/dstExporter.ts]) *)

Inductive TajimaType : Type := t_stitch | t_jump | t_stop | t_end.

(** [b[i] |= mask] on the three bytes [(b0, b1, b2)]. *)
Definition orByte (b : Z * Z * Z) (i : nat) (mask : Z) : Z * Z * Z :=
  let '(b0, b1, b2) := b in
  match i with
  | O => (Z.lor b0 mask, b1, b2)
  | S O => (b0, Z.lor b1 mask, b2)
  | _ => (b0, b1, Z.lor b2 mask)
  end.

(** [if (v >= w) { b[i] |= mask; v -= w; }] *)
Definition takePos (w : Z) (i : nat) (mask : Z) (s : (Z * Z * Z) * Z) : (Z * Z * Z) * Z :=
  let '(b, v) := s in
  if (v >=? w)%Z then (orByte b i mask, (v - w)%Z) else s.

(** [if (v <= -w) { b[i] |= mask; v += w; }] *)
Definition takeNeg (w : Z) (i : nat) (mask : Z) (s : (Z * Z * Z) * Z) : (Z * Z * Z) * Z :=
  let '(b, v) := s in
  if (v <=? - w)%Z then (orByte b i mask, (v + w)%Z) else s.

Definition encodeTajimaStitch (dx dy : Z) (type : TajimaType) : list Z :=
  let b := (0, 0, 0)%Z in
  let jump := match type with t_jump => true | _ => false end in
  let stop := match type with t_stop => true | _ => false end in
  let end_ := match type with t_end => true | _ => false end in
  let b := if jump || stop || end_ then orByte b 2 128 else b in
  let b := if stop || end_ then orByte b 2 64 else b in
  (* map bits for Y *)
  let s := (b, dy) in
  let s := takePos 1 0 1 s in
  let s := takeNeg 1 0 2 s in
  let s := takePos 9 0 4 s in
  let s := takeNeg 9 0 8 s in
  let s := takePos 3 1 128 s in
  let s := takeNeg 3 1 64 s in
  let s := takePos 27 1 32 s in
  let s := takeNeg 27 1 16 s in
  let s := takePos 81 2 4 s in
  let s := takeNeg 81 2 8 s in
  (* map bits for X *)
  let s := (fst s, dx) in
  let s := takePos 1 0 128 s in
  let s := takeNeg 1 0 64 s in
  let s := takePos 9 0 32 s in
  let s := takeNeg 9 0 16 s in
  let s := takePos 3 1 8 s in
  let s := takeNeg 3 1 4 s in
  let s := takePos 27 1 2 s in
  let s := takeNeg 27 1 1 s in
  let s := takePos 81 2 16 s in
  let s := takeNeg 81 2 32 s in
  let '(b0, b1, b2) := fst s in
  [b0; b1; b2].

(** The state of the loop of [createDstFile]; [minX] ... [maxY] are [None]
    while still at [Infinity] / [-Infinity]. *)
Record DstState : Type := mkDst {
  d_minX : option Z; d_maxX : option Z; d_minY : option Z; d_maxY : option Z;
  d_currentX : Z; d_currentY : Z;
  d_stitchCount : Z;
  d_bodyParts : list (list Z)
}.

Definition MAX_STEP_DST : Z := 121.

Definition clampStep (maxStep d : Z) : Z :=
  if (d >? maxStep)%Z then maxStep else if (d <? - maxStep)%Z then (- maxStep)%Z else d.

(** [while (Math.abs(dx) > MAX_STEP || Math.abs(dy) > MAX_STEP)]; every round
    brings the larger of [|dx|], [|dy|] down by 121, so that many rounds are
    enough ([dstSplit_exits]). *)
Fixpoint dstSplit (rounds : nat) (dx dy : Z) (st : DstState) : Z * Z * DstState :=
  if (Z.abs dx >? MAX_STEP_DST)%Z || (Z.abs dy >? MAX_STEP_DST)%Z then
    match rounds with
    | O => (dx, dy, st)
    | S rounds' =>
        let stepX := clampStep MAX_STEP_DST dx in
        let stepY := clampStep MAX_STEP_DST dy in
        dstSplit rounds' (dx - stepX)%Z (dy - stepY)%Z
          (mkDst (d_minX st) (d_maxX st) (d_minY st) (d_maxY st)
             (d_currentX st + stepX)%Z (d_currentY st + stepY)%Z
             (d_stitchCount st + 1)%Z
             (d_bodyParts st ++ [encodeTajimaStitch stepX stepY t_jump]))
    end
  else (dx, dy, st).

Definition lowerBound (acc : option Z) (t : Z) : option Z :=
  match acc with
  | None => Some t
  | Some m => if (t <? m)%Z then Some t else acc
  end.

Definition upperBound (acc : option Z) (t : Z) : option Z :=
  match acc with
  | None => Some t
  | Some m => if (t >? m)%Z then Some t else acc
  end.

(** [Math.round(v * 10)] *)
Definition tenths (v : num) : Z := Math_round (v * num_ofZ 10).

(** One round of the loop over [stitches]. *)
Definition dstStep (st : DstState) (s : Stitch) : DstState :=
  match type s with
  | end_ => st
  | _ =>
      let targetX := tenths (x s) in
      let targetY := tenths (y s) in
      let dx := (targetX - d_currentX st)%Z in
      let dy := (targetY - d_currentY st)%Z in
      let st := mkDst (lowerBound (d_minX st) targetX) (upperBound (d_maxX st) targetX)
                      (lowerBound (d_minY st) targetY) (upperBound (d_maxY st) targetY)
                      (d_currentX st) (d_currentY st) (d_stitchCount st) (d_bodyParts st) in
      let '(dx, dy, st) := dstSplit (Z.to_nat (Z.max (Z.abs dx) (Z.abs dy))) dx dy st in
      let type :=
        match type s with
        | jump => t_jump
        | color_change => t_stop
        | _ => t_stitch
        end in
      mkDst (d_minX st) (d_maxX st) (d_minY st) (d_maxY st)
        (d_currentX st + dx)%Z (d_currentY st + dy)%Z
        (d_stitchCount st + 1)%Z
        (d_bodyParts st ++ [encodeTajimaStitch dx dy type])
  end.

Definition dstInit : DstState := mkDst None None None None 0 0 0 [].

Definition dstLoop (stitches : list Stitch) : DstState := fold_left dstStep stitches dstInit.

(** The body: the records of the loop and the end-of-file record. *)
Definition dstBodyParts (stitches : list Stitch) : list (list Z) :=
  d_bodyParts (dstLoop stitches) ++ [encodeTajimaStitch 0 0 t_end].

(** Strings. *)
Definition digitChar (d : Z) : ascii := ascii_of_nat (48 + Z.to_nat d).

Fixpoint digitsOf (rounds : nat) (n : Z) (acc : string) : string :=
  let acc := String (digitChar (n mod 10)) acc in
  match rounds with
  | O => acc
  | S rounds' => if (n <? 10)%Z then acc else digitsOf rounds' (n / 10)%Z acc
  end.

(** [n.toString()] for an integer [n]. *)
Definition toString (n : Z) : string :=
  if (n <? 0)%Z then String "-"%char (digitsOf (Z.to_nat (Z.log2 (- n))) (- n)%Z EmptyString)
  else digitsOf (Z.to_nat (Z.log2 n)) n EmptyString.

Fixpoint repeatChar (c : ascii) (n : nat) : string :=
  match n with
  | O => EmptyString
  | S n' => String c (repeatChar c n')
  end.

Definition padStart (s : string) (n : nat) (c : ascii) : string :=
  (repeatChar c (n - String.length s) ++ s)%string.

Definition padEnd (s : string) (n : nat) (c : ascii) : string :=
  (s ++ repeatChar c (n - String.length s))%string.

Definition charCodes (s : string) : list Z :=
  map (fun c => Z.of_nat (nat_of_ascii c)) (list_ascii_of_string s).

(** [header[i] = v]; a store past the end of a typed array is dropped. *)
Fixpoint setByte (i : nat) (v : Z) (bytes : list Z) : list Z :=
  match bytes, i with
  | [], _ => []
  | _ :: bs, O => v :: bs
  | b :: bs, S i' => b :: setByte i' v bs
  end.

Fixpoint writeCodes (codes : list Z) (offset : nat) (header : list Z) : list Z :=
  match codes with
  | [] => header
  | c :: codes' => writeCodes codes' (S offset) (setByte offset c header)
  end.

Definition writeString (str : string) (offset : nat) (header : list Z) : list Z :=
  writeCodes (charCodes str) offset header.

(** [Math.max(0, maxX)] and [Math.abs(Math.min(0, minX))] *)
Definition positiveExtent (maxV : option Z) : Z :=
  match maxV with None => 0 | Some m => Z.max 0 m end.

Definition negativeExtent (minV : option Z) : Z :=
  match minV with None => 0 | Some m => Z.abs (Z.min 0 m) end.

Definition isColorChange (s : Stitch) : bool := StitchKind_eqb (type s) color_change.

Definition dstHeader (stitches : list Stitch) : list Z :=
  let st := dstLoop stitches in
  let header := repeat 32%Z 512 in
  let label := "SR_LUCAS"%string in
  let header := writeString ("LA:" ++ padEnd label 16 " ") 0 header in
  let header := writeString ("ST:" ++ padStart (toString (d_stitchCount st)) 7 "0") 23 header in
  let coCount := Z.of_nat (length (filter isColorChange stitches)) in
  let header := writeString ("CO:" ++ padStart (toString coCount) 3 "0") 39 header in
  let pX := positiveExtent (d_maxX st) in
  let nX := negativeExtent (d_minX st) in
  let pY := positiveExtent (d_maxY st) in
  let nY := negativeExtent (d_minY st) in
  let header := writeString ("+X:" ++ padStart (toString pX) 5 "0") 54 header in
  let header := writeString ("-X:" ++ padStart (toString nX) 5 "0") 69 header in
  let header := writeString ("+Y:" ++ padStart (toString pY) 5 "0") 84 header in
  let header := writeString ("-Y:" ++ padStart (toString nY) 5 "0") 99 header in
  let header := writeString "AX:+00000" 114 header in
  let header := writeString "AY:+00000" 129 header in
  let header := writeString "MX:+00000" 144 header in
  let header := writeString "MY:+00000" 159 header in
  let header := writeString "PD:******" 174 header in
  header.

Definition createDstFile (stitches : list Stitch) (widthMm heightMm : num) : list Z :=
  dstHeader stitches ++ concat (dstBodyParts stitches).

(** The [len] bytes of a file from [offset] on. *)
Definition field (offset len : nat) (file : list Z) : list Z :=
  firstn len (skipn offset file).

(* ================================================================== *)
(** ** The EXP encoder ([createExpFile]) *)

Definition MAX_STEP_EXP : Z := 120.

(** The encoder's position and the bytes passed to [writeByte] so far. *)
Record ExpState : Type := mkExp {
  e_currentX : Z; e_currentY : Z;
  e_written : list Z
}.

(** [while (dx !== 0 || dy !== 0)]; every round brings [|dx| + |dy|] down,
    so that many rounds are enough ([expMove_exits]). *)
Fixpoint expMove (rounds : nat) (isJump : bool) (dx dy : Z) (st : ExpState)
  : Z * Z * ExpState :=
  if negb (dx =? 0)%Z || negb (dy =? 0)%Z then
    match rounds with
    | O => (dx, dy, st)
    | S rounds' =>
        let stepX := clampStep MAX_STEP_EXP dx in
        let stepY := clampStep MAX_STEP_EXP dy in
        let bytes :=
          if isJump then [128; 4; Z.land stepX 255; Z.land stepY 255]%Z
          else [Z.land stepX 255; Z.land stepY 255] in
        expMove rounds' isJump (dx - stepX)%Z (dy - stepY)%Z
          (mkExp (e_currentX st + stepX)%Z (e_currentY st + stepY)%Z
             (e_written st ++ bytes))
    end
  else (dx, dy, st).

Definition expWrite (st : ExpState) (bytes : list Z) : ExpState :=
  mkExp (e_currentX st) (e_currentY st) (e_written st ++ bytes).

Definition expStep (st : ExpState) (s : Stitch) : ExpState :=
  match type s with
  | end_ => expWrite st [128; 1; 0; 0]%Z
  | color_change => expWrite st [128; 1; 0; 0]%Z
  | trim => expWrite st [128; 4; 0; 0; 128; 4; 0; 0; 128; 4; 0; 0]%Z
  | _ =>
      let targetX := tenths (x s) in
      let targetY := tenths (y s) in
      let dx := (targetX - e_currentX st)%Z in
      let dy := (targetY - e_currentY st)%Z in
      snd (expMove (Z.to_nat (Z.abs dx + Z.abs dy)) (StitchKind_eqb (type s) jump) dx dy st)
  end.

Definition expInit : ExpState := mkExp 0 0 [].

Definition expLoop (stitches : list Stitch) : ExpState := fold_left expStep stitches expInit.

(** The buffer holds [stitches.length * 8 + 1024] bytes; [writeByte] past
    its end stores nothing, and [buffer.slice(0, offset)] stops at its end. *)
Definition createExpFile (stitches : list Stitch) : list Z :=
  firstn (length stitches * 8 + 1024) (e_written (expLoop stitches)).

End Core.

Arguments Point num : clear implicits.
Arguments Stitch num : clear implicits.
Arguments VectorLayer num : clear implicits.
Arguments ProcessingConfig num : clear implicits.
Arguments Item num : clear implicits.
Arguments Best num : clear implicits.


(* ================================================================== *)
(** ** Reading the binary formats back *)

(** The value of bit [i] of byte [b]. *)
Definition bitOf (b : Z) (i : Z) : Z := if Z.testbit b i then 1%Z else 0%Z.

(** The step [(dx, dy)] a 3-byte DST record stands for, by the bit table of
    the format: weights 1, 9 in byte 0, weights 3, 27 in byte 1, weight 81
    in byte 2. *)
Definition decodeTajima (r : list Z) : Z * Z :=
  match r with
  | [b0; b1; b2] =>
      ((bitOf b0 7 - bitOf b0 6) + 9 * (bitOf b0 5 - bitOf b0 4)
       + 3 * (bitOf b1 3 - bitOf b1 2) + 27 * (bitOf b1 1 - bitOf b1 0)
       + 81 * (bitOf b2 4 - bitOf b2 5),
       (bitOf b0 0 - bitOf b0 1) + 9 * (bitOf b0 2 - bitOf b0 3)
       + 3 * (bitOf b1 7 - bitOf b1 6) + 27 * (bitOf b1 5 - bitOf b1 4)
       + 81 * (bitOf b2 2 - bitOf b2 3))%Z
  | _ => (0, 0)%Z
  end.

(** The absolute position after each record of a DST body. *)
Fixpoint decodeDstBody (cur : Z * Z) (records : list (list Z)) : list (Z * Z) :=
  match records with
  | [] => []
  | r :: records' =>
      let cur' := (fst cur + fst (decodeTajima r), snd cur + snd (decodeTajima r))%Z in
      cur' :: decodeDstBody cur' records'
  end.

(** A byte of an EXP step read as a signed 8-bit integer. *)
Definition signed8 (b : Z) : Z := if (b <? 128)%Z then b else (b - 256)%Z.

(** The position an EXP body ends at: [0x80 0x04 dx dy] is a jump,
    [0x80 0x01 0 0] a stop, any other pair [dx dy] a stitch. *)
Fixpoint decodeExp (rounds : nat) (cur : Z * Z) (bytes : list Z) : Z * Z :=
  match rounds with
  | O => cur
  | S rounds' =>
      match bytes with
      | b0 :: b1 :: rest =>
          if (b0 =? 128)%Z then
            match rest with
            | dx :: dy :: rest' =>
                if (b1 =? 4)%Z
                then decodeExp rounds' (fst cur + signed8 dx, snd cur + signed8 dy)%Z rest'
                else decodeExp rounds' cur rest'
            | _ => cur
            end
          else decodeExp rounds' (fst cur + signed8 b0, snd cur + signed8 b1)%Z rest
      | _ => cur
      end
  end.

(** [bytes] is a whole number of records, and they take a reader that
    starts at the origin to [cur]. *)
Definition expReads (bytes : list Z) (cur : Z * Z) : Prop :=
  exists k : nat,
    (k <= length bytes)%nat /\
    forall (n : nat) (rest : list Z),
      decodeExp (k + n) (0, 0)%Z (bytes ++ rest) = decodeExp n cur rest.

(* ================================================================== *)
(** ** Order of the commands in a stitch sequence *)

(** A record that moves the frame: a penetration or a jump. *)
Definition isMove (k : StitchKind) : bool :=
  match k with stitch | jump => true | _ => false end.

(** What was read last: no trim, one trim, or two trims in a row. *)
Inductive TrimState : Type := noTrim | oneTrim | twoTrims.

(** Reading one more record of a sequence that has no [end] yet: a trim
    may be followed by a jump, a color change or one more trim, and two
    trims by a jump only. *)
Definition trimStep (s : TrimState) (k : StitchKind) : option TrimState :=
  match s, k with
  | _, end_ => None
  | noTrim, trim => Some oneTrim
  | noTrim, _ => Some noTrim
  | oneTrim, trim => Some twoTrims
  | oneTrim, jump => Some noTrim
  | oneTrim, color_change => Some noTrim
  | oneTrim, stitch => None
  | twoTrims, jump => Some noTrim
  | twoTrims, _ => None
  end.

Fixpoint trimRun (s : TrimState) (ks : list StitchKind) : option TrimState :=
  match ks with
  | [] => Some s
  | k :: ks' =>
      match trimStep s k with
      | Some s' => trimRun s' ks'
      | None => None
      end
  end.

(** A sequence under construction: read without fault from the start, and
    not ending in two trims. *)
Definition openSequence {num : Type} {N : JSNumber num} (l : list (Stitch num)) : Prop :=
  exists s, trimRun noTrim (map type l) = Some s /\ s <> twoTrims.

(** [config] with other values for the three options the specification
    bounds: density, satin column width and maximum stitch length. *)
Definition withOptions {num : Type} (config : ProcessingConfig num)
    (density satinWidth maxLen : num) : ProcessingConfig num :=
  mkConfig (designStyle config) (widthMm config) (stitchType config)
    density satinWidth (pullCompensationMm config) (enableUnderlay config)
    (tatamiAngle config) maxLen (minStitchLengthMm config) (trimJumpDistanceMm config)
    (colorCount config).

(** Two configurations of the running stitch type that agree on what the
    pipeline reads of them: the underlay switch, the run length, the trim
    distance and the minimum stitch length. *)
Definition sameForRunning {num : Type} {N : JSNumber num}
    (c1 c2 : ProcessingConfig num) : Prop :=
  stitchType c1 = running /\ stitchType c2 = running
  /\ enableUnderlay c1 = enableUnderlay c2
  /\ MAX_RUN_LEN c1 = MAX_RUN_LEN c2
  /\ trimJumpDistanceMm c1 = trimJumpDistanceMm c2
  /\ minStitchLengthMm c1 = minStitchLengthMm c2.

(** The error kind ConfigOutOfRange, in the words of the specification. *)
Definition configOutOfRange {num : Type} {N : JSNumber num}
    (config : ProcessingConfig num) : bool :=
  num_le (densityMm config) (num_ofZ 0)
  || (match stitchType config with satin => true | _ => false end
      && num_le (satinColumnWidthMm config) (num_ofZ 0))
  || num_le (maxStitchLengthMm config) (num_ofZ 0).

(* ================================================================== *)
(** ** The generators over the reals, in the words of the specification *)

(** Every pair of neighbours of [a :: l] satisfies [P]. *)
Fixpoint chained {A : Type} (P : A -> A -> Prop) (a : A) (l : list A) : Prop :=
  match l with
  | [] => True
  | b :: l' => P a b /\ chained P b l'
  end.

Module RunningSpec.

Local Open Scope R_scope.

(** De-duplication.  Going through the points that follow [a], the last
    point kept: a point more than 0.01 away from the last point kept is
    kept, and a point within 0.01 of it is dropped. *)
Inductive cleaned : Point R -> list (Point R) -> list (Point R) -> Prop :=
| cleaned_nil (a : Point R) : cleaned a [] []
| cleaned_keep (a p : Point R) (rest kept : list (Point R)) :
    1 / 100 < dist a p -> cleaned p rest kept -> cleaned a (p :: rest) (p :: kept)
| cleaned_drop (a p : Point R) (rest kept : list (Point R)) :
    dist a p <= 1 / 100 -> cleaned a rest kept -> cleaned a (p :: rest) kept.


(** The points [a + s/n (b - a)] for [s = 1, ..., n]. *)
Definition equallySpaced (n : Z) (a b : Point R) : list (Point R) :=
  map (fun s => mkPoint (x a + IZR s / IZR n * (x b - x a))
                        (y a + IZR s / IZR n * (y b - y a)))
      (range 1 n).

(** A segment of length [d] gives its endpoint if [d <= L], and
    [ceil (d / L)] equally spaced points otherwise. *)
Definition segmentPoints (L : R) (a b : Point R) : list (Point R) :=
  let d := dist a b in
  if Rle_dec d L then [b] else equallySpaced (Exact.ceilZ (d / L)) a b.

Fixpoint polylinePoints (L : R) (a : Point R) (rest : list (Point R)) : list (Point R) :=
  match rest with
  | [] => []
  | b :: rest' => segmentPoints L a b ++ polylinePoints L b rest'
  end.

(** The first cleaned point, then the points of each segment. *)
Definition runningPoints (L : R) (clean : list (Point R)) : list (Point R) :=
  match clean with
  | [] => []
  | a :: rest => a :: polylinePoints L a rest
  end.

(** [max_stitch_length_mm], or 2.5 mm when that is not positive. *)
Definition runLength (config : ProcessingConfig R) : R :=
  if Rlt_dec 0 (maxStitchLengthMm config) then maxStitchLengthMm config else 2.5.

End RunningSpec.

Module NearestJoin.

Local Open Scope R_scope.







End NearestJoin.

(** Designs over the reals. *)
Module RealScenario.

Local Open Scope R_scope.

Definition config (t : StitchType) (density satinWidth maxLen : R) : ProcessingConfig R :=
  mkConfig vintage 100 t density satinWidth 0 false 45 maxLen 0.3 2 1.

(** S1: the path [(0,0), (10,0)]. *)
Definition straightPath : list (Point R) := [mkPoint 0 0; mkPoint 10 0].


(** Half-width 1, density 2. *)
Definition satinConfig : ProcessingConfig R := config satin 2 2 7.


End RealScenario.

(* ================================================================== *)
(** ** Concrete designs, run on binary64 *)

Module Scenario.

Definition pt (a b : Q) : Point float := mkPoint (num_lit a) (num_lit b).

Definition st (a b : Q) (k : StitchKind) : Stitch float :=
  mkStitch (pt a b) k None None None.

(** S4: [stitch(0,0), stitch(5.0, -3.2), end]. *)
Definition boundsList : list (Stitch float) :=
  [st 0 0 stitch; st 5.0 (-3.2) stitch; st 5.0 (-3.2) end_].

(** A stitch 0.2 mm above the origin. *)
Definition smallStep : list (Stitch float) := [st 0 0.2 stitch].

(** Two stitches on the same spot. *)
Definition lockStitch : list (Stitch float) := [st 1.0 0 stitch; st 1.0 0 stitch].

Definition config (t : StitchType) (density satinWidth maxLen : Q) : ProcessingConfig float :=
  mkConfig vintage (num_lit 100) t (num_lit density) (num_lit satinWidth) (num_lit 0)
    false (num_lit 45) (num_lit maxLen) (num_lit 0.3) (num_lit 2.0) 1.

Definition runningConfig : ProcessingConfig float := config running 0.4 2.0 2.5.

(** Every numeric option the specification bounds is zero. *)
Definition outOfRangeConfig : ProcessingConfig float := config running 0 0 0.

(** One layer with two short open paths 9 mm apart. *)
Definition twoPaths : list (VectorLayer float) :=
  [mkLayer "#000000" [[pt 0 0; pt 1 0]; [pt 10 0; pt 11 0]]].

(** A spine with one sharp corner: two legs of length 25. *)
Definition sharpSpine : list (Point float) := [pt 0 0; pt 24 7; pt 0 14].

(** The kinds of the records of a returned sequence. *)
Definition kinds (o : outcome (list (Item float))) : list (option StitchKind) :=
  match o with
  | Returned out => map kindOf out
  | _ => []
  end.

(** What [digitizeDesign] returns for [twoPaths]. *)
Definition twoPathsOut : list (Item float) :=
  match digitizeDesign 0 twoPaths runningConfig with
  | Returned out => out
  | _ => []
  end.

(** Half-width 1 mm, one resampled point per leg of [sharpSpine]. *)
Definition satinConfig : ProcessingConfig float := config satin 25 2.0 7.

(** A spine with a corner of about 31 degrees, resampled every 3 mm with
    half-width 1 mm. *)
Definition cornerSpine : list (Point float) := [pt 0 0; pt 12 (-1); pt 5 (-4)].

Definition cornerConfig : ProcessingConfig float := config satin 3 2.0 7.

(** The distances between the two penetrations of the pairs [satinPenetrations]
    returns. *)
Definition widths (o : outcome (list (Point float * Point float))) : list float :=
  match o with
  | Returned pens => map (fun p => dist (fst p) (snd p)) pens
  | _ => []
  end.


(** A segment of length 3.2 whose ends are not binary fractions. *)
Definition offGridPath : list (Point float) := [pt 0.7 0; pt 3.9 0].

(** Two points 6 mm apart, 10^16 mm from the origin, where neighbouring
    floats are 2 apart. *)
Definition farPath : list (Point float) :=
  [pt 10000000000000000 0; pt 10000000000000006 0].

(** A maximum stitch length of 3.5 mm. *)
Definition longRunConfig : ProcessingConfig float := config running 0.4 2.0 3.5.

(** A closed square of 5 mm, and a fill at angle 0 with rows 2 mm apart:
    no row is longer than the maximum stitch length of 7 mm. *)
Definition smallSquare : list (Point float) :=
  [pt 0 0; pt 5 0; pt 5 5; pt 0 5; pt 0 0].

Definition flatFillConfig : ProcessingConfig float :=
  mkConfig vintage (num_lit 100) tatami (num_lit 2) (num_lit 2.0) (num_lit 0)
    false (num_lit 0) (num_lit 7) (num_lit 0.3) (num_lit 2.0) 1.

(** The smallest positive number as maximum stitch length. *)
Definition tinyRunConfig : ProcessingConfig float :=
  mkConfig vintage (num_lit 100) running (num_lit 0.4) (num_lit 2.0) (num_lit 0)
    false (num_lit 45) 0x1p-1074%float (num_lit 0.3) (num_lit 2.0) 1.

(** A one-point list next to a closed square. *)
Definition dotAndSquare : list (list (Point float)) :=
  [[pt 1 1]; [pt 5 5; pt 6 5; pt 6 6; pt 5 6; pt 5 5]].

End Scenario.


(* ================================================================== *)
(** ** What a DST file is measured against *)

Section DstReference.

Context {num : Type} {N : JSNumber num}.

(** The rounded coordinates, in 0.1 mm, of the records the loop of
    [createDstFile] moves to: every record but [end]. *)
Definition dstTargets (stitches : list (Stitch num)) : list (Z * Z) :=
  map (fun s : Stitch num => (tenths (x s), tenths (y s)))
      (filter (fun s => negb (StitchKind_eqb (type s) end_)) stitches).

(** The calls of [encodeTajimaStitch] the loop of [createDstFile] makes:
    the arguments [(dx, dy, type)] of each call, in order. *)
Definition DstCall : Type := Z * Z * TajimaType.

Definition encodeCall (c : DstCall) : list Z :=
  encodeTajimaStitch (fst (fst c)) (snd (fst c)) (snd c).

(** The calls of the splitting loop, and the [dx], [dy] it leaves. *)
Fixpoint dstSplitCalls (rounds : nat) (dx dy : Z) : list DstCall * (Z * Z) :=
  if (Z.abs dx >? MAX_STEP_DST)%Z || (Z.abs dy >? MAX_STEP_DST)%Z then
    match rounds with
    | O => ([], (dx, dy))
    | S rounds' =>
        let stepX := clampStep MAX_STEP_DST dx in
        let stepY := clampStep MAX_STEP_DST dy in
        let '(calls, residue) := dstSplitCalls rounds' (dx - stepX)%Z (dy - stepY)%Z in
        ((stepX, stepY, t_jump) :: calls, residue)
    end
  else ([], (dx, dy)).

(** The calls of one round of the loop, entered at the position [cur]. *)
Definition dstStepCalls (cur : Z * Z) (s : Stitch num) : list DstCall :=
  match type s with
  | end_ => []
  | _ =>
      let dx := (tenths (x s) - fst cur)%Z in
      let dy := (tenths (y s) - snd cur)%Z in
      let '(calls, (dx, dy)) :=
        dstSplitCalls (Z.to_nat (Z.max (Z.abs dx) (Z.abs dy))) dx dy in
      let type :=
        match type s with
        | jump => t_jump
        | color_change => t_stop
        | _ => t_stitch
        end in
      calls ++ [(dx, dy, type)]
  end.

(** [currentX += dx; currentY += dy] for each call. *)
Definition dstMove (cur : Z * Z) (calls : list DstCall) : Z * Z :=
  fold_left (fun p c => (fst p + fst (fst c), snd p + snd (fst c))%Z) calls cur.

(** The calls of the whole loop, entered at the position [cur]. *)
Fixpoint dstCalls (cur : Z * Z) (stitches : list (Stitch num)) : list DstCall :=
  match stitches with
  | [] => []
  | s :: rest =>
      let calls := dstStepCalls cur s in
      calls ++ dstCalls (dstMove cur calls) rest
  end.

End DstReference.

(** The steps [-121 .. 121] that [encodeTajimaStitch] stores in full. *)
Definition exactSteps : list Z := [-121; -40; -13; -10; -4; -1; 0; 1; 4; 10; 13; 40; 121]%Z.

(** Bits 7 and 6 of the third byte of a record of each type. *)
Definition controlBits (t : TajimaType) : Z :=
  match t with
  | t_stitch => 0
  | t_jump => 128
  | t_stop => 192
  | t_end => 192
  end%Z.

(* ================================================================== *)
(** ** Path simplification (Ramer-Douglas-Peucker) *)

Section Simplify.

Context {num : Type} {N : JSNumber num}.
Local Open Scope num_scope.

(** Distance from point [p] to the line segment [ab]. *)
Definition pointLineDist (p a b : Point num) : num :=
  let l2 := pow2 (dist a b) in
  if l2 =? zero then dist p a
  else
    let t := ((x p - x a) * (x b - x a) + (y p - y a) * (y b - y a)) / l2 in
    let tClamped := Math_max zero (Math_min (num_ofZ 1) t) in
    let projection :=
      mkPoint (x a + tClamped * (x b - x a)) (y a + tClamped * (y b - y a)) in
    dist p projection.

(** The loop [for (let i = 1; i < end; i++)] of [simplifyPath] over
    [interior = points.slice(i, end)]: the running [(index, dmax)]. *)
Fixpoint farthest (first last_ : Point num) (i : nat) (interior : list (Point num))
    (index : nat) (dmax : num) : nat * num :=
  match interior with
  | [] => (index, dmax)
  | p :: rest =>
      let d := pointLineDist p first last_ in
      if d >? dmax then farthest first last_ (S i) rest i d
      else farthest first last_ (S i) rest index dmax
  end.

(** [simplifyPath]; [depth] bounds the depth of the recursion. *)
Fixpoint simplifyPath (depth : nat) (points : list (Point num)) (epsilon : num)
  : outcome (list (Point num)) :=
  if (length points <? 3)%nat then Returned points
  else
    match depth with
    | O => OutOfFuel
    | S depth' =>
        let first := hd origin points in
        let last_ := last points origin in
        let '(index, dmax) := farthest first last_ 1 (removelast (tl points)) 0 zero in
        if dmax >? epsilon then
          recResults1 <- simplifyPath depth' (firstn (index + 1) points) epsilon ;;
          recResults2 <- simplifyPath depth' (skipn index points) epsilon ;;
          Returned (firstn (length recResults1 - 1) recResults1 ++ recResults2)
        else Returned [first; last_]
    end.

End Simplify.

(** [l1] is [l2] with some elements left out. *)
Inductive subsequence {A : Type} : list A -> list A -> Prop :=
| subsequence_nil (l : list A) : subsequence [] l
| subsequence_take (a : A) (l1 l2 : list A) :
    subsequence l1 l2 -> subsequence (a :: l1) (a :: l2)
| subsequence_skip (a : A) (l1 l2 : list A) :
    subsequence l1 l2 -> subsequence l1 (a :: l2).

(** [a] and [b] are neighbours, in this order, in [l]. *)
Definition adjacent {A : Type} (a b : A) (l : list A) : Prop :=
  exists l1 l2, l = l1 ++ a :: b :: l2.

(* ================================================================== *)
(** ** Lengths of polylines *)

(** The length of the polyline from [prev] through the points of [rest]. *)
Fixpoint pathLength (prev : Point R) (rest : list (Point R)) : R :=
  match rest with
  | [] => 0%R
  | curr :: rest' => (dist prev curr + pathLength curr rest')%R
  end.

(* ================================================================== *)
(** ** Flattening SVG path commands ([services/vtracerService.ts]) *)

Section Flatten.

Context {num : Type} {N : JSNumber num}.
Local Open Scope num_scope.

(** A command of [makeAbsolute(parseSVG(d))], with the fields
    [flattenCommand] reads: [code] and, by code, [x], [y], [x1], [y1],
    [x2], [y2].  [cmd_other] stands for the codes the function has no
    branch for (arcs). *)
Inductive SvgCommand : Type :=
| cmd_M (cx cy : num)
| cmd_L (cx cy : num)
| cmd_H (cx : num)
| cmd_V (cy : num)
| cmd_C (x1 y1 x2 y2 cx cy : num)
| cmd_Q (x1 y1 cx cy : num)
| cmd_S (cx cy : num)
| cmd_T (cx cy : num)
| cmd_Z
| cmd_other.

(** [Math.pow(a, 3)] *)
Definition pow3 (a : num) : num := Math_pow a 3.

(** [for (let t = 0.2; t <= 1.0; t += 0.2) points.push(point(t))] *)
Fixpoint bezierLoop (fuel : nat) (point : num -> Point num) (t : num)
    (points : list (Point num)) : outcome (list (Point num)) :=
  if t <=? num_lit 1.0 then
    match fuel with
    | O => OutOfFuel
    | S fuel' => bezierLoop fuel' point (t + num_lit 0.2) (points ++ [point t])
    end
  else Returned points.

Definition cubicAt (currentX currentY x1 y1 x2 y2 cx cy t : num) : Point num :=
  let one := num_ofZ 1 in
  let three := num_ofZ 3 in
  mkPoint
    (pow3 (one - t) * currentX + three * pow2 (one - t) * t * x1
     + three * (one - t) * pow2 t * x2 + pow3 t * cx)
    (pow3 (one - t) * currentY + three * pow2 (one - t) * t * y1
     + three * (one - t) * pow2 t * y2 + pow3 t * cy).

Definition quadraticAt (currentX currentY x1 y1 cx cy t : num) : Point num :=
  let one := num_ofZ 1 in
  let two := num_ofZ 2 in
  mkPoint
    (pow2 (one - t) * currentX + two * (one - t) * t * x1 + pow2 t * cx)
    (pow2 (one - t) * currentY + two * (one - t) * t * y1 + pow2 t * cy).

Definition flattenCommand (fuel : nat) (cmd : SvgCommand) (currentX currentY : num)
  : outcome (list (Point num)) :=
  match cmd with
  | cmd_M cx cy | cmd_L cx cy => Returned [mkPoint cx cy]
  | cmd_H cx => Returned [mkPoint cx currentY]
  | cmd_V cy => Returned [mkPoint currentX cy]
  | cmd_C x1 y1 x2 y2 cx cy =>
      bezierLoop fuel (cubicAt currentX currentY x1 y1 x2 y2 cx cy) (num_lit 0.2) []
  | cmd_Q x1 y1 cx cy =>
      bezierLoop fuel (quadraticAt currentX currentY x1 y1 cx cy) (num_lit 0.2) []
  | cmd_S cx cy | cmd_T cx cy => Returned [mkPoint cx cy]
  | cmd_Z | cmd_other => Returned []
  end.

(** The end point a command names; [Z] and the codes without a branch
    name none. *)
Definition commandEnd (cmd : SvgCommand) (currentX currentY : num) : option (Point num) :=
  match cmd with
  | cmd_M cx cy | cmd_L cx cy | cmd_S cx cy | cmd_T cx cy => Some (mkPoint cx cy)
  | cmd_C _ _ _ _ cx cy | cmd_Q _ _ cx cy => Some (mkPoint cx cy)
  | cmd_H cx => Some (mkPoint cx currentY)
  | cmd_V cy => Some (mkPoint currentX cy)
  | cmd_Z | cmd_other => None
  end.

End Flatten.

Arguments SvgCommand num : clear implicits.

(* ================================================================== *)
(** ** Colours *)

(** [ToInt32] of an integer. *)
Definition toInt32 (z : Z) : Z := ((z + 2 ^ 31) mod 2 ^ 32 - 2 ^ 31)%Z.

(** [a << k] for [0 <= k < 32]. *)
Definition shiftLeft32 (a k : Z) : Z := toInt32 (toInt32 a * 2 ^ k).

Definition hexDigit (d : Z) : ascii :=
  if (d <? 10)%Z then ascii_of_nat (48 + Z.to_nat d) else ascii_of_nat (87 + Z.to_nat d).

Fixpoint hexDigitsOf (rounds : nat) (n : Z) (acc : string) : string :=
  let acc := String (hexDigit (n mod 16)) acc in
  match rounds with
  | O => acc
  | S rounds' => if (n <? 16)%Z then acc else hexDigitsOf rounds' (n / 16)%Z acc
  end.

(** [n.toString(16)] for an integer [n]. *)
Definition toString16 (n : Z) : string :=
  if (n <? 0)%Z then String "-"%char (hexDigitsOf (Z.to_nat (Z.log2 (- n))) (- n)%Z EmptyString)
  else hexDigitsOf (Z.to_nat (Z.log2 n)) n EmptyString.

(** [s.slice(1)] *)
Definition slice1 (s : string) : string :=
  match s with
  | EmptyString => EmptyString
  | String _ s' => s'
  end.

(** [rgbToHex] on integers. *)
Definition rgbToHex (r g b : Z) : string :=
  String "#"%char
    (slice1 (toString16 (shiftLeft32 1 24 + shiftLeft32 r 16 + shiftLeft32 g 8 + b)%Z)).

(** The value of a character of the class [[a-f\d]] under the flag [i]. *)
Definition hexValue (c : ascii) : option Z :=
  let n := Z.of_nat (nat_of_ascii c) in
  if (48 <=? n)%Z && (n <=? 57)%Z then Some (n - 48)%Z
  else if (97 <=? n)%Z && (n <=? 102)%Z then Some (n - 87)%Z
  else if (65 <=? n)%Z && (n <=? 70)%Z then Some (n - 55)%Z
  else None.

(** [/^#?([a-f\d]{2})([a-f\d]{2})([a-f\d]{2})$/i.exec(hex)] with
    [parseInt(_, 16)] of the three groups. *)
Definition matchHexColor (hex : string) : option (Z * Z * Z) :=
  let body :=
    match hex with
    | String "#"%char rest => rest
    | _ => hex
    end in
  match list_ascii_of_string body with
  | [c1; c2; c3; c4; c5; c6] =>
      match hexValue c1, hexValue c2, hexValue c3, hexValue c4, hexValue c5, hexValue c6 with
      | Some v1, Some v2, Some v3, Some v4, Some v5, Some v6 =>
          Some (16 * v1 + v2, 16 * v3 + v4, 16 * v5 + v6)%Z
      | _, _, _, _, _, _ => None
      end
  | _ => None
  end.

Section Luminance.

Context {num : Type} {N : JSNumber num}.
Local Open Scope num_scope.

Definition getLuminance (hex : string) : num :=
  match matchHexColor hex with
  | None => zero
  | Some (r, g, b) =>
      num_lit 0.299 * num_ofZ r + num_lit 0.587 * num_ofZ g + num_lit 0.114 * num_ofZ b
  end.

End Luminance.

(* ================================================================== *)
(** ** Morphological opening of a bitmap *)

(** [grid[i]] of an [Int8Array]: a read outside the array gives
    [undefined], which is neither [1] nor truthy, like [0]. *)
Definition cell (grid : list Z) (i : Z) : Z :=
  if (i <? 0)%Z then 0%Z else nth (Z.to_nat i) grid 0%Z.

(** [grid[i] = v]; a store outside the array is dropped. *)
Definition store (i v : Z) (grid : list Z) : list Z :=
  if (i <? 0)%Z then grid else setByte (Z.to_nat i) v grid.

(** [current[idx] === 1 && current[idx - 1] && current[idx + 1]
     && current[idx - w] && current[idx + w]] *)
Definition keepsCell (w : Z) (current : list Z) (idx : Z) : bool :=
  (cell current idx =? 1)%Z
  && negb (cell current (idx - 1) =? 0)%Z && negb (cell current (idx + 1) =? 0)%Z
  && negb (cell current (idx - w) =? 0)%Z && negb (cell current (idx + w) =? 0)%Z.

(** The body of the erosion loop at [idx]. *)
Definition erodeCell (w : Z) (current temp : list Z) (idx : Z) : list Z :=
  if keepsCell w current idx then store idx 1 temp else temp.

(** The body of the dilation loop at [idx]. *)
Definition dilateCell (w : Z) (current temp : list Z) (idx : Z) : list Z :=
  if (cell current idx =? 1)%Z then
    store (idx + w) 1 (store (idx - w) 1 (store (idx + 1) 1 (store (idx - 1) 1
      (store idx 1 temp))))
  else temp.

(** One pass: [temp = new Int8Array(grid.length)] and the two loops
    [for (y = 1; y < h - 1; y++) for (x = 1; x < w - 1; x++)] with
    [idx = y * w + x]. *)
Definition morphologyPass (body : list Z -> list Z -> Z -> list Z) (w h : Z) (len : nat)
    (current : list Z) : list Z :=
  fold_left
    (fun temp y =>
       fold_left (fun temp x => body current temp (y * w + x)%Z) (range 1 (w - 2)) temp)
    (range 1 (h - 2)) (repeat 0%Z len).

(** [morphologyOpen]: [passes] erosions, then [passes] dilations. *)
Definition morphologyOpen (grid : list Z) (w h : Z) (passes : nat) : list Z :=
  let len := length grid in
  let current := Nat.iter passes (morphologyPass (erodeCell w) w h len) grid in
  Nat.iter passes (morphologyPass (dilateCell w) w h len) current.

(** The indices the two loops of a pass visit, in order. *)
Definition interiorCells (w h : Z) : list Z :=
  flat_map (fun y => map (fun x => (y * w + x)%Z) (range 1 (w - 2))) (range 1 (h - 2)).

(** [j] is [idx] or one of its four neighbours. *)
Definition inCross (w idx j : Z) : bool :=
  (j =? idx)%Z || (j =? idx - 1)%Z || (j =? idx + 1)%Z || (j =? idx - w)%Z || (j =? idx + w)%Z.

(* ================================================================== *)
(** ** The scan of the sequencer *)

(** A running best of the double loop of [optimizePathSequence] names a
    vertex of a remaining path other than its last one. *)
Definition namesVertex {num : Type} (remaining : list (list (Point num))) (best : Best num)
  : Prop :=
  match best with
  | None => True
  | Some (i, v, _) => exists p, nth_error remaining i = Some p /\ (S v < length p)%nat
  end.

(* ================================================================== *)
(** ** Loop budgets *)

(** A call settles: from some loop budget on it gives one and the same
    outcome, a return or a throw. *)
Definition settles {A : Type} (call : nat -> outcome A) : Prop :=
  exists (fuel0 : nat) (o : outcome A),
    o <> OutOfFuel /\ forall fuel, (fuel0 <= fuel)%nat -> call fuel = o.

(* ================================================================== *)
(** ** Tags of the records *)

Section Tags.

Context {num : Type} {N : JSNumber num}.

(** A record made for layer [i] of colour [hex]: it carries both, and it
    is a [stitch] or is flagged as structure. *)
Definition tagged (i : nat) (hex : string) (s : Stitch num) : Prop :=
  colorIndex s = Some i /\ hexColor s = Some hex
  /\ (type s = stitch \/ isStructure s = Some true).

(** An element of the returned array that is a record carries the index
    and the colour of a layer of the design, and is a [stitch], the [end],
    or flagged as structure. *)
Definition taggedItem (layers : list (VectorLayer num)) (it : Item num) : Prop :=
  match it with
  | record s =>
      exists i layer,
        nth_error layers i = Some layer
        /\ colorIndex s = Some i /\ hexColor s = Some (color layer)
        /\ (type s = stitch \/ type s = end_ \/ isStructure s = Some true)
  | _ => True
  end.

End Tags.

(* ================================================================== *)
(** ** Counters on binary64 *)

(** A float that is not negative and not NaN: a zero, a positive number or
    [Infinity]. *)
Definition countingUp (s : spec_float) : Prop :=
  match s with
  | S754_zero false | S754_finite false _ _ | S754_infinity false => True
  | _ => False
  end.

(* ================================================================== *)
(** * Properties *)

Unset Implicit Arguments.

(** ** The encoders *)

Section EncoderFacts.

Context {num : Type} {N : JSNumber num}.

Lemma encodeTajimaStitch_length (dx dy : Z) (t : TajimaType) :
  length (encodeTajimaStitch dx dy t) = 3%nat.
Proof.
  unfold encodeTajimaStitch. cbv zeta.
  match goal with |- context [fst ?s] => destruct (fst s) as [[b0 b1] b2] end.
  reflexivity.
Qed.

(** *** Typed-array stores and header fields *)

Lemma setByte_length (i : nat) (v : Z) (h : list Z) :
  length (setByte i v h) = length h.
Proof.
  revert i; induction h as [|b h IH]; intros [|i]; simpl; auto.
Qed.

Lemma nth_setByte (i : nat) (v : Z) (h : list Z) (j : nat) (d : Z) :
  nth j (setByte i v h) d =
  if (i =? j)%nat && (i <? length h)%nat then v else nth j h d.
Proof.
  revert i j; induction h as [|b h IH]; intros [|i] [|j]; simpl; auto;
    try (rewrite andb_false_r; reflexivity).
Qed.

Lemma writeCodes_length (cs : list Z) (off : nat) (h : list Z) :
  length (writeCodes cs off h) = length h.
Proof.
  revert off h; induction cs as [|c cs IH]; intros off h; simpl; auto.
  rewrite IH. apply setByte_length.
Qed.

Lemma nth_writeCodes (cs : list Z) (off : nat) (h : list Z) (j : nat) (d : Z) :
  nth j (writeCodes cs off h) d =
  if (off <=? j)%nat && (j <? off + length cs)%nat && (j <? length h)%nat
  then nth (j - off) cs d else nth j h d.
Proof.
  revert off h; induction cs as [|c cs IH]; intros off h; simpl.
  - replace (off + 0)%nat with off by lia.
    destruct (off <=? j)%nat eqn:E1, (j <? off)%nat eqn:E2; simpl; auto.
    apply Nat.leb_le in E1. apply Nat.ltb_lt in E2. lia.
  - rewrite IH, setByte_length, nth_setByte.
    destruct (S off <=? j)%nat eqn:E1, (j <? S off + length cs)%nat eqn:E2,
             (j <? length h)%nat eqn:E3, (off <=? j)%nat eqn:E4,
             (j <? off + S (length cs))%nat eqn:E5, (off =? j)%nat eqn:E6,
             (off <? length h)%nat eqn:E7; simpl;
      repeat match goal with
             | H : (_ <=? _)%nat = true |- _ => apply Nat.leb_le in H
             | H : (_ <=? _)%nat = false |- _ => apply Nat.leb_gt in H
             | H : (_ <? _)%nat = true |- _ => apply Nat.ltb_lt in H
             | H : (_ <? _)%nat = false |- _ => apply Nat.ltb_ge in H
             | H : (_ =? _)%nat = true |- _ => apply Nat.eqb_eq in H
             | H : (_ =? _)%nat = false |- _ => apply Nat.eqb_neq in H
             end; try lia; auto.
    + destruct (j - off)%nat as [|k] eqn:E; [lia|]. f_equal. lia.
    + subst j. replace (off - off)%nat with 0%nat by lia. reflexivity.
Qed.

Lemma field_length (off len : nat) (file : list Z) :
  (off + len <= length file)%nat -> length (field off len file) = len.
Proof.
  intros H. unfold field. rewrite length_firstn, length_skipn. lia.
Qed.

Lemma nth_field (off len : nat) (file : list Z) (j : nat) (d : Z) :
  (j < len)%nat -> nth j (field off len file) d = nth (off + j) file d.
Proof.
  intros H. unfold field. rewrite nth_firstn, nth_skipn.
  destruct (j <? len)%nat eqn:E; auto. apply Nat.ltb_ge in E. lia.
Qed.

Lemma field_writeCodes_same (cs : list Z) (off : nat) (h : list Z) :
  (off + length cs <= length h)%nat ->
  field off (length cs) (writeCodes cs off h) = cs.
Proof.
  intros H. apply nth_ext with (d := 0%Z) (d' := 0%Z).
  - apply field_length. rewrite writeCodes_length. exact H.
  - intros j Hj. rewrite field_length in Hj by (rewrite writeCodes_length; exact H).
    rewrite nth_field by exact Hj. rewrite nth_writeCodes.
    replace ((off <=? off + j)%nat) with true by (symmetry; apply Nat.leb_le; lia).
    replace ((off + j <? off + length cs)%nat) with true by (symmetry; apply Nat.ltb_lt; lia).
    replace ((off + j <? length h)%nat) with true by (symmetry; apply Nat.ltb_lt; lia).
    simpl. f_equal. lia.
Qed.

Lemma field_writeCodes_below (cs : list Z) (off : nat) (h : list Z) (off' len : nat) :
  (off' + len <= off)%nat ->
  field off' len (writeCodes cs off h) = field off' len h.
Proof.
  intros H. unfold field.
  apply nth_ext with (d := 0%Z) (d' := 0%Z).
  - rewrite !length_firstn, !length_skipn, writeCodes_length. reflexivity.
  - intros j Hj. rewrite length_firstn in Hj.
    rewrite !nth_firstn, !nth_skipn, nth_writeCodes.
    destruct (j <? len)%nat eqn:E; auto. apply Nat.ltb_lt in E.
    replace ((off <=? off' + j)%nat) with false by (symmetry; apply Nat.leb_gt; lia).
    reflexivity.
Qed.

Lemma field_app_header (off len : nat) (h body : list Z) :
  (off + len <= length h)%nat -> field off len (h ++ body) = field off len h.
Proof.
  intros H. unfold field.
  rewrite skipn_app, firstn_app, length_skipn.
  replace (len - (length h - off))%nat with 0%nat by lia.
  replace (off - length h)%nat with 0%nat by lia.
  simpl. apply app_nil_r.
Qed.

(** *** Decimal strings *)

Lemma length_append (s1 s2 : string) :
  String.length (s1 ++ s2) = (String.length s1 + String.length s2)%nat.
Proof. induction s1 as [|c s1 IH]; simpl; auto. Qed.

Lemma length_repeatChar (c : ascii) (n : nat) : String.length (repeatChar c n) = n.
Proof. induction n; simpl; auto. Qed.

Lemma length_charCodes (s : string) : length (charCodes s) = String.length s.
Proof.
  unfold charCodes. rewrite length_map.
  induction s as [|c s IH]; simpl; auto.
Qed.

Lemma digitsOf_length (rounds : nat) :
  forall (k : nat) (n : Z) (acc : string),
    (0 <= n < 10 ^ Z.of_nat (S k))%Z ->
    (String.length (digitsOf rounds n acc) <= S k + String.length acc)%nat.
Proof.
  induction rounds as [|rounds IH]; intros k n acc Hn; simpl.
  - lia.
  - destruct (n <? 10)%Z eqn:E; simpl; [lia|].
    apply Z.ltb_ge in E.
    destruct k as [|k].
    + change (10 ^ Z.of_nat 1)%Z with 10%Z in Hn. lia.
    + specialize (IH k (n / 10)%Z (String (digitChar (n mod 10)) acc)).
      simpl String.length in IH.
      assert (0 <= n / 10 < 10 ^ Z.of_nat (S k))%Z.
      { split; [apply Z.div_pos; lia|].
        apply Z.div_lt_upper_bound; [lia|].
        replace (Z.of_nat (S (S k))) with (Z.succ (Z.of_nat (S k))) in Hn by lia.
        rewrite Z.pow_succ_r in Hn by lia. lia. }
      specialize (IH H). lia.
Qed.

Lemma toString_length (n : Z) (k : nat) :
  (0 <= n < 10 ^ Z.of_nat (S k))%Z -> (String.length (toString n) <= S k)%nat.
Proof.
  intros H. unfold toString.
  destruct (n <? 0)%Z eqn:E; [apply Z.ltb_lt in E; lia|].
  pose proof (digitsOf_length (Z.to_nat (Z.log2 n)) k n EmptyString H) as L.
  simpl in L. lia.
Qed.

(** *** The loop of [createDstFile] counts its records *)

Lemma dstSplit_counted (rounds : nat) :
  forall (dx dy : Z) (st : DstState),
    d_stitchCount st = Z.of_nat (length (d_bodyParts st)) ->
    Forall (fun r => length r = 3%nat) (d_bodyParts st) ->
    let st' := snd (dstSplit rounds dx dy st) in
    d_stitchCount st' = Z.of_nat (length (d_bodyParts st'))
    /\ Forall (fun r => length r = 3%nat) (d_bodyParts st').
Proof.
  induction rounds as [|rounds IH]; intros dx dy st Hc Hl; simpl.
  - destruct (_ || _); simpl; auto.
  - destruct (_ || _); simpl; auto.
    apply IH; simpl.
    + rewrite length_app. simpl. lia.
    + apply Forall_app. split; auto.
      constructor; auto. apply encodeTajimaStitch_length.
Qed.

Lemma dstStep_counted (st : DstState) (s : Stitch num) :
  d_stitchCount st = Z.of_nat (length (d_bodyParts st)) ->
  Forall (fun r => length r = 3%nat) (d_bodyParts st) ->
  d_stitchCount (dstStep st s) = Z.of_nat (length (d_bodyParts (dstStep st s)))
  /\ Forall (fun r => length r = 3%nat) (d_bodyParts (dstStep st s)).
Proof.
  intros Hc Hl. unfold dstStep.
  destruct (type s) eqn:T; auto;
    match goal with
    | |- context [dstSplit ?r ?dx ?dy ?st0] =>
        pose proof (dstSplit_counted r dx dy st0 Hc Hl) as [Hc' Hl'];
        destruct (dstSplit r dx dy st0) as [[dx' dy'] st']
    end; simpl in *;
    (split; [rewrite length_app; simpl; lia
            |apply Forall_app; split; auto; constructor; auto;
             apply encodeTajimaStitch_length]).
Qed.

Lemma dstLoop_counted (stitches : list (Stitch num)) :
  d_stitchCount (dstLoop stitches) = Z.of_nat (length (d_bodyParts (dstLoop stitches)))
  /\ Forall (fun r => length r = 3%nat) (d_bodyParts (dstLoop stitches)).
Proof.
  unfold dstLoop.
  assert (G : forall l st,
             d_stitchCount st = Z.of_nat (length (d_bodyParts st)) ->
             Forall (fun r => length r = 3%nat) (d_bodyParts st) ->
             d_stitchCount (fold_left dstStep l st)
             = Z.of_nat (length (d_bodyParts (fold_left dstStep l st)))
             /\ Forall (fun r => length r = 3%nat) (d_bodyParts (fold_left dstStep l st))).
  { induction l as [|s l IH]; intros st Hc Hl; simpl; auto.
    destruct (dstStep_counted st s Hc Hl). apply IH; auto. }
  apply G; simpl; auto.
Qed.

Lemma length_concat_records (rs : list (list Z)) :
  Forall (fun r => length r = 3%nat) rs -> length (concat rs) = (3 * length rs)%nat.
Proof.
  induction 1 as [|r rs Hr _ IH]; simpl; auto.
  rewrite length_app, IH, Hr. lia.
Qed.

Lemma dstHeader_length (stitches : list (Stitch num)) : length (dstHeader stitches) = 512%nat.
Proof.
  unfold dstHeader, writeString. cbv zeta.
  repeat rewrite writeCodes_length. apply repeat_length.
Qed.

(** The number of 3-byte records after the header of a DST file. *)
Lemma dst_record_count (stitches : list (Stitch num)) (w h : num) :
  ((length (createDstFile stitches w h) - 512) / 3)%nat
  = S (length (d_bodyParts (dstLoop stitches))).
Proof.
  unfold createDstFile, dstBodyParts.
  rewrite length_app, dstHeader_length.
  destruct (dstLoop_counted stitches) as [_ Hl].
  rewrite length_concat_records.
  - rewrite length_app.
    set (n := length (d_bodyParts (dstLoop stitches))).
    change (length [encodeTajimaStitch 0 0 t_end]) with 1%nat.
    replace (512 + 3 * (n + 1) - 512)%nat with ((n + 1) * 3)%nat by lia.
    rewrite Nat.div_mul by lia. lia.
  - apply Forall_app. split; auto.
Qed.

(** C4.  The ST field of the header (the ten bytes from offset 23) spells
    the number of 3-byte body records minus one, the end-of-file record not
    being counted, as seven zero-padded digits. *)
Theorem dst_header_counts_body_records (stitches : list (Stitch num)) (w h : num) :
  let file := createDstFile stitches w h in
  let records := Z.of_nat ((length file - 512) / 3) in
  (records - 1 < 10 ^ 7)%Z ->
  field 23 10 file
  = charCodes ("ST:" ++ padStart (toString (records - 1)) 7 "0").
Proof.
  intros file records Hlt. subst file records.
  rewrite dst_record_count in *.
  destruct (dstLoop_counted stitches) as [Hc _].
  replace (Z.of_nat (S (length (d_bodyParts (dstLoop stitches)))) - 1)%Z
    with (d_stitchCount (dstLoop stitches)) in * by lia.
  set (count := d_stitchCount (dstLoop stitches)) in *.
  assert (Hlen : length (charCodes ("ST:" ++ padStart (toString count) 7 "0")) = 10%nat).
  { rewrite length_charCodes, length_append. unfold padStart.
    rewrite length_append, length_repeatChar.
    assert (String.length (toString count) <= 7)%nat.
    { apply (toString_length count 6). split; [lia|exact Hlt]. }
    change (String.length "ST:") with 3%nat. lia. }
  unfold createDstFile.
  rewrite field_app_header by (rewrite dstHeader_length; lia).
  unfold dstHeader, writeString. cbv zeta. fold count.
  repeat (rewrite field_writeCodes_below by lia).
  match goal with
  | |- field 23 10 (writeCodes ?cs 23 ?h0) = _ =>
      pose proof (field_writeCodes_same cs 23 h0) as E
  end.
  rewrite Hlen in E. apply E.
  rewrite writeCodes_length, repeat_length. lia.
Qed.


(** *** The splitting loops run to their exit *)

Lemma clampStep_cases (m d : Z) :
  (0 < m)%Z ->
  (m < d /\ clampStep m d = m)%Z
  \/ (d < - m /\ clampStep m d = - m)%Z
  \/ (- m <= d <= m /\ clampStep m d = d)%Z.
Proof.
  intros Hm. unfold clampStep.
  destruct (d >? m)%Z eqn:E1.
  - left. apply Z.gtb_lt in E1. lia.
  - rewrite Z.gtb_ltb in E1. apply Z.ltb_ge in E1.
    destruct (d <? - m)%Z eqn:E2.
    + right; left. apply Z.ltb_lt in E2. lia.
    + right; right. apply Z.ltb_ge in E2. lia.
Qed.

Lemma dstSplit_exits (rounds : nat) :
  forall (dx dy : Z) (st : DstState),
    (Z.max (Z.abs dx) (Z.abs dy) <= Z.of_nat rounds)%Z ->
    let '(dx', dy', _) := dstSplit rounds dx dy st in
    (Z.abs dx' <= 121 /\ Z.abs dy' <= 121)%Z.
Proof.
  induction rounds as [|rounds IH]; intros dx dy st Hr; simpl.
  - destruct (_ || _) eqn:E; [|apply orb_false_iff in E; destruct E as [E1 E2];
      rewrite Z.gtb_ltb in E1, E2; apply Z.ltb_ge in E1, E2;
      unfold MAX_STEP_DST in *; lia].
    lia.
  - destruct (_ || _) eqn:E; [|apply orb_false_iff in E; destruct E as [E1 E2];
      rewrite Z.gtb_ltb in E1, E2; apply Z.ltb_ge in E1, E2;
      unfold MAX_STEP_DST in *; lia].
    apply IH.
    apply orb_true_iff in E. rewrite !Z.gtb_ltb, !Z.ltb_lt in E.
    unfold MAX_STEP_DST in *.
    destruct (clampStep_cases 121 dx) as [[? ->]|[[? ->]|[? ->]]]; [lia|..];
      destruct (clampStep_cases 121 dy) as [[? ->]|[[? ->]|[? ->]]]; lia.
Qed.

Lemma expMove_exits (rounds : nat) :
  forall (isJump : bool) (dx dy : Z) (st : ExpState),
    (Z.abs dx + Z.abs dy <= Z.of_nat rounds)%Z ->
    let '(dx', dy', _) := expMove rounds isJump dx dy st in
    dx' = 0%Z /\ dy' = 0%Z.
Proof.
  induction rounds as [|rounds IH]; intros isJump dx dy st Hr; simpl.
  - destruct (_ || _) eqn:E; [lia|].
    apply orb_false_iff in E. destruct E as [E1 E2].
    apply negb_false_iff in E1, E2. apply Z.eqb_eq in E1, E2. auto.
  - destruct (_ || _) eqn:E.
    + apply IH.
      apply orb_true_iff in E. rewrite !negb_true_iff, !Z.eqb_neq in E.
      unfold MAX_STEP_EXP in *.
      destruct (clampStep_cases 120 dx) as [[? ->]|[[? ->]|[? ->]]]; [lia|..];
        destruct (clampStep_cases 120 dy) as [[? ->]|[[? ->]|[? ->]]]; lia.
    + apply orb_false_iff in E. destruct E as [E1 E2].
      apply negb_false_iff in E1, E2. apply Z.eqb_eq in E1, E2. auto.
Qed.

(** *** Zero steps *)

Lemma expMove_zero (rounds : nat) (isJump : bool) (st : ExpState) :
  expMove rounds isJump 0 0 st = (0%Z, 0%Z, st).
Proof. destruct rounds; reflexivity. Qed.

Lemma dstSplit_small (rounds : nat) (dx dy : Z) (st : DstState) :
  (Z.abs dx <= 121)%Z -> (Z.abs dy <= 121)%Z ->
  dstSplit rounds dx dy st = (dx, dy, st).
Proof.
  intros Hx Hy.
  assert (E : (Z.abs dx >? MAX_STEP_DST)%Z || (Z.abs dy >? MAX_STEP_DST)%Z = false).
  { unfold MAX_STEP_DST. apply orb_false_iff.
    split; rewrite Z.gtb_ltb; apply Z.ltb_ge; assumption. }
  destruct rounds; simpl; rewrite E; reflexivity.
Qed.

Lemma expLoop_app (pre post : list (Stitch num)) :
  expLoop (pre ++ post) = fold_left expStep post (expLoop pre).
Proof. unfold expLoop. apply fold_left_app. Qed.

Lemma dstLoop_app (pre post : list (Stitch num)) :
  dstLoop (pre ++ post) = fold_left dstStep post (dstLoop pre).
Proof. unfold dstLoop. apply fold_left_app. Qed.

(** C10.  A [stitch] record whose rounded position is the EXP encoder's
    current position writes no byte and leaves the encoder where it is, so
    the byte stream is that of the list without the record; the DST encoder
    at the same spot appends one all-zero record and counts it. *)
Theorem exp_drops_zero_delta_stitch (pre post : list (Stitch num)) (s : Stitch num) :
  type s = stitch ->
  (tenths (x s) = e_currentX (expLoop pre) ->
   tenths (y s) = e_currentY (expLoop pre) ->
   expStep (expLoop pre) s = expLoop pre
   /\ e_written (expLoop (pre ++ s :: post)) = e_written (expLoop (pre ++ post))
   /\ createExpFile (pre ++ s :: post)
      = firstn (length (pre ++ s :: post) * 8 + 1024) (e_written (expLoop (pre ++ post))))
  /\ (tenths (x s) = d_currentX (dstLoop pre) ->
      tenths (y s) = d_currentY (dstLoop pre) ->
      d_bodyParts (dstLoop (pre ++ [s])) = d_bodyParts (dstLoop pre) ++ [[0; 0; 0]%Z]
      /\ d_stitchCount (dstLoop (pre ++ [s])) = (d_stitchCount (dstLoop pre) + 1)%Z).
Proof.
  intros T. split.
  - intros Hx Hy.
    assert (E : expStep (expLoop pre) s = expLoop pre).
    { unfold expStep. rewrite T, Hx, Hy, !Z.sub_diag. simpl.
      destruct (expLoop pre); reflexivity. }
    assert (E' : expLoop (pre ++ s :: post) = expLoop (pre ++ post)).
    { rewrite !expLoop_app. simpl. rewrite E. reflexivity. }
    split; [exact E|]. split; [rewrite E'; reflexivity|].
    unfold createExpFile. rewrite E'. reflexivity.
  - intros Hx Hy. rewrite dstLoop_app. simpl.
    unfold dstStep. rewrite T, Hx, Hy, !Z.sub_diag. simpl. auto.
Qed.

End EncoderFacts.

Lemma exp_drops_zero_delta_stitch_witness :
  createExpFile Scenario.lockStitch = [10; 0]%Z
  /\ skipn 512 (createDstFile Scenario.lockStitch (num_lit 100) (num_lit 100))
     = [160; 0; 0; 0; 0; 0; 0; 0; 192]%Z.
Proof.
  pose proof (exp_drops_zero_delta_stitch [Scenario.st 1.0 0 stitch] []
                (Scenario.st 1.0 0 stitch) eq_refl) as [He Hd].
  destruct (He eq_refl eq_refl) as [_ [_ He3]].
  destruct (Hd eq_refl eq_refl) as [Hd1 _].
  split.
  - change Scenario.lockStitch
      with ([Scenario.st 1.0 0 stitch] ++ Scenario.st 1.0 0 stitch :: []).
    rewrite He3. vm_compute. reflexivity.
  - unfold createDstFile, dstBodyParts.
    change Scenario.lockStitch
      with ([Scenario.st 1.0 0 stitch] ++ [Scenario.st 1.0 0 stitch]).
    rewrite Hd1. vm_compute. reflexivity.
Defined.

(** C5.  The header of scenario S4: the extents are as listed, and the ST
    field counts the two records before the end-of-file record. *)
Theorem dst_bounds_header :
  let file := createDstFile Scenario.boundsList (num_lit 100) (num_lit 100) in
  field 54 8 file = charCodes "+X:00050"
  /\ field 69 8 file = charCodes "-X:00000"
  /\ field 84 8 file = charCodes "+Y:00000"
  /\ field 99 8 file = charCodes "-Y:00032"
  /\ field 23 10 file = charCodes "ST:0000002".
Proof. vm_compute. repeat split. Qed.

(** C5, as stated: the ST field does not read 0000003. *)
Lemma dst_bounds_header_not_three :
  field 23 10 (createDstFile Scenario.boundsList (num_lit 100) (num_lit 100))
  = charCodes "ST:0000002"
  /\ charCodes "ST:0000002" <> charCodes "ST:0000003".
Proof. split; [vm_compute; reflexivity | vm_compute; discriminate]. Qed.

(** C1.  [encodeTajimaStitch] takes the weights in the order 1, 9, 3, 27,
    81 and each at most once: for the step [(0, 2)] it sets the +1 bit only,
    and the record reads back as [(0, 1)].  A stitch 0.2 mm above the origin
    is therefore decoded 0.1 mm above it. *)
Theorem encodeTajimaStitch_loses_residual :
  encodeTajimaStitch 0 2 t_stitch = [1; 0; 0]%Z
  /\ decodeTajima (encodeTajimaStitch 0 2 t_stitch) = (0, 1)%Z
  /\ map (fun s : Stitch float => (tenths (x s), tenths (y s))) Scenario.smallStep = [(0, 2)%Z]
  /\ decodeDstBody (0, 0)%Z (dstBodyParts Scenario.smallStep) = [(0, 1); (0, 1)]%Z.
Proof. vm_compute. repeat split. Qed.


Lemma dst_header_counts_body_records_witness :
  field 23 10 (createDstFile Scenario.boundsList (num_lit 100) (num_lit 100))
  = charCodes "ST:0000002".
Proof.
  rewrite (dst_header_counts_body_records Scenario.boundsList (num_lit 100) (num_lit 100))
    by (vm_compute; reflexivity).
  vm_compute. reflexivity.
Defined.

(** Of the 243 steps [(0, dy)] with [|dy| <= 121], the thirteen steps 0,
    1, 4, 10, 13, 40, 121 and their opposites are the ones that read back
    as encoded. *)
Lemma encodeTajimaStitch_exact_steps :
  filter (fun dy => (snd (decodeTajima (encodeTajimaStitch 0 dy t_stitch)) =? dy)%Z)
         (range (-121) 121)
  = [-121; -40; -13; -10; -4; -1; 0; 1; 4; 10; 13; 40; 121]%Z.
Proof. vm_compute. reflexivity. Qed.

(** [toString] on a few integers. *)
Lemma toString_examples :
  map toString [0; 7; 10; 1234567; 99999999; -42]%Z
  = ["0"; "7"; "10"; "1234567"; "99999999"; "-42"]%string.
Proof. vm_compute. reflexivity. Qed.

(* ================================================================== *)
(** ** Reading an EXP body back *)

Lemma signed8_byte (s : Z) :
  (-128 <= s < 128)%Z -> signed8 (Z.land s 255) = s.
Proof.
  intros H. change 255%Z with (Z.ones 8). rewrite Z.land_ones by lia.
  unfold signed8. change (2 ^ 8)%Z with 256%Z.
  destruct (s mod 256 <? 128)%Z eqn:E;
    [apply Z.ltb_lt in E | apply Z.ltb_ge in E];
    Z.div_mod_to_equations; lia.
Qed.

Lemma byte_not_marker (s : Z) :
  (-120 <= s <= 120)%Z -> (Z.land s 255 =? 128)%Z = false.
Proof.
  intros H. apply Z.eqb_neq. change 255%Z with (Z.ones 8).
  rewrite Z.land_ones by lia. change (2 ^ 8)%Z with 256%Z.
  Z.div_mod_to_equations. lia.
Qed.

Lemma decodeExp_nil (n : nat) (cur : Z * Z) : decodeExp n cur [] = cur.
Proof. destruct n; reflexivity. Qed.

Lemma expReads_nil : expReads [] (0, 0)%Z.
Proof. exists 0%nat. split; [apply Nat.le_refl | intros n rest; reflexivity]. Qed.

Lemma expReads_stitch (w : list Z) (cx cy sx sy : Z) :
  expReads w (cx, cy) ->
  (-120 <= sx <= 120)%Z -> (-120 <= sy <= 120)%Z ->
  expReads (w ++ [Z.land sx 255; Z.land sy 255]) (cx + sx, cy + sy)%Z.
Proof.
  intros [k [Hk Hw]] Hx Hy. exists (S k). split.
  - rewrite length_app. simpl. lia.
  - intros n rest. rewrite <- app_assoc.
    replace (S k + n)%nat with (k + S n)%nat by lia.
    rewrite Hw. simpl.
    rewrite (byte_not_marker sx Hx).
    rewrite !signed8_byte by lia. reflexivity.
Qed.

Lemma expReads_jump (w : list Z) (cx cy sx sy : Z) :
  expReads w (cx, cy) ->
  (-120 <= sx <= 120)%Z -> (-120 <= sy <= 120)%Z ->
  expReads (w ++ [128; 4; Z.land sx 255; Z.land sy 255]%Z) (cx + sx, cy + sy)%Z.
Proof.
  intros [k [Hk Hw]] Hx Hy. exists (S k). split.
  - rewrite length_app. simpl. lia.
  - intros n rest. rewrite <- app_assoc.
    replace (S k + n)%nat with (k + S n)%nat by lia.
    rewrite Hw. simpl.
    rewrite !signed8_byte by lia. reflexivity.
Qed.

Lemma expReads_stop (w : list Z) (cur : Z * Z) :
  expReads w cur -> expReads (w ++ [128; 1; 0; 0]%Z) cur.
Proof.
  intros [k [Hk Hw]]. exists (S k). split.
  - rewrite length_app. simpl. lia.
  - intros n rest. rewrite <- app_assoc.
    replace (S k + n)%nat with (k + S n)%nat by lia.
    rewrite Hw. reflexivity.
Qed.

Lemma expReads_trim (w : list Z) (cx cy : Z) :
  expReads w (cx, cy) ->
  expReads (w ++ [128; 4; 0; 0; 128; 4; 0; 0; 128; 4; 0; 0]%Z) (cx, cy).
Proof.
  intros H.
  assert (J : forall v, expReads v (cx, cy) -> expReads (v ++ [128; 4; 0; 0]%Z) (cx, cy)).
  { intros v Hv.
    pose proof (expReads_jump v cx cy 0 0 Hv ltac:(lia) ltac:(lia)) as E.
    rewrite !Z.add_0_r in E. exact E. }
  apply J in H. apply J in H. apply J in H.
  rewrite <- !app_assoc in H. exact H.
Qed.

Lemma clampStep_range (d : Z) :
  (-120 <= clampStep MAX_STEP_EXP d <= 120)%Z.
Proof.
  unfold MAX_STEP_EXP.
  destruct (clampStep_cases 120 d) as [[? ->]|[[? ->]|[? ->]]]; lia.
Qed.

Lemma expMove_reads (rounds : nat) :
  forall (isJump : bool) (dx dy : Z) (st : ExpState),
    expReads (e_written st) (e_currentX st, e_currentY st) ->
    let st' := snd (expMove rounds isJump dx dy st) in
    expReads (e_written st') (e_currentX st', e_currentY st').
Proof.
  induction rounds as [|rounds IH]; intros isJump dx dy st H; simpl.
  - destruct (_ || _); exact H.
  - destruct (_ || _); [|exact H].
    apply IH. simpl.
    pose proof (clampStep_range dx). pose proof (clampStep_range dy).
    destruct isJump; [apply expReads_jump | apply expReads_stitch]; assumption.
Qed.

Lemma expMove_position (rounds : nat) :
  forall (isJump : bool) (dx dy : Z) (st : ExpState),
    let '(dx', dy', st') := expMove rounds isJump dx dy st in
    (e_currentX st' + dx' = e_currentX st + dx
     /\ e_currentY st' + dy' = e_currentY st + dy)%Z.
Proof.
  induction rounds as [|rounds IH]; intros isJump dx dy st; simpl.
  - destruct (_ || _); split; reflexivity.
  - destruct (_ || _); [|split; reflexivity].
    match goal with |- context [expMove rounds isJump ?a ?b ?s] =>
      specialize (IH isJump a b s); destruct (expMove rounds isJump a b s) as [[dx' dy'] st']
    end.
    simpl in IH. lia.
Qed.

Section ExpRoundTrip.
Context {num : Type} {N : JSNumber num}.

Lemma expStep_reads (st : ExpState) (s : Stitch num) :
  expReads (e_written st) (e_currentX st, e_currentY st) ->
  expReads (e_written (expStep st s)) (e_currentX (expStep st s), e_currentY (expStep st s)).
Proof.
  intros H. unfold expStep.
  destruct (type s); simpl;
    try (apply (expMove_reads _ _ _ _ st H));
    try (apply expReads_stop; exact H).
  apply expReads_trim. exact H.
Qed.

Lemma expLoop_reads (stitches : list (Stitch num)) :
  expReads (e_written (expLoop stitches))
    (e_currentX (expLoop stitches), e_currentY (expLoop stitches)).
Proof.
  unfold expLoop.
  assert (G : forall st, expReads (e_written st) (e_currentX st, e_currentY st) ->
            expReads (e_written (fold_left expStep stitches st))
              (e_currentX (fold_left expStep stitches st),
               e_currentY (fold_left expStep stitches st))).
  { induction stitches as [|s rest IH]; intros st H; simpl; [exact H|].
    apply IH. apply expStep_reads. exact H. }
  apply G. exact expReads_nil.
Qed.

(** A stitch or jump record leaves the encoder at the rounded target. *)
Lemma expStep_reaches_target (st : ExpState) (s : Stitch num) :
  type s = stitch \/ type s = jump ->
  e_currentX (expStep st s) = tenths (x s)
  /\ e_currentY (expStep st s) = tenths (y s).
Proof.
  intros Hk. unfold expStep.
  set (dx := (tenths (x s) - e_currentX st)%Z).
  set (dy := (tenths (y s) - e_currentY st)%Z).
  assert (G : let st' := snd (expMove (Z.to_nat (Z.abs dx + Z.abs dy))
                                (StitchKind_eqb (type s) jump) dx dy st) in
              e_currentX st' = tenths (x s) /\ e_currentY st' = tenths (y s)).
  { pose proof (expMove_exits (Z.to_nat (Z.abs dx + Z.abs dy))
                  (StitchKind_eqb (type s) jump) dx dy st ltac:(lia)) as E.
    pose proof (expMove_position (Z.to_nat (Z.abs dx + Z.abs dy))
                  (StitchKind_eqb (type s) jump) dx dy st) as P.
    destruct (expMove _ _ dx dy st) as [[dx' dy'] st']. simpl.
    destruct E as [-> ->]. subst dx dy. lia. }
  cbv zeta in G. destruct Hk as [E|E]; rewrite E in G |- *; exact G.
Qed.

(** The bytes the EXP encoder writes read back to the encoder's own
    position: every step it emits is within -120..120 and is stored as
    its two's complement byte. *)
Lemma exp_body_reads_back (stitches : list (Stitch num)) :
  let st := expLoop stitches in
  decodeExp (length (e_written st)) (0, 0)%Z (e_written st)
  = (e_currentX st, e_currentY st).
Proof.
  cbv zeta. destruct (expLoop_reads stitches) as [k [Hk Hw]].
  specialize (Hw (length (e_written (expLoop stitches)) - k)%nat []).
  rewrite app_nil_r, decodeExp_nil in Hw.
  replace (k + (length (e_written (expLoop stitches)) - k))%nat
    with (length (e_written (expLoop stitches))) in Hw by lia.
  exact Hw.
Qed.

(** X1.  After a design that ends in a stitch or a jump, the EXP body reads
    back to that record's coordinates in tenths of a millimetre. *)
Lemma exp_round_trip (pre : list (Stitch num)) (s : Stitch num) :
  type s = stitch \/ type s = jump ->
  let st := expLoop (pre ++ [s]) in
  decodeExp (length (e_written st)) (0, 0)%Z (e_written st)
  = (tenths (x s), tenths (y s)).
Proof.
  intros Hk. cbv zeta. rewrite exp_body_reads_back.
  unfold expLoop. rewrite fold_left_app. simpl.
  destruct (expStep_reaches_target (fold_left expStep pre expInit) s Hk) as [-> ->].
  reflexivity.
Qed.

(** The file is the written stream whenever it fits the buffer. *)
Lemma createExpFile_fits (stitches : list (Stitch num)) :
  (length (e_written (expLoop stitches)) <= length stitches * 8 + 1024)%nat ->
  createExpFile stitches = e_written (expLoop stitches).
Proof. intros H. unfold createExpFile. apply firstn_all2. exact H. Qed.

End ExpRoundTrip.

(** ** The layer composer *)

Section ComposerFacts.

Context {num : Type} {N : JSNumber num}.

(** *** Outcomes *)

Lemma bind_Returned {A B : Type} (o : outcome A) (k : A -> outcome B) (b : B) :
  bind o k = Returned b -> exists a, o = Returned a /\ k a = Returned b.
Proof. destruct o; simpl; intros H; try discriminate. eauto. Qed.

Lemma lastOf_app {A : Type} (xs : list A) (a : A) : lastOf (xs ++ [a]) = Some a.
Proof. unfold lastOf. rewrite rev_app_distr. reflexivity. Qed.

Lemma lastOf_some {A : Type} (xs : list A) (a : A) :
  lastOf xs = Some a -> exists ys, xs = ys ++ [a].
Proof.
  unfold lastOf. intros H. destruct (rev xs) as [|b r] eqn:E; [discriminate|].
  injection H as ->. exists (rev r).
  rewrite <- (rev_involutive xs), E. reflexivity.
Qed.

Lemma lastOf_none {A : Type} (xs : list A) : lastOf xs = None -> xs = [].
Proof.
  unfold lastOf. intros H. destruct (rev xs) eqn:E; [|discriminate].
  rewrite <- (rev_involutive xs), E. reflexivity.
Qed.

(** *** The running and the satin generator emit face stitches only *)

Section FaceStitches.

Variable P : Stitch num -> Prop.
Variable i : nat.
Variable hex : string.
Hypothesis face : forall p : Point num, P (faceStitch p i hex).

Lemma runSteps_face (fuel : nat) (prev curr : Point num) (steps : num) :
  forall (s : num) (l : list (Stitch num)),
    runSteps fuel i hex prev curr steps s = Returned l -> Forall P l.
Proof.
  induction fuel as [|fuel IH]; intros s l H; cbn [runSteps] in H;
    destruct (_ <=? _)%num; try discriminate;
    try (injection H as <-; constructor).
  cbv zeta in H. apply bind_Returned in H. destruct H as (rest & H1 & H2).
  injection H2 as <-. constructor; [apply face | apply (IH _ _ H1)].
Qed.

Lemma runSegment_face (fuel : nat) (L : num) (prev curr : Point num)
    (l : list (Stitch num)) :
  runSegment fuel L i hex prev curr = Returned l -> Forall P l.
Proof.
  unfold runSegment. cbv zeta. destruct (_ >? _)%num.
  - apply runSteps_face.
  - intros H. injection H as <-. constructor; [apply face | constructor].
Qed.

Lemma runLoop_face (fuel : nat) (L : num) (rest : list (Point num)) :
  forall (prev : Point num) (l : list (Stitch num)),
    runLoop fuel L i hex prev rest = Returned l -> Forall P l.
Proof.
  induction rest as [|curr rest IH]; intros prev l H; cbn [runLoop] in H.
  - injection H as <-. constructor.
  - apply bind_Returned in H. destruct H as (segment & H1 & H).
    apply bind_Returned in H. destruct H as (more & H2 & H).
    injection H as <-. apply Forall_app. split.
    + apply (runSegment_face _ _ _ _ _ H1).
    + apply (IH _ _ H2).
Qed.

Lemma generateRunningStitches_face (fuel : nat) (path : list (Point num))
    (config : ProcessingConfig num) (l : list (Stitch num)) :
  generateRunningStitches fuel path config i hex = Returned l -> Forall P l.
Proof.
  unfold generateRunningStitches.
  destruct (_ <? _)%nat; [intros H; injection H as <-; constructor|].
  destruct (cleanPath path) as [|p0 [|p1 rest]];
    try (intros H; injection H as <-; constructor).
  intros H. apply bind_Returned in H. destruct H as (stitches & H1 & H).
  injection H as <-. constructor; [apply face | apply (runLoop_face _ _ _ _ _ H1)].
Qed.

Lemma satinSteps_face (fuel : nat) (c : nat) (p1 p2 : Point num)
    (currentLen maxSafeShift steps : num) :
  forall (k : num) (l : list (Stitch num)),
    satinSteps fuel i hex c p1 p2 currentLen maxSafeShift steps k = Returned l ->
    Forall P l.
Proof.
  induction fuel as [|fuel IH]; intros k l H; cbn [satinSteps] in H;
    destruct (_ <? _)%num; try discriminate;
    try (injection H as <-; constructor).
  apply bind_Returned in H. destruct H as (rest & H1 & H2).
  injection H2 as <-. constructor; [apply face | apply (IH _ _ H1)].
Qed.

Lemma satinCrossing_face (fuel : nat) (config : ProcessingConfig num) (c : nat)
    (p1 p2 : Point num) (l : list (Stitch num)) :
  satinCrossing fuel config i hex c p1 p2 = Returned l -> Forall P l.
Proof.
  unfold satinCrossing. cbv zeta. destruct (_ >? _)%num.
  - intros H. apply bind_Returned in H. destruct H as (mids & H1 & H).
    injection H as <-. apply satinSteps_face in H1.
    constructor; [apply face|]. apply Forall_app. split; [exact H1|].
    constructor; [apply face | constructor].
  - intros H. injection H as <-.
    constructor; [apply face|]. constructor; [apply face | constructor].
Qed.

Lemma satinCrossings_face (fuel : nat) (config : ProcessingConfig num)
    (pens : list (nat * (Point num * Point num))) :
  forall l : list (Stitch num),
    satinCrossings fuel config i hex pens = Returned l -> Forall P l.
Proof.
  induction pens as [|ip pens IH]; intros l H; cbn [satinCrossings] in H.
  - injection H as <-. constructor.
  - apply bind_Returned in H. destruct H as (crossing & H1 & H).
    apply bind_Returned in H. destruct H as (rest & H2 & H).
    injection H as <-. apply Forall_app. split.
    + apply (satinCrossing_face _ _ _ _ _ _ H1).
    + apply (IH _ H2).
Qed.

Lemma generateSatinStitches_face (fuel : nat) (path : list (Point num))
    (config : ProcessingConfig num) (l : list (Stitch num)) :
  generateSatinStitches fuel path config i hex = Returned l -> Forall P l.
Proof.
  unfold generateSatinStitches. destruct (_ <? _)%nat.
  - intros H. injection H as <-. constructor.
  - intros H. apply bind_Returned in H. destruct H as (pens & _ & H).
    apply (satinCrossings_face _ _ _ _ H).
Qed.

End FaceStitches.

(** *** The generators emit penetrations and jumps only *)

Lemma generateRunningStitches_kinds (fuel : nat) (path : list (Point num))
    (config : (ProcessingConfig num)) (i : nat) (hex : string) (l : list (Stitch num)) :
  generateRunningStitches fuel path config i hex = Returned l ->
  Forall (fun s => type s = stitch) l.
Proof.
  apply (generateRunningStitches_face (fun s => type s = stitch)). reflexivity.
Qed.

Lemma generateSatinStitches_kinds (fuel : nat) (path : list (Point num))
    (config : (ProcessingConfig num)) (i : nat) (hex : string) (l : list (Stitch num)) :
  generateSatinStitches fuel path config i hex = Returned l ->
  Forall (fun s => type s = stitch) l.
Proof.
  apply (generateSatinStitches_face (fun s => type s = stitch)). reflexivity.
Qed.

Lemma Forall_stitch_isMove (l : list (Stitch num)) :
  Forall (fun s => type s = stitch) l -> Forall (fun s => isMove (type s) = true) l.
Proof. apply Forall_impl. intros s ->. reflexivity. Qed.

Lemma emitSegment_kinds (c : nat) (hex : string) (invAngle : num) (isReverse : bool)
    (lineStitches : list (Point num)) (stitches : list (Stitch num)) :
  Forall (fun s => isMove (type s) = true) stitches ->
  Forall (fun s => isMove (type s) = true)
    (emitSegment c hex invAngle isReverse lineStitches stitches).
Proof.
  intros H. unfold emitSegment. cbv zeta.
  apply Forall_app. split; [exact H|].
  apply Forall_app. split.
  - destruct (lastOf stitches).
    + destruct (_ >? _)%num; [repeat constructor|].
      destruct (_ >? _)%num; repeat constructor.
    + repeat constructor.
  - apply Forall_map. apply Forall_forall. reflexivity.
Qed.

Lemma rowSegments_kinds (fuel c : nat) (hex : string)
    (invAngle maxSatinLen rowSpacing yRow : num) (n : nat) :
  forall (intersections : list num) (stitches l : list (Stitch num)),
    (length intersections <= n)%nat ->
    Forall (fun s => isMove (type s) = true) stitches ->
    rowSegments fuel c hex invAngle maxSatinLen rowSpacing yRow intersections stitches
    = Returned l ->
    Forall (fun s => isMove (type s) = true) l.
Proof.
  induction n as [|n IH]; intros xs stitches l Hn Hs H.
  - destruct xs; [|simpl in Hn; lia]. simpl in H. injection H as <-. exact Hs.
  - destruct xs as [|xStart [|xEnd rest]]; simpl in H;
      try (injection H as <-; exact Hs).
    simpl in Hn.
    destruct (_ <? _)%num.
    + apply (IH rest stitches l); auto; lia.
    + apply bind_Returned in H. destruct H as (line & _ & H).
      apply (IH rest _ l) in H; auto; [lia|].
      apply emitSegment_kinds. exact Hs.
Qed.

Lemma rowLoop_kinds (c : nat) (hex : string) (edges : list ((Point num) * (Point num)))
    (invAngle maxSatinLen rowSpacing maxY : num) (fuel : nat) :
  forall (yRow : num) (stitches l : list (Stitch num)),
    Forall (fun s => isMove (type s) = true) stitches ->
    rowLoop fuel c hex edges invAngle maxSatinLen rowSpacing maxY yRow stitches
    = Returned l ->
    Forall (fun s => isMove (type s) = true) l.
Proof.
  induction fuel as [|fuel IH]; intros yRow stitches l Hs H; simpl in H.
  - destruct (_ <? _)%num; [discriminate|]. injection H as <-. exact Hs.
  - destruct (_ <? _)%num; [|injection H as <-; exact Hs].
    apply bind_Returned in H. destruct H as (stitches' & H1 & H2).
    eapply IH; [|exact H2].
    eapply rowSegments_kinds; eauto.
Qed.

Lemma generateTatamiStitches_kinds (fuel : nat) (shape : list (list (Point num)))
    (config : (ProcessingConfig num)) (i : nat) (hex : string) (l : list (Stitch num)) :
  generateTatamiStitches fuel shape config i hex = Returned l ->
  Forall (fun s => isMove (type s) = true) l.
Proof.
  unfold generateTatamiStitches. destruct (isEmpty shape).
  - intros H. injection H as <-. constructor.
  - cbv zeta. intros H. apply bind_Returned in H. destruct H as (edges & _ & H).
    destruct (fold_left lowerY _ None); [|injection H as <-; constructor].
    destruct (fold_left upperY _ None); [|injection H as <-; constructor].
    eapply rowLoop_kinds; eauto.
Qed.

Lemma generateMain_kinds (fuel : nat) (path : list (Point num)) (config : (ProcessingConfig num))
    (i : nat) (hex : string) (l : list (Stitch num)) :
  generateMain fuel path config i hex = Returned l ->
  Forall (fun s => isMove (type s) = true) l.
Proof.
  unfold generateMain. destruct (stitchType config); intros H.
  - apply Forall_stitch_isMove. eapply generateRunningStitches_kinds; eauto.
  - apply Forall_stitch_isMove. eapply generateSatinStitches_kinds; eauto.
  - eapply generateTatamiStitches_kinds; eauto.
Qed.

Lemma map_asStructure_kinds (l : list (Stitch num)) :
  Forall (fun s => type s = stitch) l ->
  Forall (fun s => type s = stitch) (map asStructure l).
Proof. intros H. apply Forall_map. revert H. apply Forall_impl. auto. Qed.

(** What the underlay is made of: the stitches [run] of a running or a
    satin generator, flagged as structure, with the first one repeated at
    the end in the running case of a fill. *)
Lemma generateUnderlay_cases (fuel : nat) (path : list (Point num))
    (config : ProcessingConfig num) (i : nat) (hex : string) (l : list (Stitch num)) :
  generateUnderlay fuel path config i hex = Returned l ->
  exists run : list (Stitch num),
    (run = []
     \/ (exists p, generateRunningStitches fuel p config i hex = Returned run)
     \/ (exists config', generateSatinStitches fuel path config' i hex = Returned run))
    /\ (l = map asStructure run
        \/ exists run0 rest,
             run = run0 :: rest
             /\ l = map asStructure
                      (map asStructure run ++ [asStructure (withType run0 stitch)])).
Proof.
  unfold generateUnderlay. destruct (negb _).
  - intros H. injection H as <-. exists []. split; [left|left]; reflexivity.
  - intros H. apply bind_Returned in H. destruct H as (stitches & H1 & H2).
    injection H2 as <-.
    assert (F : forall p,
               (run <- generateRunningStitches fuel p config i hex ;;
                match run with
                | run0 :: _ =>
                    Returned (map asStructure run ++ [asStructure (withType run0 stitch)])
                | [] => Returned (map asStructure run)
                end) = Returned stitches ->
               exists run : list (Stitch num),
                 (run = []
                  \/ (exists p, generateRunningStitches fuel p config i hex = Returned run)
                  \/ (exists config',
                         generateSatinStitches fuel path config' i hex = Returned run))
                 /\ (map asStructure stitches = map asStructure run
                     \/ exists run0 rest,
                          run = run0 :: rest
                          /\ map asStructure stitches
                             = map asStructure
                                 (map asStructure run
                                  ++ [asStructure (withType run0 stitch)]))).
    { intros p H. apply bind_Returned in H. destruct H as (run & Hr & H).
      destruct run as [|run0 rest]; injection H as <-.
      - exists []. split; [left|left]; reflexivity.
      - exists (run0 :: rest). split; [right; left; exists p; exact Hr|].
        right. exists run0, rest. split; reflexivity. }
    destruct (stitchType config); cbv zeta in H1.
    + destruct (_ <? _)%nat; [apply (F _ H1)|].
      injection H1 as <-. exists []. split; [left|left]; reflexivity.
    + destruct (_ <? _)%num.
      * exists stitches. split; [right; left; exists path; exact H1 | left; reflexivity].
      * destruct (_ >? _)%num.
        -- exists stitches. split; [right; right; eexists; exact H1 | left; reflexivity].
        -- injection H1 as <-. exists []. split; [left|left]; reflexivity.
    + destruct (_ <? _)%nat; [apply (F _ H1)|].
      injection H1 as <-. exists []. split; [left|left]; reflexivity.
Qed.

Lemma generateUnderlay_kinds (fuel : nat) (path : list (Point num)) (config : (ProcessingConfig num))
    (i : nat) (hex : string) (l : list (Stitch num)) :
  generateUnderlay fuel path config i hex = Returned l ->
  Forall (fun s => isMove (type s) = true) l.
Proof.
  intros H. apply generateUnderlay_cases in H.
  destruct H as (run & Hrun & Hl).
  assert (K : Forall (fun s => type s = stitch) run).
  { destruct Hrun as [-> | [[p Hp] | [config' Hs]]].
    - constructor.
    - apply (generateRunningStitches_kinds _ _ _ _ _ _ Hp).
    - apply (generateSatinStitches_kinds _ _ _ _ _ _ Hs). }
  apply Forall_stitch_isMove.
  destruct Hl as [-> | (run0 & rest & E & ->)].
  - apply map_asStructure_kinds. exact K.
  - apply map_asStructure_kinds. apply Forall_app. split.
    + apply map_asStructure_kinds. exact K.
    + constructor; [reflexivity | constructor].
Qed.

(** *** Reading a sequence record by record *)

Lemma trimRun_app (ks1 ks2 : list StitchKind) :
  forall s, trimRun s (ks1 ++ ks2)
            = match trimRun s ks1 with
              | Some s' => trimRun s' ks2
              | None => None
              end.
Proof.
  induction ks1 as [|k ks1 IH]; intros s; simpl; auto.
  destruct (trimStep s k); auto.
Qed.

Lemma trimRun_moves (l : list (Stitch num)) :
  Forall (fun s => isMove (type s) = true) l ->
  trimRun noTrim (map type l) = Some noTrim.
Proof.
  induction 1 as [|s l Hs _ IH]; simpl; auto.
  destruct (type s); try discriminate; exact IH.
Qed.

Lemma trimRun_no_end (ks : list StitchKind) :
  forall s s', trimRun s ks = Some s' -> ~ In end_ ks.
Proof.
  induction ks as [|k ks IH]; intros s s' H; simpl in *; auto.
  destruct (trimStep s k) as [s1|] eqn:E; [|discriminate].
  intros [-> | Hin].
  - destruct s; discriminate.
  - exact (IH _ _ H Hin).
Qed.

(** A sequence read without fault and not ending in two trims, once closed
    by [end]: what follows each trim. *)
Lemma trimRun_followed (ks : list StitchKind) :
  forall (s s' : TrimState) (i : nat),
    trimRun s ks = Some s' -> s' <> twoTrims ->
    nth_error (ks ++ [end_]) i = Some trim ->
    match nth_error (ks ++ [end_]) (S i) with
    | Some jump | Some color_change | Some end_ => True
    | Some trim => nth_error (ks ++ [end_]) (S (S i)) = Some jump
    | _ => False
    end.
Proof.
  induction ks as [|k ks IH]; intros s s' i H Hs' Hi.
  - destruct i as [|[|i]]; simpl in Hi; discriminate.
  - simpl in H. destruct (trimStep s k) as [s1|] eqn:E; [|discriminate].
    destruct i as [|i].
    + simpl in Hi. injection Hi as ->.
      destruct s; simpl in E; try discriminate; injection E as <-.
      * destruct ks as [|k2 ks]; simpl in *; [exact I|].
        destruct k2; simpl in H; try discriminate; try exact I.
        destruct ks as [|k3 ks]; simpl in H.
        -- injection H as <-. contradiction.
        -- destruct k3; simpl in H; try discriminate. reflexivity.
      * destruct ks as [|k2 ks]; simpl in *.
        -- injection H as <-. contradiction.
        -- destruct k2; simpl in H; try discriminate. exact I.
    + simpl in Hi |- *. exact (IH s1 s' i H Hs' Hi).
Qed.

(** *** Ties and the joins of the composer *)

Lemma addTieIn_kinds (l : list (Stitch num)) :
  Forall (fun s => isMove (type s) = true) l ->
  Forall (fun s => isMove (type s) = true) (addTieIn l).
Proof.
  intros H. unfold addTieIn. destruct l as [|first l]; [constructor|].
  destruct (isJumpOrEnd (type first)); [exact H|].
  repeat (constructor; [reflexivity|]). exact H.
Qed.

Lemma addTieIn_empty (l : list (Stitch num)) : addTieIn l = [] -> l = [].
Proof.
  unfold addTieIn. destruct l as [|first l]; auto.
  destruct (isJumpOrEnd (type first)); discriminate.
Qed.

Lemma addTieOff_open (l : list (Stitch num)) :
  Forall (fun s => isMove (type s) = true) l -> openSequence (addTieOff l).
Proof.
  intros H. unfold addTieOff, openSequence.
  destruct (lastOf l) as [last|].
  - destruct (isJumpOrEnd (type last)).
    + exists noTrim. split; [apply trimRun_moves; exact H | discriminate].
    + exists oneTrim. split; [|discriminate].
      rewrite map_app, trimRun_app, (trimRun_moves l H). reflexivity.
  - exists noTrim. split; [reflexivity | discriminate].
Qed.

Lemma moves_open (l : list (Stitch num)) :
  Forall (fun s => isMove (type s) = true) l -> openSequence l.
Proof.
  intros H. exists noTrim. split; [apply trimRun_moves; exact H | discriminate].
Qed.

(** After a jump the sequence is back to [noTrim], whatever came before;
    so it is after trim, jump and after color change, jump. *)
Lemma open_then_jump (l : list (Stitch num)) (cmds : list (Stitch num)) :
  openSequence l ->
  map type cmds = [jump] \/ map type cmds = [trim; jump]
  \/ map type cmds = [color_change; jump] ->
  trimRun noTrim (map type (l ++ cmds)) = Some noTrim.
Proof.
  intros (s & Hs & Hne) Hc. rewrite map_app, trimRun_app, Hs.
  destruct Hc as [-> | [-> | ->]]; destruct s; try reflexivity; contradiction.
Qed.

Lemma open_app (a b : list (Stitch num)) :
  trimRun noTrim (map type a) = Some noTrim -> openSequence b -> openSequence (a ++ b).
Proof.
  intros Ha (s & Hs & Hne). exists s. split; [|exact Hne].
  rewrite map_app, trimRun_app, Ha. exact Hs.
Qed.

Lemma isEmpty_true {A : Type} (l : list A) : isEmpty l = true -> l = [].
Proof. destruct l; [reflexivity | discriminate]. Qed.

(** Steps 2 and 3 of a round, from the layer's stitches [ls1] after the
    underlay. *)
Lemma digitizePath_main_open (fuel : nat) (config : (ProcessingConfig num)) (i : nat)
    (hex : string) (path : list (Point num)) (underlay ls1 l : list (Stitch num)) :
  openSequence ls1 ->
  (main <- generateMain fuel path config i hex ;;
   if isEmpty main then Returned ls1
   else
     let main := if isEmpty underlay then addTieIn main else main in
     let main := addTieOff main in
     let layerStitches :=
       match lastOf ls1, main with
       | Some last, first :: _ =>
           let d := dist last first in
           if (d >? trimJumpDistanceMm config)%num then
             ls1 ++ [command last trim i hex; command first jump i hex]
           else ls1 ++ [command first jump i hex]
       | _, _ => ls1
       end in
     Returned (layerStitches ++ main)) = Returned l ->
  openSequence l.
Proof.
  intros H1 H.
  apply bind_Returned in H. destruct H as (main & Hm & H).
  apply generateMain_kinds in Hm.
  destruct (isEmpty main); [injection H as <-; exact H1|].
  cbv zeta in H. injection H as <-.
  set (main2 := addTieOff (if isEmpty underlay then addTieIn main else main)).
  assert (H2 : openSequence main2).
  { subst main2. apply addTieOff_open.
    destruct (isEmpty underlay); [apply addTieIn_kinds|]; exact Hm. }
  clearbody main2.
  destruct (lastOf ls1) as [last|] eqn:El.
  - destruct main2 as [|first main2'].
    + rewrite app_nil_r. exact H1.
    + destruct (_ >? _)%num; (apply open_app; [|exact H2]);
        apply open_then_jump; auto.
  - apply lastOf_none in El. subst ls1. destruct main2; exact H2.
Qed.

Lemma digitizePath_open (fuel : nat) (config : (ProcessingConfig num)) (i : nat) (hex : string)
    (layerStitches : list (Stitch num)) (path : list (Point num)) (l : list (Stitch num)) :
  openSequence layerStitches ->
  digitizePath fuel config i hex layerStitches path = Returned l ->
  openSequence l.
Proof.
  intros Hopen H. unfold digitizePath in H.
  apply bind_Returned in H. destruct H as (underlay & Hu & H).
  apply generateUnderlay_kinds in Hu. apply addTieIn_kinds in Hu.
  cbv zeta in H.
  destruct (addTieIn underlay) as [|tied0 tied] eqn:E.
  - eapply digitizePath_main_open; [exact Hopen | exact H].
  - eapply digitizePath_main_open; [|exact H].
    destruct (isEmpty layerStitches) eqn:Em.
    + apply isEmpty_true in Em. subst layerStitches. simpl app.
      apply moves_open. exact Hu.
    + apply open_app; [|apply moves_open; exact Hu].
      apply open_then_jump; auto.
Qed.

Lemma digitizePaths_open (fuel : nat) (config : (ProcessingConfig num)) (i : nat) (hex : string)
    (ps : list (list (Point num))) :
  forall (layerStitches l : list (Stitch num)),
    openSequence layerStitches ->
    digitizePaths fuel config i hex layerStitches ps = Returned l ->
    openSequence l.
Proof.
  induction ps as [|path ps IH]; intros ls l Hopen H; simpl in H.
  - injection H as <-. exact Hopen.
  - apply bind_Returned in H. destruct H as (ls' & H1 & H2).
    apply (IH ls' l); [|exact H2].
    eapply digitizePath_open; eauto.
Qed.

Lemma open_nil : openSequence (@nil (Stitch num)).
Proof. exists noTrim. split; [reflexivity | discriminate]. Qed.

Lemma digitizeLayer_open (fuel : nat) (config : (ProcessingConfig num)) (i : nat)
    (allStitches : list (Stitch num)) (layer : (VectorLayer num)) (l : list (Stitch num)) :
  openSequence allStitches ->
  digitizeLayer fuel config i allStitches layer = Returned l ->
  openSequence l.
Proof.
  intros Hopen H. unfold digitizeLayer in H.
  apply bind_Returned in H. destruct H as (ls & H1 & H).
  apply digitizePaths_open in H1; [|apply open_nil].
  destruct ls as [|first ls'].
  { injection H as <-. exact Hopen. }
  injection H as <-.
  destruct (lastOf allStitches) as [last|] eqn:El.
  - apply open_app; [|exact H1]. apply open_then_jump; auto.
  - apply lastOf_none in El. subst allStitches. exact H1.
Qed.

Lemma digitizeLayers_open (fuel : nat) (config : (ProcessingConfig num))
    (layers : list (VectorLayer num)) :
  forall (i : nat) (allStitches l : list (Stitch num)),
    openSequence allStitches ->
    digitizeLayers fuel config i allStitches layers = Returned l ->
    openSequence l.
Proof.
  induction layers as [|layer layers IH]; intros i all l Hopen H; simpl in H.
  - injection H as <-. exact Hopen.
  - apply bind_Returned in H. destruct H as (all' & H1 & H2).
    apply (IH (S i) all' l); [|exact H2].
    eapply digitizeLayer_open; eauto.
Qed.

(** *** Small-stitch removal drops penetrations only *)

Lemma removeLoop_run (minLen : num) (rest : list (Stitch num)) :
  forall (prev : (Stitch num)) (s s' : TrimState),
    trimRun s (map type rest) = Some s' ->
    trimRun s (map type (removeLoop minLen prev rest)) = Some s'.
Proof.
  induction rest as [|curr rest IH]; intros prev s s' H; simpl in *; auto.
  destruct (trimStep s (type curr)) as [s1|] eqn:E; [|discriminate].
  destruct (StitchKind_eqb (type curr) stitch && _) eqn:D.
  - apply andb_true_iff in D. destruct D as [D _].
    destruct (type curr); try discriminate.
    destruct s; simpl in E; try discriminate; injection E as <-; apply IH; exact H.
  - simpl. rewrite E. apply IH. exact H.
Qed.

(** The sequence [digitizeDesign] returns: the two-element array of the
    empty design, or an open sequence closed by a copy of its last record
    with type [end]. *)
Lemma digitizeDesign_shape (fuel : nat) (layers : list (VectorLayer num))
    (config : (ProcessingConfig num)) (out : list (Item num)) :
  digitizeDesign fuel layers config = Returned out ->
  out = [undefined; typeOnly end_]
  \/ exists (l : list (Stitch num)) (last : (Stitch num)),
       out = map record l ++ [record (withType last end_)]
       /\ l <> [] /\ openSequence l.
Proof.
  intros H. unfold digitizeDesign in H.
  apply bind_Returned in H. destruct H as (all & H1 & H).
  apply digitizeLayers_open in H1; [|apply open_nil].
  destruct all as [|s0 rest].
  - left. simpl in H. injection H as <-. reflexivity.
  - right. cbv zeta in H. unfold removeSmallStitches in H.
    set (kept := s0 :: removeLoop (minStitchLengthMm config) s0 rest) in *.
    assert (Hk : openSequence kept).
    { destruct H1 as (s & Hs & Hne). exists s. split; [|exact Hne].
      subst kept. simpl in *.
      destruct (type s0); try discriminate; apply removeLoop_run; exact Hs. }
    assert (Hn : kept <> []) by (subst kept; discriminate).
    clearbody kept.
    destruct (lastOf (map record kept)) as [last|] eqn:El.
    + injection H as <-.
      apply lastOf_some in El. destruct El as (ys & El).
      destruct (exists_last Hn) as (kept' & e & ->).
      rewrite map_app in El. simpl in El.
      apply app_inj_tail in El. destruct El as [_ <-].
      exists (kept' ++ [e]), e. simpl. auto.
    + apply lastOf_none in El. destruct kept; [contradiction | discriminate].
Qed.

(** *** Only the fill generator throws *)

Lemma bind_no_throw {A B : Type} (o : outcome A) (k : A -> outcome B) :
  o <> Throws -> (forall a, k a <> Throws) -> bind o k <> Throws.
Proof.
  intros Ho Hk. destruct o; simpl; [apply Hk | contradiction | discriminate].
Qed.

Lemma runSteps_no_throw (fuel : nat) (i : nat) (hex : string) (prev curr : Point num)
    (steps : num) :
  forall s, runSteps fuel i hex prev curr steps s <> Throws.
Proof.
  induction fuel as [|fuel IH]; intros s; cbn [runSteps];
    destruct (_ <=? _)%num; try discriminate.
  cbv zeta. apply bind_no_throw; [apply IH | discriminate].
Qed.

Lemma runLoop_no_throw (fuel : nat) (L : num) (i : nat) (hex : string)
    (rest : list (Point num)) :
  forall prev, runLoop fuel L i hex prev rest <> Throws.
Proof.
  induction rest as [|curr rest IH]; intros prev; cbn [runLoop]; [discriminate|].
  apply bind_no_throw.
  - unfold runSegment. cbv zeta.
    destruct (_ >? _)%num; [apply runSteps_no_throw | discriminate].
  - intros segment. apply bind_no_throw; [apply IH | discriminate].
Qed.

Lemma generateRunningStitches_no_throw (fuel : nat) (path : list (Point num))
    (config : ProcessingConfig num) (i : nat) (hex : string) :
  generateRunningStitches fuel path config i hex <> Throws.
Proof.
  unfold generateRunningStitches. destruct (_ <? _)%nat; [discriminate|].
  destruct (cleanPath path) as [|p0 [|p1 rest]]; try discriminate.
  apply bind_no_throw; [apply runLoop_no_throw | discriminate].
Qed.

Lemma resampleLoop_no_throw (fuel : nat) (spacing : num) :
  forall (prev : Point num) (acc : num) (rest newPath : list (Point num)),
    resampleLoop fuel spacing prev acc rest newPath <> Throws.
Proof.
  induction fuel as [|fuel IH]; intros prev acc rest newPath;
    destruct rest as [|curr rest]; cbn [resampleLoop]; try discriminate.
  cbv zeta. destruct (_ >=? _)%num; apply IH.
Qed.

Lemma satinSteps_no_throw (fuel : nat) (i : nat) (hex : string) (c : nat)
    (p1 p2 : Point num) (currentLen maxSafeShift steps : num) :
  forall k, satinSteps fuel i hex c p1 p2 currentLen maxSafeShift steps k <> Throws.
Proof.
  induction fuel as [|fuel IH]; intros k; cbn [satinSteps];
    destruct (_ <? _)%num; try discriminate.
  apply bind_no_throw; [apply IH | discriminate].
Qed.

Lemma satinCrossings_no_throw (fuel : nat) (config : ProcessingConfig num) (i : nat)
    (hex : string) (pens : list (nat * (Point num * Point num))) :
  satinCrossings fuel config i hex pens <> Throws.
Proof.
  induction pens as [|ip pens IH]; cbn [satinCrossings]; [discriminate|].
  apply bind_no_throw.
  - unfold satinCrossing. cbv zeta. destruct (_ >? _)%num; [|discriminate].
    apply bind_no_throw; [apply satinSteps_no_throw | discriminate].
  - intros crossing. apply bind_no_throw; [exact IH | discriminate].
Qed.

Lemma generateSatinStitches_no_throw (fuel : nat) (path : list (Point num))
    (config : ProcessingConfig num) (i : nat) (hex : string) :
  generateSatinStitches fuel path config i hex <> Throws.
Proof.
  unfold generateSatinStitches. destruct (_ <? _)%nat; [discriminate|].
  apply bind_no_throw.
  - unfold satinPenetrations. apply bind_no_throw; [|discriminate].
    unfold resamplePath. destruct path as [|p0 [|p1 rest]]; try discriminate.
    apply bind_no_throw; [apply resampleLoop_no_throw | discriminate].
  - intros pens. apply satinCrossings_no_throw.
Qed.

Lemma generateUnderlay_no_throw (fuel : nat) (path : list (Point num))
    (config : ProcessingConfig num) (i : nat) (hex : string) :
  generateUnderlay fuel path config i hex <> Throws.
Proof.
  unfold generateUnderlay. destruct (negb _); [discriminate|].
  apply bind_no_throw; [|discriminate].
  assert (F : forall p,
             (run <- generateRunningStitches fuel p config i hex ;;
              match run with
              | run0 :: _ =>
                  Returned (map asStructure run ++ [asStructure (withType run0 stitch)])
              | [] => Returned (map asStructure run)
              end) <> Throws).
  { intros p. apply bind_no_throw; [apply generateRunningStitches_no_throw|].
    intros [|run0 run]; discriminate. }
  destruct (stitchType config); cbv zeta.
  - destruct (_ <? _)%nat; [apply F | discriminate].
  - destruct (_ <? _)%num; [apply generateRunningStitches_no_throw|].
    destruct (_ >? _)%num; [apply generateSatinStitches_no_throw | discriminate].
  - destruct (_ <? _)%nat; [apply F | discriminate].
Qed.

Lemma digitizePaths_no_throw (fuel : nat) (config : ProcessingConfig num) (i : nat)
    (hex : string) (ps : list (list (Point num))) :
  stitchType config <> tatami ->
  forall layerStitches, digitizePaths fuel config i hex layerStitches ps <> Throws.
Proof.
  intros T. induction ps as [|path ps IH]; intros ls; cbn [digitizePaths];
    [discriminate|].
  apply bind_no_throw; [|intros ls'; apply IH].
  unfold digitizePath. apply bind_no_throw; [apply generateUnderlay_no_throw|].
  intros underlay. cbv zeta. apply bind_no_throw.
  - unfold generateMain. destruct (stitchType config).
    + apply generateRunningStitches_no_throw.
    + apply generateSatinStitches_no_throw.
    + contradiction.
  - intros main. destruct (isEmpty main); discriminate.
Qed.

Lemma digitizeLayers_no_throw (fuel : nat) (config : ProcessingConfig num)
    (layers : list (VectorLayer num)) :
  stitchType config <> tatami ->
  forall i allStitches, digitizeLayers fuel config i allStitches layers <> Throws.
Proof.
  intros T. induction layers as [|layer layers IH]; intros i all;
    cbn [digitizeLayers]; [discriminate|].
  apply bind_no_throw; [|intros all'; apply IH].
  unfold digitizeLayer. apply bind_no_throw; [apply (digitizePaths_no_throw _ _ _ _ _ T)|].
  intros [|first ls]; discriminate.
Qed.

Lemma digitizeDesign_no_throw (fuel : nat) (layers : list (VectorLayer num))
    (config : ProcessingConfig num) :
  stitchType config <> tatami -> digitizeDesign fuel layers config <> Throws.
Proof.
  intros T. unfold digitizeDesign.
  apply bind_no_throw; [apply (digitizeLayers_no_throw _ _ _ T)|].
  intros all. cbv zeta. destruct (lastOf _); discriminate.
Qed.

(** *** What the running pipeline reads of a configuration *)

Lemma generateRunningStitches_config (fuel : nat) (path : list (Point num))
    (c1 c2 : ProcessingConfig num) (i : nat) (hex : string) :
  MAX_RUN_LEN c1 = MAX_RUN_LEN c2 ->
  generateRunningStitches fuel path c1 i hex = generateRunningStitches fuel path c2 i hex.
Proof. intros E. unfold generateRunningStitches. rewrite E. reflexivity. Qed.

Lemma digitizePath_config (fuel : nat) (c1 c2 : ProcessingConfig num) (i : nat)
    (hex : string) (layerStitches : list (Stitch num)) (path : list (Point num)) :
  sameForRunning c1 c2 ->
  digitizePath fuel c1 i hex layerStitches path
  = digitizePath fuel c2 i hex layerStitches path.
Proof.
  intros (T1 & T2 & U & L & J & _).
  unfold digitizePath, generateUnderlay, generateMain. rewrite T1, T2, U, J. cbv zeta.
  rewrite !(generateRunningStitches_config fuel _ c1 c2 i hex L). reflexivity.
Qed.

Lemma digitizePaths_config (fuel : nat) (c1 c2 : ProcessingConfig num) (i : nat)
    (hex : string) (ps : list (list (Point num))) :
  sameForRunning c1 c2 ->
  forall layerStitches,
    digitizePaths fuel c1 i hex layerStitches ps
    = digitizePaths fuel c2 i hex layerStitches ps.
Proof.
  intros S. induction ps as [|path ps IH]; intros ls; cbn [digitizePaths];
    [reflexivity|].
  rewrite (digitizePath_config fuel c1 c2 i hex ls path S).
  destruct (digitizePath fuel c2 i hex ls path); simpl; auto.
Qed.

Lemma digitizeLayers_config (fuel : nat) (c1 c2 : ProcessingConfig num)
    (layers : list (VectorLayer num)) :
  sameForRunning c1 c2 ->
  forall i allStitches,
    digitizeLayers fuel c1 i allStitches layers
    = digitizeLayers fuel c2 i allStitches layers.
Proof.
  intros S. induction layers as [|layer layers IH]; intros i all;
    cbn [digitizeLayers]; [reflexivity|].
  unfold digitizeLayer.
  rewrite (digitizePaths_config fuel c1 c2 i (color layer) (paths layer) S).
  destruct (digitizePaths fuel c2 i (color layer) [] (paths layer)) as [ls| |];
    simpl; auto.
  destruct ls; apply IH.
Qed.

Lemma digitizeDesign_config (fuel : nat) (layers : list (VectorLayer num))
    (c1 c2 : ProcessingConfig num) :
  sameForRunning c1 c2 ->
  digitizeDesign fuel layers c1 = digitizeDesign fuel layers c2.
Proof.
  intros S. unfold digitizeDesign.
  rewrite (digitizeLayers_config fuel c1 c2 layers S).
  destruct S as (_ & _ & _ & _ & _ & M). rewrite M. reflexivity.
Qed.

(** *** The sequence [digitizeDesign] returns *)

(** C2.  A sequence returned by [digitizeDesign] has exactly one record of
    kind [end], and it is the last one. *)
Theorem digitizeDesign_single_end (fuel : nat) (layers : list (VectorLayer num))
    (config : (ProcessingConfig num)) (out : list (Item num)) :
  digitizeDesign fuel layers config = Returned out ->
  exists (body : list (Item num)) (last : (Item num)),
    out = body ++ [last]
    /\ kindOf last = Some end_
    /\ Forall (fun it => kindOf it <> Some end_) body.
Proof.
  intros H. apply digitizeDesign_shape in H.
  destruct H as [-> | (l & e & -> & _ & (s & Hs & _))].
  - exists [undefined], (typeOnly end_). repeat split.
    repeat constructor. discriminate.
  - exists (map record l), (record (withType e end_)). repeat split.
    apply trimRun_no_end in Hs.
    apply Forall_map. apply Forall_forall. intros x Hx E.
    apply Hs. simpl in E. injection E as E. rewrite <- E.
    apply in_map. exact Hx.
Qed.

(** C3, amended.  In a sequence returned by [digitizeDesign] every [trim]
    is immediately followed by a [jump], a [color_change], the [end], or
    one more [trim] that is itself followed by a [jump]: never by a
    penetration, and a trim is never last. *)
Theorem digitizeDesign_trim_followed (fuel : nat) (layers : list (VectorLayer num))
    (config : (ProcessingConfig num)) (out : list (Item num)) :
  digitizeDesign fuel layers config = Returned out ->
  forall (i : nat) (it : (Item num)),
    nth_error out i = Some it -> kindOf it = Some trim ->
    exists next,
      nth_error out (S i) = Some next
      /\ (kindOf next = Some jump \/ kindOf next = Some color_change
          \/ kindOf next = Some end_
          \/ (kindOf next = Some trim
              /\ exists next2, nth_error out (S (S i)) = Some next2
                               /\ kindOf next2 = Some jump)).
Proof.
  intros H i it Hi Hk. apply digitizeDesign_shape in H.
  destruct H as [-> | (l & e & -> & _ & (s & Hs & Hne))].
  - destruct i as [|[|i]]; simpl in Hi.
    + injection Hi as <-. discriminate.
    + injection Hi as <-. discriminate.
    + destruct i; discriminate.
  - set (ks := map type l ++ [end_]).
    assert (Hm : map kindOf (map record l ++ [record (withType e end_)]) = map Some ks).
    { subst ks. rewrite !map_app, !map_map. reflexivity. }
    set (out := map record l ++ [record (withType e end_)]) in *.
    assert (To : forall j k, nth_error ks j = Some k ->
                 exists x, nth_error out j = Some x /\ kindOf x = Some k).
    { intros j k Hj.
      pose proof (map_nth_error Some j ks Hj) as E. rewrite <- Hm in E.
      rewrite nth_error_map in E.
      destruct (nth_error out j) as [x|]; [|discriminate].
      exists x. split; [reflexivity|]. simpl in E. injection E as E. exact E. }
    assert (Hi' : nth_error ks i = Some trim).
    { pose proof (map_nth_error kindOf i out Hi) as E. rewrite Hm, Hk in E.
      rewrite nth_error_map in E.
      destruct (nth_error ks i); [|discriminate]. simpl in E. injection E as ->.
      reflexivity. }
    pose proof (trimRun_followed (map type l) noTrim s i Hs Hne Hi') as F. fold ks in F.
    destruct (nth_error ks (S i)) as [k|] eqn:E1; [|contradiction].
    destruct (To _ _ E1) as (next & Hn & Hkn). exists next. split; [exact Hn|].
    destruct k; try contradiction; auto.
    destruct (To _ _ F) as (next2 & Hn2 & Hkn2). right; right; right.
    split; [exact Hkn|]. exists next2. auto.
Qed.

(** C8, amended.  [digitizeDesign] checks no option and has no error
    outcome for a configuration.  With the running stitch type it never
    throws; it does not read the density or the satin column width, so that
    any values of them, zero and negative ones included, give the same
    outcome; and a maximum stitch length that is not positive gives the
    outcome of 2.5 mm. *)
Theorem digitizeDesign_running_unchecked (fuel : nat) (layers : list (VectorLayer num))
    (config : ProcessingConfig num) :
  stitchType config = running ->
  digitizeDesign fuel layers config <> Throws
  /\ (forall density satinWidth : num,
        digitizeDesign fuel layers
          (withOptions config density satinWidth (maxStitchLengthMm config))
        = digitizeDesign fuel layers config)
  /\ ((maxStitchLengthMm config >? zero)%num = false ->
      (num_lit 2.5 >? zero)%num = true ->
      forall density satinWidth : num,
        digitizeDesign fuel layers (withOptions config density satinWidth (num_lit 2.5))
        = digitizeDesign fuel layers config).
Proof.
  intros T. split; [|split].
  - apply digitizeDesign_no_throw. rewrite T. discriminate.
  - intros density satinWidth. apply digitizeDesign_config.
    unfold sameForRunning, MAX_RUN_LEN. simpl. auto 10.
  - intros E E25 density satinWidth. apply digitizeDesign_config.
    unfold sameForRunning, MAX_RUN_LEN. simpl. rewrite E, E25. auto 10.
Qed.

End ComposerFacts.

Lemma twoPaths_returns :
  digitizeDesign 0 Scenario.twoPaths Scenario.runningConfig
  = Returned Scenario.twoPathsOut.
Proof. vm_compute. reflexivity. Qed.

Lemma digitizeDesign_single_end_witness :
  exists (body : list (Item float)) (last : Item float),
    Scenario.twoPathsOut = body ++ [last]
    /\ kindOf last = Some end_
    /\ Forall (fun it => kindOf it <> Some end_) body.
Proof.
  exact (digitizeDesign_single_end 0 Scenario.twoPaths Scenario.runningConfig
           Scenario.twoPathsOut twoPaths_returns).
Defined.

Lemma digitizeDesign_trim_followed_witness :
  exists next,
    nth_error Scenario.twoPathsOut 7 = Some next
    /\ (kindOf next = Some jump \/ kindOf next = Some color_change
        \/ kindOf next = Some end_
        \/ (kindOf next = Some trim
            /\ exists next2, nth_error Scenario.twoPathsOut 8 = Some next2
                             /\ kindOf next2 = Some jump)).
Proof.
  eapply (digitizeDesign_trim_followed 0 Scenario.twoPaths Scenario.runningConfig
            Scenario.twoPathsOut twoPaths_returns 6).
  - vm_compute. reflexivity.
  - reflexivity.
Defined.

(** C3, as stated: with the underlay off, the tie-off trim of the first
    path is followed by the trim the composer puts before a long jump. *)
Lemma trim_followed_by_trim :
  map kindOf Scenario.twoPathsOut
  = map Some [stitch; stitch; stitch; stitch; stitch; stitch; trim; trim; jump;
              stitch; stitch; stitch; stitch; stitch; stitch; trim; end_].
Proof. vm_compute. reflexivity. Qed.

Lemma digitizeDesign_running_unchecked_witness :
  digitizeDesign 0 Scenario.twoPaths Scenario.outOfRangeConfig <> Throws
  /\ digitizeDesign 0 Scenario.twoPaths
       (withOptions Scenario.outOfRangeConfig (num_lit (-1)) (num_lit (-1)) (num_lit 2.5))
     = digitizeDesign 0 Scenario.twoPaths Scenario.outOfRangeConfig.
Proof.
  destruct (digitizeDesign_running_unchecked 0 Scenario.twoPaths
              Scenario.outOfRangeConfig eq_refl) as (H1 & _ & H3).
  split; [exact H1|].
  apply H3; vm_compute; reflexivity.
Defined.

(** C8, as stated: with density, satin width and maximum stitch length all
    zero the pipeline runs and returns the stitches of the two paths. *)
Lemma out_of_range_config_runs :
  configOutOfRange Scenario.outOfRangeConfig = true
  /\ Scenario.kinds (digitizeDesign 0 Scenario.twoPaths Scenario.outOfRangeConfig)
     = map Some [stitch; stitch; stitch; stitch; stitch; stitch; trim; trim; jump;
                 stitch; stitch; stitch; stitch; stitch; stitch; trim; end_].
Proof. split; vm_compute; reflexivity. Qed.

(** ** Exact arithmetic *)

Section RealFacts.

Local Open Scope R_scope.

Lemma ltb_true (a b : R) : Exact.ltb a b = true <-> a < b.
Proof. unfold Exact.ltb. destruct (Rlt_dec a b); split; auto; discriminate. Qed.

Lemma ltb_false (a b : R) : Exact.ltb a b = false <-> b <= a.
Proof.
  unfold Exact.ltb. destruct (Rlt_dec a b); split; auto; try discriminate; lra.
Qed.

Lemma leb_true (a b : R) : Exact.leb a b = true <-> a <= b.
Proof. unfold Exact.leb. destruct (Rle_dec a b); split; auto; discriminate. Qed.

Lemma leb_false (a b : R) : Exact.leb a b = false <-> b < a.
Proof.
  unfold Exact.leb. destruct (Rle_dec a b); split; auto; try discriminate; lra.
Qed.


Lemma radicand_nonneg (a b : R) : 0 <= a * a + b * b.
Proof. nra. Qed.

Lemma dist_nonneg (p q : Point R) : 0 <= dist p q.
Proof. unfold dist. apply sqrt_pos. Qed.

(** [dist p q <= L] as soon as the squared distance is at most [L * L]. *)
Lemma dist_le (p q : Point R) (L : R) :
  0 <= L ->
  (x p - x q) * (x p - x q) + (y p - y q) * (y p - y q) <= L * L ->
  dist p q <= L.
Proof.
  intros HL H. unfold dist, pow2. simpl.
  rewrite <- (sqrt_square L HL). apply sqrt_le_1_alt. exact H.
Qed.

Lemma dist_sqr (p q : Point R) :
  dist p q * dist p q
  = (x p - x q) * (x p - x q) + (y p - y q) * (y p - y q).
Proof. unfold dist, pow2. simpl. apply sqrt_sqrt. apply radicand_nonneg. Qed.

(** *** Counting loops *)

Lemma range_cons (lo hi : Z) : (lo <= hi)%Z -> range lo hi = lo :: range (lo + 1) hi.
Proof.
  intros H. unfold range.
  replace (Z.to_nat (hi - lo + 1)) with (S (Z.to_nat (hi - (lo + 1) + 1))) by lia.
  simpl. f_equal; [lia|].
  rewrite <- seq_shift, map_map. apply map_ext. intros k. lia.
Qed.

Lemma range_nil (lo hi : Z) : (hi < lo)%Z -> range lo hi = [].
Proof.
  intros H. unfold range. replace (Z.to_nat (hi - lo + 1)) with 0%nat by lia.
  reflexivity.
Qed.

Lemma last_cons_eq {A : Type} (l : list A) :
  forall a b, last (b :: l) a = last l b.
Proof.
  induction l as [|c l IH]; intros a b; [reflexivity|].
  change (last (b :: c :: l) a) with (last (c :: l) a).
  rewrite !IH. reflexivity.
Qed.

Lemma chained_app {A : Type} (P : A -> A -> Prop) (l1 l2 : list A) :
  forall a, chained P a l1 -> chained P (last l1 a) l2 -> chained P a (l1 ++ l2).
Proof.
  induction l1 as [|b l1 IH]; intros a H1 H2; [exact H2|].
  destruct H1 as [H H1]. split; [exact H|].
  apply IH; [exact H1|]. rewrite <- (last_cons_eq l1 a b). exact H2.
Qed.


End RealFacts.

(** ** The running-stitch generator *)

Section RunningFacts.

Local Open Scope R_scope.

Lemma lit_2_5 : (num_lit 2.5 : R) = 2.5.
Proof. simpl. unfold Q2R. simpl. lra. Qed.

Lemma MAX_RUN_LEN_real (config : ProcessingConfig R) :
  MAX_RUN_LEN config = RunningSpec.runLength config.
Proof.
  unfold MAX_RUN_LEN, RunningSpec.runLength, zero. simpl. unfold Exact.ltb.
  destruct (Rlt_dec 0 (maxStitchLengthMm config)); [reflexivity | apply lit_2_5].
Qed.





(** *** Outcomes that no longer depend on the loop budget *)

Lemma returns_value {A : Type} (a : A) : returns (fun _ => Returned a) a.
Proof. exists 0%nat. reflexivity. Qed.

Lemma returns_ext {A : Type} (call call' : nat -> outcome A) (a : A) :
  (forall fuel, call fuel = call' fuel) -> returns call' a -> returns call a.
Proof.
  intros E (f0 & H). exists f0. intros fuel Hf. rewrite E. apply H. exact Hf.
Qed.

Lemma returns_bind {A B : Type} (call : nat -> outcome A) (k : nat -> A -> outcome B)
    (a : A) (b : B) :
  returns call a -> returns (fun fuel => k fuel a) b ->
  returns (fun fuel => bind (call fuel) (k fuel)) b.
Proof.
  intros (f1 & H1) (f2 & H2). exists (Nat.max f1 f2). intros fuel Hf.
  rewrite H1 by lia. simpl. apply H2. lia.
Qed.

Lemma returns_unique {A : Type} (call : nat -> outcome A) (a a' : A) :
  returns call a -> returns call a' -> a = a'.
Proof.
  intros (f1 & H1) (f2 & H2).
  specialize (H1 (Nat.max f1 f2) ltac:(lia)). specialize (H2 (Nat.max f1 f2) ltac:(lia)).
  rewrite H1 in H2. injection H2 as E. exact E.
Qed.

(** *** The counting loop of a segment *)

(** Over the reals the number of steps is an integer [n] and the counter
    goes through [k, k + 1, ..., n]. *)
Lemma runSteps_real (i : nat) (hex : string) (a b : Point R) (n : Z) :
  forall (m : nat) (k : Z) (fuel : nat),
    Z.to_nat (n - k + 1) = m -> (m <= fuel)%nat ->
    runSteps fuel i hex a b (IZR n) (IZR k)
    = Returned (map (fun s => faceStitch (interpolatePoints a b (IZR s / IZR n)) i hex)
                    (range k n)).
Proof.
  induction m as [|m IH]; intros k fuel Hm Hf.
  - rewrite range_nil by lia.
    assert (E : num_le (IZR k) (IZR n) = false).
    { apply leb_false. apply IZR_lt. lia. }
    destruct fuel; cbn [runSteps]; rewrite E; reflexivity.
  - destruct fuel as [|fuel]; [lia|].
    assert (E : num_le (IZR k) (IZR n) = true).
    { apply leb_true. apply IZR_le. lia. }
    cbn [runSteps]. rewrite E. cbv zeta.
    change (num_add (IZR k) (num_ofZ 1)) with (IZR k + IZR 1).
    rewrite <- plus_IZR.
    rewrite (IH (k + 1)%Z fuel) by lia. simpl bind.
    rewrite (range_cons k n) by lia. reflexivity.
Qed.

(** The code of a segment against the words of the specification. *)
Lemma runSegment_points (L : R) (i : nat) (hex : string) (a b : Point R) :
  returns (fun fuel => runSegment fuel L i hex a b)
    (map (fun p => faceStitch p i hex) (RunningSpec.segmentPoints L a b)).
Proof.
  unfold runSegment, RunningSpec.segmentPoints. cbv zeta.
  destruct (num_lt L (dist a b)) eqn:E.
  - apply ltb_true in E. destruct (Rle_dec (dist a b) L) as [H'|H']; [lra|].
    exists (Z.to_nat (Exact.ceilZ (dist a b / L) - 1 + 1)). intros fuel Hf.
    change (Math_ceil (num_div (dist a b) L)) with (IZR (Exact.ceilZ (dist a b / L))).
    change (num_ofZ 1) with (IZR 1).
    rewrite (runSteps_real i hex a b _ _ 1%Z fuel eq_refl Hf). f_equal.
    unfold RunningSpec.equallySpaced. rewrite map_map. apply map_ext.
    intros s. unfold interpolatePoints, faceStitch. simpl. f_equal. f_equal;
      unfold Rdiv; ring.
  - apply ltb_false in E. destruct (Rle_dec (dist a b) L) as [H'|H']; [|lra].
    apply returns_value.
Qed.

Lemma runLoop_points (L : R) (i : nat) (hex : string) (rest : list (Point R)) :
  forall a,
    returns (fun fuel => runLoop fuel L i hex a rest)
      (map (fun p => faceStitch p i hex) (RunningSpec.polylinePoints L a rest)).
Proof.
  induction rest as [|b rest IH]; intros a; cbn [runLoop RunningSpec.polylinePoints].
  - apply returns_value.
  - rewrite map_app.
    apply (returns_bind (fun fuel => runSegment fuel L i hex a b)
             (fun fuel segment =>
                more <- runLoop fuel L i hex b rest ;; Returned (segment ++ more))
             _ _ (runSegment_points L i hex a b)).
    apply (returns_bind (fun fuel => runLoop fuel L i hex b rest)
             (fun _ more => Returned (_ ++ more)) _ _ (IH b)).
    apply returns_value.
Qed.

Lemma cleanPath_length (path : list (Point R)) :
  (length (cleanPath path) <= length path)%nat.
Proof.
  destruct path as [|p0 rest]; simpl; auto.
  apply le_n_S. generalize p0. induction rest as [|p rest IH]; intros q; simpl; auto.
  match goal with |- context [if ?c then _ else _] => destruct c end;
    simpl; [apply le_n_S|apply Nat.le_le_succ_r]; apply IH.
Qed.




(** The generator returns the face stitches at the points of the
    specification. *)
Lemma generateRunningStitches_points (path : list (Point R)) (config : ProcessingConfig R)
    (i : nat) (hex : string) :
  returns (fun fuel => generateRunningStitches fuel path config i hex)
    (map (fun p => faceStitch p i hex)
         (if (length (cleanPath path) <? 2)%nat then []
          else RunningSpec.runningPoints (RunningSpec.runLength config) (cleanPath path))).
Proof.
  unfold generateRunningStitches.
  pose proof (cleanPath_length path) as Hp.
  destruct (length path <? 2)%nat eqn:E2.
  - apply Nat.ltb_lt in E2.
    replace (length (cleanPath path) <? 2)%nat with true
      by (symmetry; apply Nat.ltb_lt; lia).
    apply returns_value.
  - destruct (cleanPath path) as [|c0 [|c1 crest]]; try apply returns_value.
    change (length (c0 :: c1 :: crest) <? 2)%nat with false. cbv iota.
    rewrite MAX_RUN_LEN_real. cbn [RunningSpec.runningPoints map].
    apply (returns_bind
             (fun fuel => runLoop fuel (RunningSpec.runLength config) i hex c0 (c1 :: crest))
             (fun _ stitches => Returned (faceStitch c0 i hex :: stitches))
             _ _ (runLoop_points _ i hex (c1 :: crest) c0)).
    apply returns_value.
Qed.



End RunningFacts.



(** ** The satin generator *)

Section SatinFacts.

Local Open Scope R_scope.

(** [normalize] returns the zero vector or a unit vector along its
    argument. *)
Lemma normalize_real (p : Point R) :
  (x (normalize p) = 0 /\ y (normalize p) = 0)
  \/ (exists len, 0 < len
                  /\ x (normalize p) = x p / len /\ y (normalize p) = y p / len
                  /\ x p * x p + y p * y p = len * len).
Proof.
  unfold normalize. cbv zeta.
  set (len := Math_sqrt (x p * x p + y p * y p)%num).
  assert (L0 : 0 <= len) by (apply sqrt_pos).
  assert (L2 : len * len = x p * x p + y p * y p).
  { apply sqrt_sqrt. apply radicand_nonneg. }
  destruct (num_eq len zero) eqn:E1; simpl.
  - left. unfold zero. simpl. auto.
  - right. exists len.
    assert (len <> 0).
    { intros E0. unfold num_eq in E1. simpl in E1. unfold Exact.eqb, zero in E1.
      simpl in E1. destruct (Req_dec_T len 0); [discriminate | contradiction]. }
    split; [lra | auto].
Qed.

Lemma normalize_norm (p : Point R) :
  x (normalize p) * x (normalize p) + y (normalize p) * y (normalize p) = 0
  \/ x (normalize p) * x (normalize p) + y (normalize p) * y (normalize p) = 1.
Proof.
  destruct (normalize_real p) as [[-> ->] | (len & Hl & -> & -> & E)].
  - left. ring.
  - right. unfold Rdiv.
    replace (x p * / len * (x p * / len) + y p * / len * (y p * / len))
      with ((x p * x p + y p * y p) * / (len * len)) by (field; lra).
    rewrite E. field. lra.
Qed.

Lemma sum_squares_zero (a b : R) : a * a + b * b = 0 -> a = 0 /\ b = 0.
Proof.
  intros H.
  assert (Ha : a * a = 0) by nra. assert (Hb : b * b = 0) by nra.
  apply Rmult_integral in Ha, Hb. split; tauto.
Qed.



Lemma lit_real (n : Z) (d : positive) : (num_lit (n # d) : R) = IZR n / IZR (Zpos d).
Proof. reflexivity. Qed.








(** With a spacing that is not positive the resampling loop emits a point
    on every round and never advances: whatever the budget, it is still
    running.  So is the satin generator with [density_mm <= 0], which
    neither returns nor throws. *)
Lemma resampleLoop_never_returns (fuel : nat) :
  forall (spacing : R) (prev : Point R) (acc : R) (curr : Point R)
         (rest newPath : list (Point R)),
    spacing <= 0 -> 0 <= acc ->
    resampleLoop fuel spacing prev acc (curr :: rest) newPath = OutOfFuel.
Proof.
  induction fuel as [|fuel IH]; intros spacing prev acc curr rest newPath Hs Ha.
  - reflexivity.
  - simpl.
    pose proof (dist_nonneg prev curr) as D.
    match goal with
    | |- context [if ?c then _ else _] => replace c with true
    end.
    + apply IH; [exact Hs | unfold zero; simpl; lra].
    + symmetry. apply leb_true. change (spacing <= acc + dist prev curr). lra.
Qed.

Lemma generateSatinStitches_never_returns (fuel : nat) (p0 p1 : Point R)
    (rest : list (Point R)) (config : ProcessingConfig R) (c : nat) (hex : string) :
  densityMm config <= 0 ->
  generateSatinStitches fuel (p0 :: p1 :: rest) config c hex = OutOfFuel.
Proof.
  intros Hd. unfold generateSatinStitches, satinPenetrations, resamplePath.
  simpl length. simpl Nat.ltb. cbv iota.
  rewrite resampleLoop_never_returns; [reflexivity | exact Hd | unfold zero; simpl; lra].
Qed.


End SatinFacts.



(** On binary64 the bound of [6 h] holds up to rounding only: at the corner
    of [cornerSpine], with [h = 1], the two penetrations are computed
    6.0000000000000009 apart. *)
Lemma satin_binary64_rounding :
  halfWidthOf Scenario.cornerConfig = 1%float
  /\ exists w : float,
       nth_error
         (Scenario.widths (satinPenetrations 20 Scenario.cornerSpine Scenario.cornerConfig))
         4 = Some w
       /\ num_lt (num_mul (num_lit 6) (halfWidthOf Scenario.cornerConfig)) w = true
       /\ num_lt w (num_add (num_lit 6) (num_lit 0.000000001)) = true.
Proof.
  split; [vm_compute; reflexivity|].
  eexists. split; [vm_compute; reflexivity|]. split; vm_compute; reflexivity.
Qed.

(** ** Nearest-join sequencing *)

Section JoinFacts.

Import NearestJoin.
Local Open Scope R_scope.

(** *** Turning a closed polygon *)




(** *** The double loop keeps the first nearest vertex *)







(** *** The outer loop *)


Lemma removeAt_length {A : Type} (i : nat) (l : list A) :
  (i < length l)%nat -> length (removeAt i l) = (length l - 1)%nat.
Proof.
  intros H. unfold removeAt. rewrite length_app, length_firstn, length_skipn. lia.
Qed.




Lemma removeAt_perm {A : Type} (i : nat) (l : list A) (a : A) :
  nth_error l i = Some a -> Permutation (a :: removeAt i l) l.
Proof.
  intros H. unfold removeAt.
  rewrite <- (firstn_skipn_middle i l H) at 3.
  apply Permutation_middle.
Qed.



End JoinFacts.


(** Why [closed] asks for two points: a list of one point has its first
    point equal to its last, but the double loop never looks at its only
    vertex; the square is emitted first although [(1, 1)] is nearer to the
    origin than any of its vertices. *)
Lemma single_point_polygon_skipped :
  optimizePathSequence Scenario.dotAndSquare
  = [[Scenario.pt 5 5; Scenario.pt 6 5; Scenario.pt 6 6; Scenario.pt 5 6; Scenario.pt 5 5];
     [Scenario.pt 1 1]]
  /\ last [Scenario.pt 1 1] origin = hd origin [Scenario.pt 1 1]
  /\ num_lt (distSq origin (Scenario.pt 1 1)) (distSq origin (Scenario.pt 5 5)) = true.
Proof. vm_compute. repeat split. Qed.

(* ================================================================== *)
(** ** The DST encoder beyond the header count *)

Lemma In_range (lo hi k : Z) : (lo <= k <= hi)%Z -> In k (range lo hi).
Proof.
  intros H. unfold range. apply in_map_iff.
  exists (Z.to_nat (k - lo)). split; [lia|].
  apply in_seq. lia.
Qed.

(** The table of [encodeTajimaStitch] over every step within 121 and every
    record type, checked entry by entry. *)
Lemma encodeTajimaStitch_table :
  forallb (fun t =>
    forallb (fun dx =>
      forallb (fun dy =>
        let r := encodeTajimaStitch dx dy t in
        Bool.eqb ((fst (decodeTajima r) =? dx)%Z && (snd (decodeTajima r) =? dy)%Z)
                 (existsb (Z.eqb dx) exactSteps && existsb (Z.eqb dy) exactSteps)
        && (Z.land (nth 2 r 0%Z) 192 =? controlBits t)%Z)
        (range (-121) 121))
      (range (-121) 121))
    [t_stitch; t_jump; t_stop; t_end]
  = true.
Proof. vm_compute. reflexivity. Qed.

Lemma existsb_eqb_In (d : Z) (l : list Z) : existsb (Z.eqb d) l = true <-> In d l.
Proof.
  rewrite existsb_exists. split.
  - intros [k [Hin E]]. apply Z.eqb_eq in E. subst k. exact Hin.
  - intros Hin. exists d. split; [exact Hin | apply Z.eqb_refl].
Qed.

(** X2.  A record of [encodeTajimaStitch] for a step within 121 reads back as
    the step exactly when both components are among [exactSteps]; bits 7
    and 6 of its third byte are the control bits of its type. *)
Theorem encodeTajimaStitch_reads_back_iff (dx dy : Z) (t : TajimaType) :
  (Z.abs dx <= 121)%Z -> (Z.abs dy <= 121)%Z ->
  (decodeTajima (encodeTajimaStitch dx dy t) = (dx, dy)
   <-> In dx exactSteps /\ In dy exactSteps)
  /\ Z.land (nth 2 (encodeTajimaStitch dx dy t) 0%Z) 192 = controlBits t.
Proof.
  intros Hx Hy.
  pose proof encodeTajimaStitch_table as T.
  rewrite forallb_forall in T.
  assert (Ht : In t [t_stitch; t_jump; t_stop; t_end]) by (destruct t; simpl; auto).
  specialize (T t Ht). rewrite forallb_forall in T.
  specialize (T dx (In_range (-121) 121 dx ltac:(lia))). rewrite forallb_forall in T.
  specialize (T dy (In_range (-121) 121 dy ltac:(lia))).
  cbv zeta in T. apply andb_true_iff in T. destruct T as [T1 T2].
  apply Z.eqb_eq in T2. split; [|exact T2].
  apply Bool.eqb_prop in T1.
  destruct (decodeTajima (encodeTajimaStitch dx dy t)) as [ex ey].
  change (fst (ex, ey)) with ex in T1. change (snd (ex, ey)) with ey in T1.
  rewrite <- !existsb_eqb_In, <- andb_true_iff, <- T1, andb_true_iff, !Z.eqb_eq.
  split.
  - intros E. injection E as -> ->. split; reflexivity.
  - intros [-> ->]. reflexivity.
Qed.

Lemma encodeTajimaStitch_reads_back_iff_witness :
  (decodeTajima (encodeTajimaStitch 13 (-40) t_jump) = (13, -40)%Z
   <-> In 13%Z exactSteps /\ In (-40)%Z exactSteps)
  /\ Z.land (nth 2 (encodeTajimaStitch 13 (-40) t_jump) 0%Z) 192 = controlBits t_jump.
Proof.
  apply (encodeTajimaStitch_reads_back_iff 13 (-40) t_jump); simpl; lia.
Defined.

Lemma dstSplit_position (rounds : nat) :
  forall (dx dy : Z) (st : DstState),
    let '(dx', dy', st') := dstSplit rounds dx dy st in
    (d_currentX st' + dx' = d_currentX st + dx
     /\ d_currentY st' + dy' = d_currentY st + dy)%Z.
Proof.
  induction rounds as [|rounds IH]; intros dx dy st; simpl.
  - destruct (_ || _); split; reflexivity.
  - destruct (_ || _); [|split; reflexivity].
    match goal with |- context [dstSplit rounds ?a ?b ?s] =>
      specialize (IH a b s); destruct (dstSplit rounds a b s) as [[dx' dy'] st']
    end.
    simpl in IH. lia.
Qed.

(** The splitting loop writes the encodings of the calls of
    [dstSplitCalls], each a step within 121, moves by their sum and leaves
    the rest of the state alone. *)
Lemma dstSplit_calls (rounds : nat) :
  forall (dx dy : Z) (st : DstState),
    dstSplit rounds dx dy st
    = (fst (snd (dstSplitCalls rounds dx dy)), snd (snd (dstSplitCalls rounds dx dy)),
       mkDst (d_minX st) (d_maxX st) (d_minY st) (d_maxY st)
         (fst (dstMove (d_currentX st, d_currentY st) (fst (dstSplitCalls rounds dx dy))))
         (snd (dstMove (d_currentX st, d_currentY st) (fst (dstSplitCalls rounds dx dy))))
         (d_stitchCount st + Z.of_nat (length (fst (dstSplitCalls rounds dx dy))))%Z
         (d_bodyParts st ++ map encodeCall (fst (dstSplitCalls rounds dx dy))))
    /\ Forall (fun c : DstCall =>
                 (Z.abs (fst (fst c)) <= 121 /\ Z.abs (snd (fst c)) <= 121)%Z)
         (fst (dstSplitCalls rounds dx dy)).
Proof.
  induction rounds as [|rounds IH]; intros dx dy st; cbn [dstSplit dstSplitCalls].
  - destruct (_ || _); simpl; (split; [|constructor]);
      rewrite Z.add_0_r, app_nil_r; destruct st; reflexivity.
  - destruct (_ || _).
    + cbv zeta.
      match goal with |- context [dstSplit rounds ?a ?b ?s] =>
        destruct (IH a b s) as [E F]; rewrite E
      end.
      destruct (dstSplitCalls rounds (dx - clampStep MAX_STEP_DST dx)
                  (dy - clampStep MAX_STEP_DST dy)) as [calls residue].
      cbn [fst snd d_minX d_maxX d_minY d_maxY d_currentX d_currentY d_stitchCount
           d_bodyParts length map dstMove fold_left] in *.
      split.
      * f_equal. f_equal; [lia|]. rewrite <- app_assoc. reflexivity.
      * constructor; [|exact F]. cbn [fst snd]. unfold MAX_STEP_DST.
        destruct (clampStep_cases 121 dx) as [[? ->]|[[? ->]|[? ->]]]; [lia|..];
          destruct (clampStep_cases 121 dy) as [[? ->]|[[? ->]|[? ->]]]; lia.
    + simpl. split; [|constructor].
      rewrite Z.add_0_r, app_nil_r. destruct st; reflexivity.
Qed.

Section DstFacts.

Context {num : Type} {N : JSNumber num}.

Lemma dstStep_end (st : DstState) (s : Stitch num) :
  type s = end_ -> dstStep st s = st.
Proof. intros E. unfold dstStep. rewrite E. reflexivity. Qed.

Lemma dstStep_moves (st : DstState) (s : Stitch num) :
  type s <> end_ ->
  d_currentX (dstStep st s) = tenths (x s)
  /\ d_currentY (dstStep st s) = tenths (y s).
Proof.
  intros T. unfold dstStep.
  destruct (type s) eqn:E; try congruence;
    match goal with
    | |- context [dstSplit ?r ?dx ?dy ?st0] =>
        pose proof (dstSplit_position r dx dy st0) as P;
        destruct (dstSplit r dx dy st0) as [[dx' dy'] st']
    end; simpl in *; lia.
Qed.

(** One round of the loop writes the encodings of the calls of
    [dstStepCalls], each a step within 121, and moves by their sum. *)
Lemma dstStep_calls (st : DstState) (s : Stitch num) :
  d_bodyParts (dstStep st s)
  = d_bodyParts st ++ map encodeCall (dstStepCalls (d_currentX st, d_currentY st) s)
  /\ (d_currentX (dstStep st s), d_currentY (dstStep st s))
     = dstMove (d_currentX st, d_currentY st)
         (dstStepCalls (d_currentX st, d_currentY st) s)
  /\ Forall (fun c : DstCall =>
               (Z.abs (fst (fst c)) <= 121 /\ Z.abs (snd (fst c)) <= 121)%Z)
       (dstStepCalls (d_currentX st, d_currentY st) s).
Proof.
  unfold dstStep, dstStepCalls. cbn [fst snd].
  destruct (type s) eqn:E;
    try (rewrite app_nil_r; repeat split; constructor);
    cbv zeta;
    match goal with
    | |- context [dstSplit ?r ?dx ?dy ?st0] =>
        destruct (dstSplit_calls r dx dy st0) as [S F]; rewrite S;
        pose proof (dstSplit_exits r dx dy st0 ltac:(lia)) as X; rewrite S in X;
        destruct (dstSplitCalls r dx dy) as [calls [dx' dy']]
    end;
    cbn [fst snd d_currentX d_currentY d_bodyParts] in *;
    (split; [rewrite map_app, app_assoc; reflexivity|]);
    (split; [unfold dstMove; rewrite fold_left_app; reflexivity|]);
    (apply Forall_app; split; [exact F|]; constructor; [exact X | constructor]).
Qed.

Lemma dstTargets_app (l1 l2 : list (Stitch num)) :
  dstTargets (l1 ++ l2) = dstTargets l1 ++ dstTargets l2.
Proof. unfold dstTargets. rewrite filter_app, map_app. reflexivity. Qed.

Lemma dstLoop_snoc (l : list (Stitch num)) (s : Stitch num) :
  dstLoop (l ++ [s]) = dstStep (dstLoop l) s.
Proof. unfold dstLoop. rewrite fold_left_app. reflexivity. Qed.

Lemma dstLoop_position (stitches : list (Stitch num)) :
  (d_currentX (dstLoop stitches), d_currentY (dstLoop stitches))
  = last (dstTargets stitches) (0, 0)%Z.
Proof.
  induction stitches as [|s l IH] using rev_ind; [reflexivity|].
  rewrite dstLoop_snoc, dstTargets_app.
  destruct (StitchKind_eqb (type s) end_) eqn:E.
  - assert (T : type s = end_) by (destruct (type s); simpl in E; congruence).
    rewrite (dstStep_end _ s T). unfold dstTargets at 2. simpl. rewrite E. simpl.
    rewrite app_nil_r. exact IH.
  - assert (T : type s <> end_) by (intros T; rewrite T in E; discriminate).
    destruct (dstStep_moves (dstLoop l) s T) as [-> ->].
    unfold dstTargets at 2. simpl. rewrite E. simpl.
    rewrite last_last. reflexivity.
Qed.

(** X3.  The encoder's position after the loop is the rounded position of the
    last record that is not an [end], whatever splitting went on: the
    steps of the records written for a stitch add up to its delta. *)
Theorem dst_position_is_last_target (stitches : list (Stitch num)) :
  (d_currentX (dstLoop stitches), d_currentY (dstLoop stitches))
  = last (dstTargets stitches) (0, 0)%Z.
Proof. exact (dstLoop_position stitches). Qed.

Lemma dstLoop_calls (stitches : list (Stitch num)) :
  forall st : DstState,
    d_bodyParts (fold_left dstStep stitches st)
    = d_bodyParts st ++ map encodeCall (dstCalls (d_currentX st, d_currentY st) stitches)
    /\ (d_currentX (fold_left dstStep stitches st),
        d_currentY (fold_left dstStep stitches st))
       = dstMove (d_currentX st, d_currentY st)
           (dstCalls (d_currentX st, d_currentY st) stitches)
    /\ Forall (fun c : DstCall =>
                 (Z.abs (fst (fst c)) <= 121 /\ Z.abs (snd (fst c)) <= 121)%Z)
         (dstCalls (d_currentX st, d_currentY st) stitches).
Proof.
  induction stitches as [|s l IH]; intros st; cbn [fold_left dstCalls].
  - rewrite app_nil_r. repeat split. constructor.
  - cbv zeta. destruct (dstStep_calls st s) as (B & P & F).
    destruct (IH (dstStep st s)) as (B' & P' & F').
    rewrite P in B', P', F'.
    split; [rewrite B', B, map_app, app_assoc; reflexivity|].
    split; [rewrite P'; unfold dstMove; rewrite fold_left_app; reflexivity|].
    apply Forall_app. split; assumption.
Qed.

(** X4.  The splitting loop never hands [encodeTajimaStitch] a step of more
    than 121 units on an axis: the body is, record by record, the encoding
    of the calls the loop makes followed by the end-of-file record, every
    call is within 121 on each axis, and the steps of the calls add up to
    the rounded position of the last record that is not an [end]. *)
Theorem dst_records_within_range (stitches : list (Stitch num)) :
  dstBodyParts stitches
  = map encodeCall (dstCalls (0, 0)%Z stitches ++ [(0, 0, t_end)%Z])
  /\ Forall (fun c : DstCall =>
               (Z.abs (fst (fst c)) <= 121 /\ Z.abs (snd (fst c)) <= 121)%Z)
       (dstCalls (0, 0)%Z stitches)
  /\ dstMove (0, 0)%Z (dstCalls (0, 0)%Z stitches) = last (dstTargets stitches) (0, 0)%Z.
Proof.
  destruct (dstLoop_calls stitches dstInit) as (B & P & F).
  cbn [dstInit d_currentX d_currentY d_bodyParts app] in B, P, F.
  split; [|split].
  - unfold dstBodyParts, dstLoop. rewrite B, map_app. reflexivity.
  - exact F.
  - rewrite <- P. apply dstLoop_position.
Qed.

Lemma dstStep_count_grows (st : DstState) (s : Stitch num) :
  type s <> end_ -> (d_stitchCount st + 1 <= d_stitchCount (dstStep st s))%Z.
Proof.
  intros T. unfold dstStep.
  assert (G : forall r dx dy st0,
             (d_stitchCount st0 <= d_stitchCount (snd (dstSplit r dx dy st0)))%Z).
  { induction r as [|r IH]; intros dx dy st0; simpl.
    - destruct (_ || _); simpl; lia.
    - destruct (_ || _); simpl; [|lia].
      match goal with |- context [dstSplit r ?a ?b ?s0] =>
        specialize (IH a b s0) end. simpl in IH. lia. }
  destruct (type s) eqn:E; try congruence;
    match goal with
    | |- context [dstSplit ?r ?dx ?dy ?st0] =>
        pose proof (G r dx dy st0) as P;
        destruct (dstSplit r dx dy st0) as [[dx' dy'] st']
    end; simpl in *; lia.
Qed.

(** X5.  The file is the 512-byte header and three bytes for each counted
    record and for the end-of-file record; the count is at least the number
    of records of the input that are not [end]. *)
Theorem createDstFile_length (stitches : list (Stitch num)) (w h : num) :
  Z.of_nat (length (createDstFile stitches w h))
  = (512 + 3 * (d_stitchCount (dstLoop stitches) + 1))%Z
  /\ (Z.of_nat (length (dstTargets stitches)) <= d_stitchCount (dstLoop stitches))%Z.
Proof.
  split.
  - unfold createDstFile, dstBodyParts.
    rewrite length_app, dstHeader_length.
    destruct (dstLoop_counted stitches) as [Hc Hl].
    rewrite length_concat_records.
    + rewrite length_app, Hc.
      change (length [encodeTajimaStitch 0 0 t_end]) with 1%nat. lia.
    + apply Forall_app. split; [exact Hl|]. constructor; [|constructor].
      apply encodeTajimaStitch_length.
  - induction stitches as [|s l IH] using rev_ind; [simpl; reflexivity|].
    rewrite dstLoop_snoc, dstTargets_app, length_app.
    destruct (StitchKind_eqb (type s) end_) eqn:E.
    + assert (T : type s = end_) by (destruct (type s); simpl in E; congruence).
      rewrite (dstStep_end _ s T). unfold dstTargets at 2. simpl. rewrite E. simpl. lia.
    + assert (T : type s <> end_) by (intros T; rewrite T in E; discriminate).
      pose proof (dstStep_count_grows (dstLoop l) s T).
      unfold dstTargets at 2. simpl. rewrite E. simpl. lia.
Qed.

End DstFacts.


(** *** The header, field by field *)

Lemma setByte_app (a : list Z) (b0 v : Z) (l : list Z) :
  setByte (length a) v (a ++ b0 :: l) = a ++ v :: l.
Proof. induction a as [|a0 a IH]; simpl; [reflexivity | rewrite IH; reflexivity]. Qed.

Lemma writeCodes_over (cs : list Z) :
  forall (a b c : list Z),
    length b = length cs ->
    writeCodes cs (length a) (a ++ b ++ c) = a ++ cs ++ c.
Proof.
  induction cs as [|c0 cs IH]; intros a b c Hb.
  - destruct b; [reflexivity | discriminate].
  - destruct b as [|b0 b]; [discriminate|]. simpl.
    rewrite setByte_app.
    replace (S (length a)) with (length (a ++ [c0])) by (rewrite length_app; simpl; lia).
    replace (a ++ c0 :: b ++ c) with ((a ++ [c0]) ++ b ++ c)
      by (rewrite <- app_assoc; reflexivity).
    rewrite IH by (simpl in Hb; lia).
    rewrite <- app_assoc. reflexivity.
Qed.

(** A store at [off] into [done ++ gap ++ block ++ tail], where the gap
    ends at [off] and the block is as long as the string. *)
Lemma writeCodes_field (cs done gap block tail : list Z) (off : nat) :
  off = (length done + length gap)%nat ->
  length block = length cs ->
  writeCodes cs off (done ++ gap ++ block ++ tail) = (done ++ gap ++ cs) ++ tail.
Proof.
  intros -> Hb.
  rewrite <- length_app, app_assoc, writeCodes_over by exact Hb.
  rewrite <- !app_assoc. reflexivity.
Qed.

Lemma padStart_length (n : Z) (k : nat) :
  (0 <= n < 10 ^ Z.of_nat (S k))%Z ->
  String.length (padStart (toString n) (S k) "0") = S k.
Proof.
  intros H. unfold padStart. rewrite length_append, length_repeatChar.
  pose proof (toString_length n k H). lia.
Qed.

Lemma fold_max_nonneg (l : list Z) : forall acc, (0 <= acc -> 0 <= fold_left Z.max l acc)%Z.
Proof. induction l as [|a l IH]; intros acc H; simpl; [exact H | apply IH; lia]. Qed.

Lemma positiveExtent_fold (ts : list Z) :
  forall acc, positiveExtent (fold_left upperBound ts acc)
              = fold_left Z.max ts (positiveExtent acc).
Proof.
  induction ts as [|t ts IH]; intros acc; simpl; [reflexivity|].
  rewrite IH. f_equal.
  destruct acc as [m|]; simpl; [|reflexivity].
  destruct (t >? m)%Z eqn:E; simpl;
    [apply Z.gtb_lt in E | rewrite Z.gtb_ltb in E; apply Z.ltb_ge in E]; lia.
Qed.

Lemma negativeExtent_fold (ts : list Z) :
  forall acc, negativeExtent (fold_left lowerBound ts acc)
              = fold_left Z.max (map Z.opp ts) (negativeExtent acc).
Proof.
  induction ts as [|t ts IH]; intros acc; simpl; [reflexivity|].
  rewrite IH. f_equal.
  destruct acc as [m|]; simpl; [|lia].
  destruct (t <? m)%Z eqn:E; simpl;
    [apply Z.ltb_lt in E | apply Z.ltb_ge in E]; lia.
Qed.

Lemma dstSplit_bounds (rounds : nat) :
  forall (dx dy : Z) (st : DstState),
    let st' := snd (dstSplit rounds dx dy st) in
    d_minX st' = d_minX st /\ d_maxX st' = d_maxX st
    /\ d_minY st' = d_minY st /\ d_maxY st' = d_maxY st.
Proof.
  induction rounds as [|rounds IH]; intros dx dy st; simpl.
  - destruct (_ || _); simpl; auto.
  - destruct (_ || _); simpl; auto.
    match goal with |- context [dstSplit rounds ?a ?b ?s] =>
      specialize (IH a b s) end.
    simpl in IH. exact IH.
Qed.

Section DstHeader.

Context {num : Type} {N : JSNumber num}.

Lemma dstStep_bounds (st : DstState) (s : Stitch num) :
  type s <> end_ ->
  d_minX (dstStep st s) = lowerBound (d_minX st) (tenths (x s))
  /\ d_maxX (dstStep st s) = upperBound (d_maxX st) (tenths (x s))
  /\ d_minY (dstStep st s) = lowerBound (d_minY st) (tenths (y s))
  /\ d_maxY (dstStep st s) = upperBound (d_maxY st) (tenths (y s)).
Proof.
  intros T. unfold dstStep.
  destruct (type s) eqn:E; try congruence;
    match goal with
    | |- context [dstSplit ?r ?dx ?dy ?st0] =>
        pose proof (dstSplit_bounds r dx dy st0) as B;
        destruct (dstSplit r dx dy st0) as [[dx' dy'] st']
    end; simpl in *; exact B.
Qed.

Lemma dstTargets_one (s : Stitch num) :
  dstTargets [s]
  = if StitchKind_eqb (type s) end_ then [] else [(tenths (x s), tenths (y s))].
Proof. unfold dstTargets. simpl. destruct (StitchKind_eqb (type s) end_); reflexivity. Qed.

Lemma dstLoop_bounds (stitches : list (Stitch num)) :
  let st := dstLoop stitches in
  let ts := dstTargets stitches in
  d_minX st = fold_left lowerBound (map fst ts) None
  /\ d_maxX st = fold_left upperBound (map fst ts) None
  /\ d_minY st = fold_left lowerBound (map snd ts) None
  /\ d_maxY st = fold_left upperBound (map snd ts) None.
Proof.
  cbv zeta.
  induction stitches as [|s l IH] using rev_ind; [simpl; auto|].
  rewrite dstLoop_snoc, dstTargets_app, !map_app, !fold_left_app.
  destruct IH as (I1 & I2 & I3 & I4).
  destruct (StitchKind_eqb (type s) end_) eqn:E.
  - assert (T : type s = end_) by (destruct (type s); simpl in E; congruence).
    rewrite (dstStep_end _ s T), dstTargets_one, E. simpl. auto.
  - assert (T : type s <> end_) by (intros T; rewrite T in E; discriminate).
    destruct (dstStep_bounds (dstLoop l) s T) as (-> & -> & -> & ->).
    rewrite dstTargets_one, E. simpl.
    rewrite I1, I2, I3, I4. auto.
Qed.

(** X6.  The 512 bytes of the header: the label, the stitch count, the number
    of colour changes, the four extents (the largest of 0 and the
    coordinates, or their opposites, of the records that are not [end]),
    the four constant fields and the PD field, each at its offset, with
    spaces everywhere else.  The bounds say that each number fits the
    digits of its field. *)
Theorem dst_header_layout (stitches : list (Stitch num)) (w h : num) :
  let ts := dstTargets stitches in
  let count := d_stitchCount (dstLoop stitches) in
  let co := Z.of_nat (length (filter isColorChange stitches)) in
  let pX := fold_left Z.max (map fst ts) 0%Z in
  let nX := fold_left Z.max (map Z.opp (map fst ts)) 0%Z in
  let pY := fold_left Z.max (map snd ts) 0%Z in
  let nY := fold_left Z.max (map Z.opp (map snd ts)) 0%Z in
  (count < 10 ^ 7)%Z -> (co < 10 ^ 3)%Z ->
  (pX < 10 ^ 5)%Z -> (nX < 10 ^ 5)%Z -> (pY < 10 ^ 5)%Z -> (nY < 10 ^ 5)%Z ->
  firstn 512 (createDstFile stitches w h)
  = charCodes "LA:SR_LUCAS        " ++ repeat 32%Z 4
    ++ charCodes ("ST:" ++ padStart (toString count) 7 "0") ++ repeat 32%Z 6
    ++ charCodes ("CO:" ++ padStart (toString co) 3 "0") ++ repeat 32%Z 9
    ++ charCodes ("+X:" ++ padStart (toString pX) 5 "0") ++ repeat 32%Z 7
    ++ charCodes ("-X:" ++ padStart (toString nX) 5 "0") ++ repeat 32%Z 7
    ++ charCodes ("+Y:" ++ padStart (toString pY) 5 "0") ++ repeat 32%Z 7
    ++ charCodes ("-Y:" ++ padStart (toString nY) 5 "0") ++ repeat 32%Z 7
    ++ charCodes "AX:+00000" ++ repeat 32%Z 6
    ++ charCodes "AY:+00000" ++ repeat 32%Z 6
    ++ charCodes "MX:+00000" ++ repeat 32%Z 6
    ++ charCodes "MY:+00000" ++ repeat 32%Z 6
    ++ charCodes "PD:******" ++ repeat 32%Z 329.
Proof.
  intros ts count co pX nX pY nY Hc Hco HpX HnX HpY HnY.
  unfold createDstFile.
  rewrite firstn_app, dstHeader_length. simpl (512 - 512)%nat.
  rewrite firstn_O, app_nil_r.
  rewrite firstn_all2 by (rewrite dstHeader_length; lia).
  unfold dstHeader, writeString. cbv zeta.
  destruct (dstLoop_bounds stitches) as (B1 & B2 & B3 & B4). cbv zeta in B1, B2, B3, B4.
  rewrite B1, B2, B3, B4.
  rewrite !positiveExtent_fold, !negativeExtent_fold.
  change (positiveExtent None) with 0%Z. change (negativeExtent None) with 0%Z.
  fold ts count co pX nX pY nY.
  assert (C0 : (0 <= count)%Z).
  { subst count. destruct (dstLoop_counted stitches) as [-> _]. lia. }
  assert (P1 : (0 <= pX)%Z) by (apply fold_max_nonneg; lia).
  assert (P2 : (0 <= nX)%Z) by (apply fold_max_nonneg; lia).
  assert (P3 : (0 <= pY)%Z) by (apply fold_max_nonneg; lia).
  assert (P4 : (0 <= nY)%Z) by (apply fold_max_nonneg; lia).
  assert (L : forall tag n k,
             String.length tag = 3%nat -> (0 <= n < 10 ^ Z.of_nat (S k))%Z ->
             length (charCodes (tag ++ padStart (toString n) (S k) "0")) = (3 + S k)%nat).
  { intros tag n k Ht Hn.
    rewrite length_charCodes, length_append, padStart_length by exact Hn. lia. }
  pose proof (L "ST:"%string count 6%nat eq_refl ltac:(split; [lia | exact Hc])) as LST.
  pose proof (L "CO:"%string co 2%nat eq_refl ltac:(split; [lia | exact Hco])) as LCO.
  pose proof (L "+X:"%string pX 4%nat eq_refl ltac:(split; [lia | exact HpX])) as LPX.
  pose proof (L "-X:"%string nX 4%nat eq_refl ltac:(split; [lia | exact HnX])) as LNX.
  pose proof (L "+Y:"%string pY 4%nat eq_refl ltac:(split; [lia | exact HpY])) as LPY.
  pose proof (L "-Y:"%string nY 4%nat eq_refl ltac:(split; [lia | exact HnY])) as LNY.
  set (ST := charCodes ("ST:" ++ padStart (toString count) 7 "0")) in *.
  set (CO := charCodes ("CO:" ++ padStart (toString co) 3 "0")) in *.
  set (PX := charCodes ("+X:" ++ padStart (toString pX) 5 "0")) in *.
  set (NX := charCodes ("-X:" ++ padStart (toString nX) 5 "0")) in *.
  set (PY := charCodes ("+Y:" ++ padStart (toString pY) 5 "0")) in *.
  set (NY := charCodes ("-Y:" ++ padStart (toString nY) 5 "0")) in *.
  change (repeat 32%Z 512)
    with ([] ++ [] ++ repeat 32%Z 19 ++ repeat 32%Z 4 ++ repeat 32%Z 10 ++ repeat 32%Z 6
          ++ repeat 32%Z 6 ++ repeat 32%Z 9 ++ repeat 32%Z 8 ++ repeat 32%Z 7
          ++ repeat 32%Z 8 ++ repeat 32%Z 7 ++ repeat 32%Z 8 ++ repeat 32%Z 7
          ++ repeat 32%Z 8 ++ repeat 32%Z 7 ++ repeat 32%Z 9 ++ repeat 32%Z 6
          ++ repeat 32%Z 9 ++ repeat 32%Z 6 ++ repeat 32%Z 9 ++ repeat 32%Z 6
          ++ repeat 32%Z 9 ++ repeat 32%Z 6 ++ repeat 32%Z 9 ++ repeat 32%Z 329).
  rewrite (writeCodes_field _ [] [] (repeat 32%Z 19)) by reflexivity.
  rewrite writeCodes_field
    by (rewrite ?length_app, ?repeat_length, ?LST; reflexivity).
  rewrite writeCodes_field
    by (rewrite ?length_app, ?repeat_length, ?LST, ?LCO; reflexivity).
  rewrite writeCodes_field
    by (rewrite ?length_app, ?repeat_length, ?LST, ?LCO, ?LPX; reflexivity).
  rewrite writeCodes_field
    by (rewrite ?length_app, ?repeat_length, ?LST, ?LCO, ?LPX, ?LNX; reflexivity).
  rewrite writeCodes_field
    by (rewrite ?length_app, ?repeat_length, ?LST, ?LCO, ?LPX, ?LNX, ?LPY; reflexivity).
  rewrite writeCodes_field
    by (rewrite ?length_app, ?repeat_length, ?LST, ?LCO, ?LPX, ?LNX, ?LPY, ?LNY; reflexivity).
  do 5 (rewrite writeCodes_field
    by (rewrite ?length_app, ?repeat_length, ?LST, ?LCO, ?LPX, ?LNX, ?LPY, ?LNY; reflexivity)).
  rewrite <- !app_assoc. reflexivity.
Qed.

End DstHeader.

Lemma dst_header_layout_witness :
  firstn 512 (createDstFile Scenario.boundsList (num_lit 100) (num_lit 100))
  = charCodes "LA:SR_LUCAS        " ++ repeat 32%Z 4
    ++ charCodes "ST:0000002" ++ repeat 32%Z 6
    ++ charCodes "CO:000" ++ repeat 32%Z 9
    ++ charCodes "+X:00050" ++ repeat 32%Z 7
    ++ charCodes "-X:00000" ++ repeat 32%Z 7
    ++ charCodes "+Y:00000" ++ repeat 32%Z 7
    ++ charCodes "-Y:00032" ++ repeat 32%Z 7
    ++ charCodes "AX:+00000" ++ repeat 32%Z 6
    ++ charCodes "AY:+00000" ++ repeat 32%Z 6
    ++ charCodes "MX:+00000" ++ repeat 32%Z 6
    ++ charCodes "MY:+00000" ++ repeat 32%Z 6
    ++ charCodes "PD:******" ++ repeat 32%Z 329.
Proof.
  rewrite (dst_header_layout Scenario.boundsList (num_lit 100) (num_lit 100))
    by (vm_compute; reflexivity).
  vm_compute. reflexivity.
Defined.

(** The round trip of [exp_round_trip] on a design that ends with a jump
    of 50 mm, which the encoder splits into five records. *)
Lemma exp_round_trip_witness :
  let st := expLoop ([Scenario.st 0 0 stitch] ++ [Scenario.st 50 (-3.2) jump]) in
  decodeExp (length (e_written st)) (0, 0)%Z (e_written st)
  = (tenths (x (Scenario.st 50 (-3.2) jump)), tenths (y (Scenario.st 50 (-3.2) jump))).
Proof.
  apply (exp_round_trip [Scenario.st 0 0 stitch] (Scenario.st 50 (-3.2) jump)).
  right. reflexivity.
Defined.

(* ================================================================== *)
(** ** Path simplification *)

(** *** Subsequences and neighbours *)

Lemma subsequence_refl {A : Type} (l : list A) : subsequence l l.
Proof. induction l; constructor; assumption. Qed.

Lemma subsequence_length {A : Type} (l1 l2 : list A) :
  subsequence l1 l2 -> (length l1 <= length l2)%nat.
Proof. induction 1; simpl; lia. Qed.

Lemma subsequence_app {A : Type} (l1 l2 m1 m2 : list A) :
  subsequence l1 l2 -> subsequence m1 m2 -> subsequence (l1 ++ m1) (l2 ++ m2).
Proof.
  intros H1 H2. induction H1 as [l | a l1 l2 _ IH | a l1 l2 _ IH]; simpl.
  - induction l as [|b l IHl]; simpl; [exact H2 | constructor; exact IHl].
  - constructor. exact IH.
  - constructor. exact IH.
Qed.

Lemma subsequence_removelast {A : Type} (l1 l2 : list A) :
  subsequence l1 l2 -> subsequence (removelast l1) (removelast l2).
Proof.
  induction 1 as [l | a l1 l2 H IH | a l1 l2 H IH].
  - constructor.
  - destruct l1 as [|b l1].
    + simpl. constructor.
    + destruct l2 as [|c l2]; [inversion H|].
      change (subsequence (a :: removelast (b :: l1)) (a :: removelast (c :: l2))).
      constructor. exact IH.
  - destruct l2 as [|c l2].
    + inversion H. simpl. constructor.
    + change (subsequence (removelast l1) (a :: removelast (c :: l2))).
      constructor. exact IH.
Qed.

Lemma subsequence_ends {A : Type} (d : A) (l : list A) :
  (2 <= length l)%nat -> subsequence [hd d l; last l d] l.
Proof.
  destruct l as [|a l]; simpl; [lia|]. intros H.
  constructor.
  destruct l as [|b l]; [simpl in H; lia|]. clear H.
  revert b. induction l as [|c l IH]; intros b.
  - constructor. constructor.
  - apply subsequence_skip. apply IH.
Qed.

Lemma subsequence_In {A : Type} (l1 l2 : list A) (a : A) :
  subsequence l1 l2 -> In a l1 -> In a l2.
Proof.
  induction 1 as [l | b l1 l2 _ IH | b l1 l2 _ IH]; simpl; intros H.
  - contradiction.
  - destruct H; auto.
  - auto.
Qed.

Lemma last_app_right {A : Type} (d : A) (l1 l2 : list A) :
  l2 <> [] -> last (l1 ++ l2) d = last l2 d.
Proof.
  intros H. induction l1 as [|a l1 IH]; [reflexivity|].
  simpl. rewrite IH. destruct (l1 ++ l2) eqn:E; [|reflexivity].
  apply app_eq_nil in E. destruct E. contradiction.
Qed.

Lemma last_skipn {A : Type} (d : A) (n : nat) :
  forall l : list A, (n < length l)%nat -> last (skipn n l) d = last l d.
Proof.
  induction n as [|n IH]; intros l H; [reflexivity|].
  destruct l as [|a l]; simpl in H; [lia|].
  rewrite skipn_cons, IH by lia.
  destruct l; [simpl in H; lia | reflexivity].
Qed.

Lemma hd_skipn {A : Type} (d : A) (n : nat) :
  forall l : list A, hd d (skipn n l) = nth n l d.
Proof.
  induction n as [|n IH]; intros [|a l]; simpl; auto.
Qed.

Lemma last_firstn {A : Type} (d : A) (n : nat) :
  forall l : list A, (n < length l)%nat -> last (firstn (S n) l) d = nth n l d.
Proof.
  induction n as [|n IH]; intros [|a l] H; simpl in H; try lia.
  - reflexivity.
  - specialize (IH l ltac:(lia)).
    destruct l as [|b l]; [simpl in H; lia|].
    change (last (a :: firstn (S n) (b :: l)) d = nth n (b :: l) d).
    rewrite <- IH. reflexivity.
Qed.

Lemma adjacent_right {A : Type} (a b : A) (l1 l2 : list A) :
  adjacent a b l2 -> adjacent a b (l1 ++ l2).
Proof.
  intros [u [v ->]]. exists (l1 ++ u), v. rewrite <- app_assoc. reflexivity.
Qed.

Lemma adjacent_left {A : Type} (d : A) (a b : A) (l1 l2 : list A) :
  adjacent a b l1 -> l2 <> [] -> last l1 d = hd d l2 ->
  adjacent a b (removelast l1 ++ l2).
Proof.
  intros [u [v ->]] Hne Hl.
  destruct v as [|c v].
  - replace (removelast (u ++ [a; b])) with (u ++ [a]).
    + destruct l2 as [|e l2]; [congruence|].
      replace (last (u ++ [a; b]) d) with b in Hl.
      * simpl in Hl. subst e. exists u, l2. rewrite <- app_assoc. reflexivity.
      * change (u ++ [a; b]) with (u ++ [a] ++ [b]). rewrite app_assoc, last_last.
        reflexivity.
    + change (u ++ [a; b]) with (u ++ [a] ++ [b]).
      rewrite app_assoc, removelast_last. reflexivity.
  - exists u, (removelast (c :: v) ++ l2).
    rewrite removelast_app by discriminate.
    change (removelast (a :: b :: c :: v)) with (a :: b :: removelast (c :: v)).
    rewrite <- app_assoc. reflexivity.
Qed.

Section SimplifyFacts.

Context {num : Type} {N : JSNumber num}.
Local Open Scope num_scope.

(** The index the scan ends with is the one it started with, the maximum
    then being untouched, or the index of an interior point. *)
Lemma farthest_index (first last_ : Point num) (interior : list (Point num)) :
  forall (i index : nat) (dmax : num),
    let r := farthest first last_ i interior index dmax in
    (fst r = index /\ snd r = dmax)
    \/ (i <= fst r < i + length interior)%nat.
Proof.
  induction interior as [|p rest IH]; intros i index dmax; simpl.
  - left. auto.
  - destruct (num_lt dmax (pointLineDist p first last_)).
    + destruct (IH (S i) i (pointLineDist p first last_)) as [[E _]|H].
      * right. rewrite E. lia.
      * right. lia.
    + destruct (IH (S i) index dmax) as [H|H]; [left; exact H | right; lia].
Qed.

Lemma interior_length (points : list (Point num)) :
  length (removelast (tl points)) = (length points - 2)%nat.
Proof.
  destruct points as [|a l]; simpl; [reflexivity|].
  destruct l as [|b l]; [reflexivity|].
  rewrite removelast_firstn_len, length_firstn. simpl. lia.
Qed.

(** What [simplifyPath] returns, for any recursion budget that covers the
    length of the path. *)
Lemma simplifyPath_spec (epsilon : num) :
  num_lt epsilon zero = false ->
  forall (depth : nat) (points : list (Point num)),
    (length points <= depth)%nat ->
    exists out,
      simplifyPath depth points epsilon = Returned out
      /\ subsequence out points
      /\ hd origin out = hd origin points
      /\ last out origin = last points origin
      /\ (2 <= length points -> 2 <= length out)%nat.
Proof.
  intros He. induction depth as [|depth IH]; intros points Hd.
  - destruct points; [|simpl in Hd; lia].
    exists []. simpl. repeat split; auto; try constructor; try (simpl; lia).
  - cbn [simplifyPath].
    destruct (length points <? 3)%nat eqn:E3.
    + exists points. repeat split; auto. apply subsequence_refl.
    + apply Nat.ltb_ge in E3.
      pose proof (farthest_index (hd origin points) (last points origin)
                    (removelast (tl points)) 1 0 zero) as F.
      cbv zeta in F. rewrite interior_length in F.
      destruct (farthest (hd origin points) (last points origin) 1
                  (removelast (tl points)) 0 zero) as [index dmax].
      simpl in F.
      destruct (num_lt epsilon dmax) eqn:Ed.
      * destruct F as [[_ F]|F]; [subst dmax; congruence|].
        destruct (IH (firstn (index + 1) points)) as (o1 & R1 & S1 & H1 & L1 & N1).
        { rewrite length_firstn. lia. }
        destruct (IH (skipn index points)) as (o2 & R2 & S2 & H2 & L2 & N2).
        { rewrite length_skipn. lia. }
        rewrite R1, R2. simpl.
        rewrite length_firstn in N1. rewrite length_skipn in N2.
        specialize (N1 ltac:(lia)). specialize (N2 ltac:(lia)).
        exists (firstn (length o1 - 1) o1 ++ o2).
        replace (length o1 - 1)%nat with (pred (length o1)) by lia.
        rewrite <- removelast_firstn_len.
        split; [reflexivity|]. split; [|split; [|split]].
        -- rewrite <- (firstn_skipn index points) at 1.
           apply subsequence_app; [|exact S2].
           rewrite <- (@removelast_firstn _ index points) by lia.
           replace (S index) with (index + 1)%nat by lia.
           apply subsequence_removelast. exact S1.
        -- destruct o1 as [|a [|b o1]]; simpl in N1; try lia.
           change (removelast (a :: b :: o1)) with (a :: removelast (b :: o1)).
           simpl. simpl in H1. rewrite H1.
           replace (index + 1)%nat with (S index) by lia.
           destruct points; reflexivity.
        -- destruct o2 as [|a o2]; [simpl in N2; lia|].
           rewrite last_app_right by discriminate. rewrite L2.
           apply last_skipn. lia.
        -- intros _. rewrite length_app. lia.
      * exists [hd origin points; last points origin].
        split; [reflexivity|]. split; [apply subsequence_ends; lia|].
        repeat split; auto.
Qed.

(** X7.  With a tolerance that is not negative [simplifyPath] returns within a
    recursion depth of the length of the path; the result leaves out
    points of the path without reordering any, and keeps its first and its
    last point. *)
Theorem simplifyPath_keeps_ends_and_order (points : list (Point num)) (epsilon : num) :
  num_lt epsilon zero = false ->
  exists out,
    simplifyPath (length points) points epsilon = Returned out
    /\ subsequence out points
    /\ hd origin out = hd origin points
    /\ last out origin = last points origin
    /\ (2 <= length points -> 2 <= length out)%nat.
Proof.
  intros He. apply (simplifyPath_spec epsilon He). apply Nat.le_refl.
Qed.

End SimplifyFacts.

(** *** The tolerance, over the reals *)

Section SimplifyReal.

Local Open Scope R_scope.

Lemma dist_coords (p q q' : Point R) :
  x q = x q' -> y q = y q' -> dist p q = dist p q'.
Proof. intros E1 E2. unfold dist. rewrite E1, E2. reflexivity. Qed.

Lemma pointLineDist_minimal (p a b : Point R) (s : R) :
  0 <= s <= 1 ->
  pointLineDist p a b
  <= dist p (mkPoint (x a + s * (x b - x a)) (y a + s * (y b - y a))).
Proof.
  intros Hs. unfold pointLineDist. cbv zeta.
  change (pow2 (dist a b)) with (dist a b * dist a b). rewrite dist_sqr.
  set (e := x b - x a). set (g := y b - y a).
  replace ((x a - x b) * (x a - x b) + (y a - y b) * (y a - y b))
    with (e * e + g * g) by (subst e g; ring).
  simpl num_eq. unfold Exact.eqb, zero. simpl num_ofZ.
  destruct (Req_dec_T (e * e + g * g) 0) as [E0|E0].
  - destruct (sum_squares_zero e g E0) as [Ee Eg].
    apply Req_le. apply dist_coords; simpl; fold e g; rewrite ?Ee, ?Eg; ring.
  - set (L := e * e + g * g) in *.
    assert (HL : 0 < L) by (subst L; nra).
    set (u := x p - x a). set (v := y p - y a).
    simpl num_div. simpl num_mul. simpl num_add. simpl num_sub.
    fold e g u v.
    set (t := (u * e + v * g) / L).
    assert (Ht : u * e + v * g = t * L) by (subst t; field; lra).
    simpl Math_max. simpl Math_min.
    set (tc := Rmax 0 (Rmin 1 t)).
    assert (Hc : 0 <= L * (s - tc) * (s + tc - 2 * t)).
    { subst tc. unfold Rmax, Rmin.
      destruct (Rle_dec 1 t) as [H1|H1].
      - destruct (Rle_dec 0 1) as [_|H0]; [|lra].
        replace (L * (s - 1) * (s + 1 - 2 * t))
          with (L * ((1 - s) * (2 * t - 1 - s))) by ring.
        apply Rmult_le_pos; [lra|]. apply Rmult_le_pos; lra.
      - destruct (Rle_dec 0 t) as [H0|H0].
        + replace (L * (s - t) * (s + t - 2 * t)) with (L * ((s - t) * (s - t))) by ring.
          apply Rmult_le_pos; [lra|]. apply Rle_0_sqr.
        + replace (L * (s - 0) * (s + 0 - 2 * t)) with (L * (s * (s - 2 * t))) by ring.
          apply Rmult_le_pos; [lra|]. apply Rmult_le_pos; lra. }
    unfold dist. simpl. unfold pow2. apply sqrt_le_1_alt.
    replace (x p - (x a + tc * e)) with (u - tc * e) by (subst u; ring).
    replace (y p - (y a + tc * g)) with (v - tc * g) by (subst v; ring).
    replace (x p - (x a + s * e)) with (u - s * e) by (subst u; ring).
    replace (y p - (y a + s * g)) with (v - s * g) by (subst v; ring).
    assert (F : forall r, (u - r * e) * (u - r * e) + (v - r * g) * (v - r * g)
                          = u * u + v * v - 2 * r * (t * L) + r * r * L).
    { intros r. rewrite <- Ht. subst L. ring. }
    rewrite (F tc), (F s). nra.
Qed.

(** X9.  No point of the segment [ab] is nearer to [p] than [pointLineDist]
    says: the clamped projection is the nearest point of the segment. *)
Theorem pointLineDist_closest (p a b : Point R) (s : R) :
  0 <= s <= 1 ->
  pointLineDist p a b
  <= dist p (mkPoint (x a + s * (x b - x a)) (y a + s * (y b - y a))).
Proof. exact (pointLineDist_minimal p a b s). Qed.

Lemma pointLineDist_closest_witness :
  0 <= / 2 <= 1
  /\ pointLineDist (mkPoint 1 1) (mkPoint 0 0) (mkPoint 2 0)
     <= dist (mkPoint 1 1)
             (mkPoint (x (mkPoint 0 0 : Point R) + / 2 * (x (mkPoint 2 0 : Point R) - x (mkPoint 0 0 : Point R)))
                      (y (mkPoint 0 0 : Point R) + / 2 * (y (mkPoint 2 0 : Point R) - y (mkPoint 0 0 : Point R)))).
Proof.
  split; [lra|].
  apply (pointLineDist_closest (mkPoint 1 1) (mkPoint 0 0) (mkPoint 2 0) (/ 2)). lra.
Defined.

Lemma pointLineDist_nonneg (p a b : Point R) : 0 <= pointLineDist p a b.
Proof.
  unfold pointLineDist. cbv zeta. destruct (num_eq _ _); apply dist_nonneg.
Qed.

Lemma dist_self (p : Point R) : dist p p = 0.
Proof.
  unfold dist, pow2. simpl.
  replace ((x p - x p) * (x p - x p) + (y p - y p) * (y p - y p)) with 0 by ring.
  apply sqrt_0.
Qed.

Lemma pointLineDist_first (a b : Point R) : pointLineDist a a b = 0.
Proof.
  apply Rle_antisym; [|apply pointLineDist_nonneg].
  apply Rle_trans
    with (dist a (mkPoint (x a + 0 * (x b - x a)) (y a + 0 * (y b - y a))));
    [apply pointLineDist_minimal; lra|].
  rewrite (dist_coords a _ a) by (simpl; ring).
  rewrite dist_self. lra.
Qed.

Lemma pointLineDist_second (a b : Point R) : pointLineDist b a b = 0.
Proof.
  apply Rle_antisym; [|apply pointLineDist_nonneg].
  apply Rle_trans
    with (dist b (mkPoint (x a + 1 * (x b - x a)) (y a + 1 * (y b - y a))));
    [apply pointLineDist_minimal; lra|].
  rewrite (dist_coords b _ b) by (simpl; ring).
  rewrite dist_self. lra.
Qed.

Lemma farthest_max (first last_ : Point R) (interior : list (Point R)) :
  forall (i index : nat) (dmax : R),
    let r := farthest first last_ i interior index dmax in
    dmax <= snd r
    /\ forall p, In p interior -> pointLineDist p first last_ <= snd r.
Proof.
  induction interior as [|q rest IH]; intros i index dmax; simpl.
  - split; [lra | contradiction].
  - destruct (Exact.ltb dmax (pointLineDist q first last_)) eqn:E.
    + apply ltb_true in E.
      destruct (IH (S i) i (pointLineDist q first last_)) as [I1 I2].
      split; [lra|]. intros p [<-|Hp]; [exact I1 | apply I2; exact Hp].
    + apply ltb_false in E.
      destruct (IH (S i) index dmax) as [I1 I2].
      split; [exact I1|]. intros p [<-|Hp]; [lra | apply I2; exact Hp].
Qed.

Lemma In_ends_or_interior {A : Type} (d : A) (l : list A) (p : A) :
  In p l -> p = hd d l \/ p = last l d \/ In p (removelast (tl l)).
Proof.
  destruct l as [|a l]; [contradiction|].
  intros [<-|H]; [left; reflexivity|]. right.
  simpl tl. destruct l as [|b l]; [contradiction|].
  rewrite (app_removelast_last d (l := b :: l)) in H by discriminate.
  apply in_app_or in H. destruct H as [H|[<-|[]]].
  - right. exact H.
  - left. reflexivity.
Qed.

Lemma simplifyPath_tolerance_spec (epsilon : R) :
  0 <= epsilon ->
  forall (depth : nat) (points out : list (Point R)),
    (length points <= depth)%nat -> (2 <= length points)%nat ->
    simplifyPath depth points epsilon = Returned out ->
    forall p, In p points ->
      exists a b, adjacent a b out /\ pointLineDist p a b <= epsilon.
Proof.
  intros He.
  assert (He' : num_lt epsilon zero = false) by (apply ltb_false; exact He).
  induction depth as [|depth IH]; intros points out Hd H2 R p Hp; [lia|].
  cbn [simplifyPath] in R.
  destruct (length points <? 3)%nat eqn:E3.
  - apply Nat.ltb_lt in E3. injection R as <-.
    destruct points as [|a [|b [|c l]]]; simpl in *; try lia.
    exists a, b. split; [exists [], []; reflexivity|].
    destruct Hp as [<-|[<-|[]]];
      [rewrite pointLineDist_first | rewrite pointLineDist_second]; exact He.
  - apply Nat.ltb_ge in E3.
    pose proof (farthest_index (hd origin points) (last points origin)
                  (removelast (tl points)) 1 0 zero) as F.
    pose proof (farthest_max (hd origin points) (last points origin)
                  (removelast (tl points)) 1 0 zero) as M.
    cbv zeta in F, M. rewrite interior_length in F.
    destruct (farthest (hd origin points) (last points origin) 1
                (removelast (tl points)) 0 zero) as [index dmax].
    simpl in F, M. destruct M as [_ M].
    destruct (num_lt epsilon dmax) eqn:Ed.
    + destruct F as [[_ F]|F];
        [subst dmax; apply ltb_true in Ed; unfold zero in Ed; simpl in Ed; lra|].
      destruct (simplifyPath_spec epsilon He' depth (firstn (index + 1) points))
        as (o1 & R1 & _ & _ & L1 & N1); [rewrite length_firstn; lia|].
      destruct (simplifyPath_spec epsilon He' depth (skipn index points))
        as (o2 & R2 & _ & H2' & _ & N2); [rewrite length_skipn; lia|].
      rewrite R1, R2 in R. simpl in R. injection R as <-.
      rewrite length_firstn in N1. rewrite length_skipn in N2.
      specialize (N1 ltac:(lia)). specialize (N2 ltac:(lia)).
      replace (length o1 - 1)%nat with (pred (length o1)) by lia.
      rewrite <- removelast_firstn_len.
      assert (J : last o1 origin = hd origin o2).
      { rewrite L1, H2'. replace (index + 1)%nat with (S index) by lia.
        rewrite last_firstn by lia. symmetry. apply hd_skipn. }
      assert (Hne : o2 <> []) by (destruct o2; [simpl in N2; lia | discriminate]).
      rewrite <- (firstn_skipn (index + 1) points) in Hp.
      apply in_app_or in Hp. destruct Hp as [Hp|Hp].
      * destruct (IH (firstn (index + 1) points) o1) with (p := p) as (a & b & A & D);
          auto; try (rewrite length_firstn; lia).
        exists a, b. split; [|exact D].
        apply (adjacent_left origin); assumption.
      * assert (Hp' : In p (skipn index points)).
        { rewrite <- (firstn_skipn 1 (skipn index points)).
          apply in_or_app. right. rewrite skipn_skipn.
          replace (1 + index)%nat with (index + 1)%nat by lia. exact Hp. }
        destruct (IH (skipn index points) o2) with (p := p) as (a & b & A & D);
          auto; try (rewrite length_skipn; lia).
        exists a, b. split; [|exact D].
        apply adjacent_right. exact A.
    + apply ltb_false in Ed. injection R as <-.
      exists (hd origin points), (last points origin).
      split; [exists [], []; reflexivity|].
      destruct (In_ends_or_interior origin points p Hp) as [->|[->|Hi]].
      * rewrite pointLineDist_first. exact He.
      * rewrite pointLineDist_second. exact He.
      * specialize (M p Hi). lra.
Qed.

(** X8.  Ramer-Douglas-Peucker's guarantee: with a tolerance [epsilon >= 0],
    every point of a path of two points or more is within [epsilon] of a
    segment between two neighbours of the simplified path. *)
Theorem simplifyPath_within_tolerance (points out : list (Point R)) (epsilon : R) :
  0 <= epsilon -> (2 <= length points)%nat ->
  simplifyPath (length points) points epsilon = Returned out ->
  forall p, In p points ->
    exists a b, adjacent a b out /\ pointLineDist p a b <= epsilon.
Proof.
  intros He H2 R. apply (simplifyPath_tolerance_spec epsilon He (length points) points out);
    auto.
Qed.

End SimplifyReal.

Lemma simplifyPath_keeps_ends_and_order_witness :
  exists out,
    simplifyPath 5 [Scenario.pt 0 0; Scenario.pt 1 0.02; Scenario.pt 2 0;
                    Scenario.pt 3 1; Scenario.pt 4 0] (num_lit 0.05)
    = Returned out
    /\ subsequence out [Scenario.pt 0 0; Scenario.pt 1 0.02; Scenario.pt 2 0;
                        Scenario.pt 3 1; Scenario.pt 4 0]
    /\ hd origin out = Scenario.pt 0 0
    /\ last out origin = Scenario.pt 4 0
    /\ (2 <= 5 -> 2 <= length out)%nat.
Proof.
  apply (simplifyPath_keeps_ends_and_order
           [Scenario.pt 0 0; Scenario.pt 1 0.02; Scenario.pt 2 0;
            Scenario.pt 3 1; Scenario.pt 4 0] (num_lit 0.05)).
  vm_compute. reflexivity.
Defined.

(** The path of the witness above loses its second point. *)
Lemma simplifyPath_example :
  simplifyPath 5 [Scenario.pt 0 0; Scenario.pt 1 0.02; Scenario.pt 2 0;
                  Scenario.pt 3 1; Scenario.pt 4 0] (num_lit 0.05)
  = Returned [Scenario.pt 0 0; Scenario.pt 2 0; Scenario.pt 3 1; Scenario.pt 4 0].
Proof. vm_compute. reflexivity. Qed.

Lemma simplifyPath_within_tolerance_witness :
  exists out,
    simplifyPath 3 [mkPoint 0 0; mkPoint 1 1; mkPoint 2 0]%R 0.05%R = Returned out
    /\ forall p, In p [mkPoint 0 0; mkPoint 1 1; mkPoint 2 0]%R ->
         exists a b, adjacent a b out /\ (pointLineDist p a b <= 0.05)%R.
Proof.
  assert (He : (0 <= 0.05)%R) by lra.
  assert (He' : num_lt 0.05%R zero = false) by (apply ltb_false; exact He).
  destruct (simplifyPath_spec 0.05%R He' 3 [mkPoint 0 0; mkPoint 1 1; mkPoint 2 0]%R
              (Nat.le_refl 3)) as (out & R & _).
  exists out. split; [exact R|].
  apply (simplifyPath_within_tolerance [mkPoint 0 0; mkPoint 1 1; mkPoint 2 0]%R out 0.05%R He).
  - simpl. lia.
  - exact R.
Defined.

(* ================================================================== *)
(** ** Resampling *)

Section ResampleFacts.

Local Open Scope R_scope.

Lemma dist_triangle (a b c : Point R) : dist a c <= dist a b + dist b c.
Proof.
  pose proof (dist_nonneg a b) as Hab. pose proof (dist_nonneg b c) as Hbc.
  pose proof (dist_sqr a b) as Sab. pose proof (dist_sqr b c) as Sbc.
  apply dist_le; [lra|].
  set (u1 := x a - x b) in *. set (v1 := y a - y b) in *.
  set (u2 := x b - x c) in *. set (v2 := y b - y c) in *.
  replace (x a - x c) with (u1 + u2) by (subst u1 u2; ring).
  replace (y a - y c) with (v1 + v2) by (subst v1 v2; ring).
  set (P := dist a b * dist b c) in *.
  assert (HP : 0 <= P) by (subst P; apply Rmult_le_pos; assumption).
  assert (HPP : P * P = (u1 * u1 + v1 * v1) * (u2 * u2 + v2 * v2)).
  { subst P. rewrite <- Sab, <- Sbc. ring. }
  assert (HS : u1 * u2 + v1 * v2 <= P).
  { destruct (Rle_dec (u1 * u2 + v1 * v2) P) as [H|H]; [exact H|].
    assert (0 <= (u1 * v2 - u2 * v1) * (u1 * v2 - u2 * v1)) by apply Rle_0_sqr.
    nra. }
  replace ((dist a b + dist b c) * (dist a b + dist b c))
    with (dist a b * dist a b + 2 * P + dist b c * dist b c) by (subst P; ring).
  rewrite Sab, Sbc. clearbody P. nra.
Qed.

(** The point at [ratio] of the way from [prev] to [curr]. *)
Lemma interpolate_near (prev curr : Point R) (ratio : R) :
  0 <= ratio ->
  dist prev (interpolatePoints prev curr ratio) <= ratio * dist prev curr.
Proof.
  intros Hr. pose proof (dist_nonneg prev curr) as D.
  pose proof (dist_sqr prev curr) as S.
  apply dist_le; [apply Rmult_le_pos; assumption|].
  set (dd := dist prev curr) in *.
  unfold interpolatePoints. simpl.
  apply Req_le.
  replace (ratio * dd * (ratio * dd)) with (ratio * ratio * (dd * dd)) by ring.
  rewrite S. ring.
Qed.

Lemma interpolate_far (prev curr : Point R) (ratio : R) :
  ratio <= 1 ->
  dist (interpolatePoints prev curr ratio) curr <= (1 - ratio) * dist prev curr.
Proof.
  intros Hr. pose proof (dist_nonneg prev curr) as D.
  pose proof (dist_sqr prev curr) as S.
  apply dist_le; [apply Rmult_le_pos; lra|].
  set (dd := dist prev curr) in *.
  unfold interpolatePoints. simpl.
  apply Req_le.
  replace ((1 - ratio) * dd * ((1 - ratio) * dd))
    with ((1 - ratio) * (1 - ratio) * (dd * dd)) by ring.
  rewrite S. ring.
Qed.

Lemma pathLength_nonneg (rest : list (Point R)) : forall prev, 0 <= pathLength prev rest.
Proof.
  induction rest as [|c rest IH]; intros prev; cbn [pathLength]; [lra|].
  pose proof (dist_nonneg prev c). specialize (IH c). lra.
Qed.

(** The loop of [resamplePath] with a positive spacing.  [k] counts the
    points still to be emitted: each round either emits one, which takes
    [spacing] off what is left of the path, or moves on to the next point
    of [rest]. *)
Lemma resampleLoop_returns (spacing : R) :
  0 < spacing ->
  forall (fuel k : nat) (rest : list (Point R)) (prev : Point R) (acc : R)
         (newPath : list (Point R)) (lastE : Point R),
    0 <= acc < spacing ->
    acc + pathLength prev rest < INR k * spacing ->
    (length rest + k <= fuel)%nat ->
    dist lastE prev <= acc ->
    exists out,
      resampleLoop fuel spacing prev acc rest newPath = Returned (newPath ++ out)
      /\ chained (fun p q => dist p q <= spacing) lastE out
      /\ dist (last out lastE) (last rest prev) <= spacing.
Proof.
  intros Hs. induction fuel as [|fuel IH];
    intros k rest prev acc newPath lastE Ha Hk Hf Hl.
  - destruct rest; [|simpl in Hf; lia].
    exists []. rewrite app_nil_r. split; [reflexivity|]. split; [exact I|].
    change (dist lastE prev <= spacing). lra.
  - destruct rest as [|curr rest].
    + exists []. rewrite app_nil_r. split; [reflexivity|]. split; [exact I|].
      change (dist lastE prev <= spacing). lra.
    + cbn [resampleLoop].
      pose proof (dist_nonneg prev curr) as D.
      pose proof (pathLength_nonneg rest curr) as PL.
      cbn [pathLength] in Hk.
      destruct (num_le spacing (acc + dist prev curr)%num) eqn:E.
      * apply leb_true in E. change (spacing <= acc + dist prev curr) in E.
        set (d := dist prev curr) in *.
        assert (Hd : 0 < d) by lra.
        set (needed := (spacing - acc)%num).
        change needed with (spacing - acc) in *.
        set (ratio := ((spacing - acc) / d)).
        assert (Hr0 : 0 < ratio).
        { subst ratio. apply Rdiv_lt_0_compat; lra. }
        assert (Hr1 : ratio <= 1).
        { subst ratio. apply Rmult_le_reg_r with d; [exact Hd|].
          unfold Rdiv. rewrite Rmult_assoc, Rinv_l by lra. lra. }
        assert (Hrd : ratio * d = spacing - acc).
        { subst ratio. field. lra. }
        set (nextPoint := interpolatePoints prev curr ratio).
        pose proof (interpolate_near prev curr ratio ltac:(lra)) as N1.
        pose proof (interpolate_far prev curr ratio Hr1) as N2.
        fold nextPoint d in N1, N2.
        destruct k as [|k].
        { simpl in Hk. lra. }
        destruct (IH k (curr :: rest) nextPoint 0 (newPath ++ [nextPoint]) nextPoint)
          as (out & HR & C & L).
        -- lra.
        -- cbn [pathLength]. rewrite S_INR in Hk. nra.
        -- simpl in *. lia.
        -- rewrite dist_self. lra.
        -- exists (nextPoint :: out).
           change (num_div (spacing - acc) d) with ratio.
           fold nextPoint. change (@zero R _) with 0.
           rewrite HR. rewrite <- app_assoc. split; [reflexivity|].
           split.
           ++ split; [|exact C].
              pose proof (dist_triangle lastE prev nextPoint). nra.
           ++ rewrite (last_cons_eq out lastE nextPoint).
              rewrite (last_cons_eq rest prev curr).
              rewrite (last_cons_eq rest nextPoint curr) in L. exact L.
      * apply leb_false in E. change (acc + dist prev curr < spacing) in E.
        destruct (IH k rest curr (acc + dist prev curr) newPath lastE)
          as (out & HR & C & L).
        -- lra.
        -- lra.
        -- simpl in Hf. lia.
        -- pose proof (dist_triangle lastE prev curr). lra.
        -- exists out. split; [exact HR|]. split; [exact C|].
           rewrite (last_cons_eq rest prev curr). exact L.
Qed.

Lemma steps_cover (len spacing : R) :
  0 < spacing -> 0 <= len -> exists k : nat, len < INR k * spacing.
Proof.
  intros Hs Hl.
  destruct (archimed (len / spacing)) as [A _].
  assert (Hq : 0 <= len / spacing) by (apply Rmult_le_pos; [lra | left; apply Rinv_0_lt_compat; lra]).
  assert (Hu : (0 <= up (len / spacing))%Z).
  { apply le_IZR. lra. }
  exists (Z.to_nat (up (len / spacing))).
  rewrite INR_IZR_INZ, Z2Nat.id by exact Hu.
  apply Rmult_lt_reg_r with (/ spacing); [apply Rinv_0_lt_compat; lra|].
  rewrite Rmult_assoc, Rinv_r by lra. unfold Rdiv in A. lra.
Qed.

Lemma resamplePath_returns (path : list (Point R)) (spacing : R) :
  0 < spacing ->
  exists fuel out,
    resamplePath fuel path spacing = Returned out
    /\ hd origin out = hd origin path
    /\ last out origin = last path origin
    /\ chained (fun p q => dist p q <= spacing) (hd origin out) (tl out).
Proof.
  intros Hs.
  destruct path as [|p0 [|p1 rest]].
  - exists 0%nat, []. repeat split; auto.
  - exists 0%nat, [p0]. repeat split; auto.
  - destruct (steps_cover (pathLength p0 (p1 :: rest)) spacing Hs
                (pathLength_nonneg _ _)) as [k Hk].
    destruct (resampleLoop_returns spacing Hs (length (p1 :: rest) + k) k
                (p1 :: rest) p0 0 [p0] p0) as (out & HR & C & L).
    + lra.
    + lra.
    + lia.
    + rewrite dist_self. lra.
    + exists (length (p1 :: rest) + k)%nat, (([p0] ++ out) ++ [last (p0 :: p1 :: rest) p0]).
      unfold resamplePath. change (@zero R _) with 0. rewrite HR.
      split; [reflexivity|]. split; [reflexivity|]. split.
      * rewrite last_last.
        rewrite (last_cons_eq (p1 :: rest) p0 p0), (last_cons_eq (p1 :: rest) origin p0).
        reflexivity.
      * change (chained (fun p q => dist p q <= spacing) p0
                  (out ++ [last (p0 :: p1 :: rest) p0])).
        apply chained_app; [exact C|].
        split; [|exact I].
        rewrite (last_cons_eq (p1 :: rest) p0 p0).
        rewrite (last_cons_eq rest p0 p1) in *. exact L.
Qed.

(** X10.  With a positive spacing [resamplePath] returns.  The result starts
    at the first point of the path and ends at its last, and no two
    neighbours of it are more than [spacing] apart. *)
Theorem resamplePath_spacing (path : list (Point R)) (spacing : R) :
  0 < spacing ->
  exists fuel out,
    resamplePath fuel path spacing = Returned out
    /\ hd origin out = hd origin path
    /\ last out origin = last path origin
    /\ chained (fun p q => dist p q <= spacing) (hd origin out) (tl out).
Proof. exact (resamplePath_returns path spacing). Qed.

End ResampleFacts.

Lemma resamplePath_spacing_witness :
  exists fuel out,
    resamplePath fuel RealScenario.straightPath 3%R = Returned out
    /\ hd origin out = hd origin RealScenario.straightPath
    /\ last out origin = last RealScenario.straightPath origin
    /\ chained (fun p q => (dist p q <= 3)%R) (hd origin out) (tl out).
Proof.
  apply (resamplePath_spacing RealScenario.straightPath 3%R). lra.
Defined.

(* ================================================================== *)
(** ** Polygon offset *)

Section OffsetFacts.

Local Open Scope R_scope.

(** A vertex moved along a vector of norm at most 1 by [m], [|m| <= W]. *)
Lemma moved_within (curr v : Point R) (m W : R) :
  x v * x v + y v * y v <= 1 -> - W <= m <= W ->
  dist curr (addPoints curr (scalePoint v m)) <= W.
Proof.
  intros Hv Hm. apply dist_le; [lra|]. simpl.
  replace ((x curr - (x curr + x v * m)) * (x curr - (x curr + x v * m))
           + (y curr - (y curr + y v * m)) * (y curr - (y curr + y v * m)))
    with ((x v * x v + y v * y v) * (m * m)) by ring.
  assert (0 <= x v * x v + y v * y v) by nra.
  assert (m * m <= W * W) by nra.
  nra.
Qed.

(** The miter factor of [offsetPolygon] lies in [(0, 2]]. *)
Lemma miter_range (dot : R) :
  0 < Rmin (1 / Rmax (Q2R 0.1) ((1 + dot) / 2)) (Q2R 2.0) <= 2.
Proof.
  assert (L1 : Q2R 0.1 = / 10) by (unfold Q2R; simpl; lra).
  assert (L2 : Q2R 2.0 = 2) by (unfold Q2R; simpl; lra).
  rewrite L1, L2.
  assert (Hm : 0 < Rmax (/ 10) ((1 + dot) / 2)).
  { pose proof (Rmax_l (/ 10) ((1 + dot) / 2)). lra. }
  assert (Hi : 0 < 1 / Rmax (/ 10) ((1 + dot) / 2)).
  { unfold Rdiv. rewrite Rmult_1_l. apply Rinv_0_lt_compat. exact Hm. }
  split.
  - apply Rmin_glb_lt; lra.
  - apply Rmin_r.
Qed.

(** X11.  [offsetPolygon] keeps the number of vertices and moves no vertex by
    more than twice the offset: the vertex normal has norm 0 or 1 and the
    miter factor is capped at 2. *)
Theorem offsetPolygon_displacement (path : list (Point R)) (offsetMm : R) :
  length (offsetPolygon path offsetMm) = length path
  /\ forall i, (i < length path)%nat ->
       dist (nth i path origin) (nth i (offsetPolygon path offsetMm) origin)
       <= 2 * Rabs offsetMm.
Proof.
  unfold offsetPolygon. cbv zeta.
  destruct (length path <? 3)%nat eqn:E.
  - split; [reflexivity|]. intros i _. rewrite dist_self.
    pose proof (Rabs_pos offsetMm). lra.
  - split; [rewrite length_map, length_seq; reflexivity|].
    intros i Hi.
    match goal with
    | |- context [map ?f (seq 0 ?n)] =>
        rewrite (nth_indep (map f (seq 0 n)) origin (f 0%nat))
          by (rewrite length_map, length_seq; exact Hi);
        rewrite (map_nth f (seq 0 n) 0%nat i)
    end.
    rewrite seq_nth by exact Hi. simpl (0 + i)%nat.
    match goal with
    | |- dist ?c (addPoints ?c (scalePoint (normalize ?q) (num_mul offsetMm ?m))) <= _ =>
        pose proof (normalize_norm q) as Hn;
        set (avgN := normalize q) in *; set (miter := m)
    end.
    apply moved_within.
    + destruct Hn as [H|H]; lra.
    + assert (M : 0 < miter <= 2) by (subst miter; apply miter_range).
      change (num_mul offsetMm miter) with (offsetMm * miter).
      unfold Rabs. destruct (Rcase_abs offsetMm); nra.
Qed.

End OffsetFacts.

(* ================================================================== *)
(** ** The cleanup pass and the edges of the pipeline *)

Section CleanupFacts.

Context {num : Type} {N : JSNumber num}.

Lemma removeLoop_keeps (minLen : num) (rest : list (Stitch num)) :
  forall prev,
    subsequence (removeLoop minLen prev rest) rest
    /\ filter (fun s => negb (StitchKind_eqb (type s) stitch)) (removeLoop minLen prev rest)
       = filter (fun s => negb (StitchKind_eqb (type s) stitch)) rest.
Proof.
  induction rest as [|curr rest IH]; intros prev; simpl.
  - split; [constructor | reflexivity].
  - destruct (StitchKind_eqb (type curr) stitch) eqn:E; simpl.
    + destruct (_ && _).
      * destruct (IH prev) as [S F]. split; [constructor; exact S | exact F].
      * destruct (IH curr) as [S F]. split; [constructor; exact S|].
        simpl. rewrite E. simpl. exact F.
    + destruct (IH curr) as [S F]. split; [constructor; exact S|].
      simpl. rewrite E. simpl. f_equal. exact F.
Qed.

(** X12.  [removeSmallStitches] on a list that is not empty keeps the first
    record, drops records without reordering the rest, and drops no record
    that is not a [stitch]: every jump, trim, colour change and end is
    still there.  On the empty list it returns [[undefined]]. *)
Theorem removeSmallStitches_keeps_commands (s0 : Stitch num) (rest : list (Stitch num))
    (minLen : num) :
  removeSmallStitches [] minLen = [undefined]
  /\ exists kept,
       removeSmallStitches (s0 :: rest) minLen = map record (s0 :: kept)
       /\ subsequence kept rest
       /\ filter (fun s => negb (StitchKind_eqb (type s) stitch)) kept
          = filter (fun s => negb (StitchKind_eqb (type s) stitch)) rest.
Proof.
  split; [reflexivity|].
  exists (removeLoop minLen s0 rest).
  destruct (removeLoop_keeps minLen rest s0) as [S F].
  split; [reflexivity|]. split; assumption.
Qed.

(** *** Paths that give no stitch *)

Lemma generateRunningStitches_short (fuel : nat) (path : list (Point num))
    (config : ProcessingConfig num) (i : nat) (hex : string) :
  (length path < 2)%nat -> generateRunningStitches fuel path config i hex = Returned [].
Proof.
  intros H. unfold generateRunningStitches.
  apply Nat.ltb_lt in H. rewrite H. reflexivity.
Qed.

Lemma generateSatinStitches_short (fuel : nat) (path : list (Point num))
    (config : ProcessingConfig num) (i : nat) (hex : string) :
  (length path < 2)%nat -> generateSatinStitches fuel path config i hex = Returned [].
Proof.
  intros H. unfold generateSatinStitches.
  apply Nat.ltb_lt in H. rewrite H. reflexivity.
Qed.

Lemma offsetPolygon_short (path : list (Point num)) (offsetMm : num) :
  (length path < 3)%nat -> offsetPolygon path offsetMm = path.
Proof.
  intros H. unfold offsetPolygon. cbv zeta.
  apply Nat.ltb_lt in H. rewrite H. reflexivity.
Qed.

Lemma generateUnderlay_short (fuel : nat) (path : list (Point num))
    (config : ProcessingConfig num) (i : nat) (hex : string) :
  (length path < 2)%nat -> generateUnderlay fuel path config i hex = Returned [].
Proof.
  intros H. unfold generateUnderlay.
  destruct (enableUnderlay config); simpl; [|reflexivity].
  destruct (stitchType config).
  - rewrite offsetPolygon_short by lia.
    replace (2 <? length path)%nat with false by (symmetry; apply Nat.ltb_ge; lia).
    reflexivity.
  - destruct (num_lt _ _).
    + rewrite generateRunningStitches_short by exact H. reflexivity.
    + destruct (num_lt _ _); [|reflexivity].
      rewrite generateSatinStitches_short by exact H. reflexivity.
  - rewrite offsetPolygon_short by lia.
    replace (2 <? length path)%nat with false by (symmetry; apply Nat.ltb_ge; lia).
    reflexivity.
Qed.

Lemma digitizePath_short (fuel : nat) (config : ProcessingConfig num) (i : nat)
    (hex : string) (layerStitches : list (Stitch num)) (path : list (Point num)) :
  stitchType config <> tatami -> (length path < 2)%nat ->
  digitizePath fuel config i hex layerStitches path = Returned layerStitches.
Proof.
  intros T H. unfold digitizePath.
  rewrite generateUnderlay_short by exact H. simpl.
  unfold generateMain. destruct (stitchType config); try congruence.
  - rewrite generateRunningStitches_short by exact H. reflexivity.
  - rewrite generateSatinStitches_short by exact H. reflexivity.
Qed.

Lemma digitizePaths_short (fuel : nat) (config : ProcessingConfig num) (i : nat)
    (hex : string) (ps : list (list (Point num))) :
  stitchType config <> tatami ->
  Forall (fun path => (length path < 2)%nat) ps ->
  forall layerStitches,
    digitizePaths fuel config i hex layerStitches ps = Returned layerStitches.
Proof.
  intros T. induction 1 as [|path ps Hp _ IH]; intros layerStitches; simpl.
  - reflexivity.
  - rewrite digitizePath_short by assumption. simpl. apply IH.
Qed.

Lemma digitizeLayers_short (fuel : nat) (config : ProcessingConfig num)
    (layers : list (VectorLayer num)) :
  stitchType config <> tatami ->
  Forall (fun layer => Forall (fun path => (length path < 2)%nat) (paths layer)) layers ->
  forall i allStitches,
    digitizeLayers fuel config i allStitches layers = Returned allStitches.
Proof.
  intros T. induction 1 as [|layer layers Hl _ IH]; intros i allStitches; simpl.
  - reflexivity.
  - unfold digitizeLayer. rewrite digitizePaths_short by assumption. simpl. apply IH.
Qed.

(** X14.  A design in which no path has two points gives no stitch, and
    [digitizeDesign] with the running or the satin type then returns the two
    elements [undefined] and [{ type: 'end' }], not an empty array: the
    cleanup pass starts its result with [stitches[0]] of an empty list. *)
Theorem digitizeDesign_without_stitches (fuel : nat) (layers : list (VectorLayer num))
    (config : ProcessingConfig num) :
  stitchType config <> tatami ->
  Forall (fun layer => Forall (fun path => (length path < 2)%nat) (paths layer)) layers ->
  digitizeDesign fuel layers config = Returned [undefined; typeOnly end_].
Proof.
  intros T H. unfold digitizeDesign.
  rewrite digitizeLayers_short by assumption. reflexivity.
Qed.

(** *** The tatami fill of an empty path *)

Lemma allEdges_empty_path (rotatedPaths : list (list (Point num))) :
  In [] rotatedPaths -> allEdges rotatedPaths = Throws.
Proof.
  induction rotatedPaths as [|path rest IH]; intros H; [contradiction|].
  simpl. destruct H as [->|H]; [reflexivity|].
  unfold pathEdges. destruct path as [|a l]; [reflexivity|].
  destruct (lastOf (a :: l)); simpl; [|reflexivity].
  rewrite IH by exact H. reflexivity.
Qed.

Lemma generateTatamiStitches_empty_path (fuel : nat) (config : ProcessingConfig num)
    (shapePaths : list (list (Point num))) (i : nat) (hex : string) :
  In [] shapePaths -> generateTatamiStitches fuel shapePaths config i hex = Throws.
Proof.
  intros H. unfold generateTatamiStitches.
  destruct shapePaths as [|p0 rest] eqn:E; [contradiction|]. rewrite <- E in *.
  replace (isEmpty shapePaths) with false by (rewrite E; reflexivity).
  cbv zeta. rewrite allEdges_empty_path; [reflexivity|].
  apply in_map_iff. exists []. split; [reflexivity|].
  apply in_map_iff. exists []. split; [|exact H].
  apply offsetPolygon_short. simpl. lia.
Qed.

(** X15.  Reading [last.y] of an empty path throws: with the tatami type
    [digitizeDesign] throws on a design whose first path is empty, whatever
    the loop budget and whatever follows that path.  (The running and the
    satin generators return no stitch for such a path.) *)
Theorem tatami_empty_path_throws (fuel : nat) (config : ProcessingConfig num)
    (hex : string) (ps : list (list (Point num))) (layers : list (VectorLayer num)) :
  stitchType config = tatami ->
  digitizeDesign fuel (mkLayer hex ([] :: ps) :: layers) config = Throws.
Proof.
  intros T.
  unfold digitizeDesign. simpl. unfold digitizeLayer. simpl.
  unfold digitizePath.
  rewrite generateUnderlay_short by (simpl; lia). simpl.
  unfold generateMain. rewrite T.
  rewrite generateTatamiStitches_empty_path by (left; reflexivity). reflexivity.
Qed.

End CleanupFacts.

Lemma digitizeDesign_without_stitches_witness :
  digitizeDesign 0 [mkLayer "#000000" [[Scenario.pt 1 1]; []]] Scenario.runningConfig
  = Returned [undefined; typeOnly end_].
Proof.
  apply (digitizeDesign_without_stitches 0
           [mkLayer "#000000" [[Scenario.pt 1 1]; []]] Scenario.runningConfig).
  - discriminate.
  - repeat constructor.
Defined.

Lemma tatami_empty_path_throws_witness :
  digitizeDesign 5 [mkLayer "#000000" [[]; [Scenario.pt 0 0; Scenario.pt 1 0]]]
    (Scenario.config tatami 0.4 2.0 7)
  = Throws.
Proof.
  apply (tatami_empty_path_throws 5 (Scenario.config tatami 0.4 2.0 7) "#000000"
           [[Scenario.pt 0 0; Scenario.pt 1 0]] []).
  reflexivity.
Defined.

Section CleanupReal.

Local Open Scope R_scope.

Lemma removeLoop_gaps (minLen : R) (rest : list (Stitch R)) :
  forall prev : Stitch R,
    chained (fun a b : Stitch R =>
               type b = stitch -> dist a b <= 0.01 \/ minLen <= dist a b)
      prev (removeLoop minLen prev rest).
Proof.
  induction rest as [|curr rest IH]; intros prev; cbn [removeLoop]; [exact I|].
  cbv zeta.
  destruct (StitchKind_eqb (type curr) stitch) eqn:T; cbn [andb].
  - destruct (num_lt (dist prev curr) minLen) eqn:E1; cbn [andb].
    + destruct (num_lt (num_lit 0.01) (dist prev curr)) eqn:E2.
      * apply IH.
      * split; [|apply IH]. intros _. left.
        apply ltb_false in E2. rewrite lit_real in E2. lra.
    + split; [|apply IH]. intros _. right. apply ltb_false in E1. exact E1.
  - split; [|apply IH]. intros K. rewrite K in T. discriminate.
Qed.

(** X13.  After [removeSmallStitches] no [stitch] record follows its predecessor
    at a distance strictly between 0.01 mm and [minLen]: a stitch that
    remains is either a lock stitch on the spot or at least [minLen]
    long. *)
Theorem removeSmallStitches_gaps (s0 : Stitch R) (rest : list (Stitch R)) (minLen : R) :
  exists kept,
    removeSmallStitches (s0 :: rest) minLen = map record (s0 :: kept)
    /\ chained (fun a b : Stitch R =>
                  type b = stitch -> dist a b <= 0.01 \/ minLen <= dist a b)
         s0 kept.
Proof.
  exists (removeLoop minLen s0 rest). split; [reflexivity|].
  apply removeLoop_gaps.
Qed.

End CleanupReal.

(* ================================================================== *)
(** ** Flattening SVG commands *)

Set Warnings "-inexact-float".

(** On binary64 the loop [for (t = 0.2; t <= 1.0; t += 0.2)] runs five
    times, the third time at [0.6000000000000001], and the last time at
    exactly [1]. *)
Lemma bezierLoop_float (e : F64.Engine) (point : float -> Point float) :
  @bezierLoop float (FloatNumber e) 6 point (F64.lit 0.2) []
  = Returned (map point [0.2; 0.4; 0.6000000000000001; 0.8; 1]%float).
Proof. vm_compute. reflexivity. Qed.

(** X16.  A cubic or quadratic Bezier command is flattened to five points on
    binary64, whatever its coordinates and whatever the engine's
    [Math.pow]: the curve at the parameters
    [0.2, 0.4, 0.6000000000000001, 0.8, 1]. *)
Theorem flattenCommand_five_points (e : F64.Engine)
    (x1 y1 x2 y2 cx cy currentX currentY : float) :
  @flattenCommand float (FloatNumber e) 6 (cmd_C x1 y1 x2 y2 cx cy) currentX currentY
  = Returned (map (@cubicAt float (FloatNumber e) currentX currentY x1 y1 x2 y2 cx cy)
                  [0.2; 0.4; 0.6000000000000001; 0.8; 1]%float)
  /\ @flattenCommand float (FloatNumber e) 6 (cmd_Q x1 y1 cx cy) currentX currentY
     = Returned (map (@quadraticAt float (FloatNumber e) currentX currentY x1 y1 cx cy)
                     [0.2; 0.4; 0.6000000000000001; 0.8; 1]%float).
Proof. split; apply bezierLoop_float. Qed.

Section FlattenReal.

Local Open Scope R_scope.

Lemma bezierLoop_real (point : R -> Point R) :
  exists t1 t2 t3 t4 t5,
    bezierLoop 6 point (num_lit 0.2) [] = Returned (map point [t1; t2; t3; t4; t5])
    /\ t5 = 1.
Proof.
  assert (L2 : (num_lit 0.2 : R) = / 5) by (simpl; unfold Q2R; simpl; lra).
  assert (L1 : (num_lit 1.0 : R) = 1) by (simpl; unfold Q2R; simpl; lra).
  exists (/ 5), (/ 5 + / 5), (/ 5 + / 5 + / 5), (/ 5 + / 5 + / 5 + / 5),
         (/ 5 + / 5 + / 5 + / 5 + / 5).
  split; [|lra].
  unfold bezierLoop. rewrite L1, L2.
  change (@num_add R _) with Rplus. change (@num_le R _) with Exact.leb.
  repeat match goal with
  | |- context [Exact.leb ?a 1] =>
      first [ replace (Exact.leb a 1) with true by (symmetry; apply leb_true; lra)
            | replace (Exact.leb a 1) with false by (symmetry; apply leb_false; lra) ]
  end.
  reflexivity.
Qed.

(** X17.  Over the reals a Bezier command is flattened to five points, and the
    last point [flattenCommand] gives for a command is the end point the
    command names ([H] and [V] taking the missing coordinate from the
    current position); [Z] and a command without a branch give no
    point. *)
Theorem flattenCommand_ends_at_target (cmd : SvgCommand R) (currentX currentY : R) :
  exists pts,
    flattenCommand 6 cmd currentX currentY = Returned pts
    /\ lastOf pts = commandEnd cmd currentX currentY
    /\ match cmd with
       | cmd_C _ _ _ _ _ _ | cmd_Q _ _ _ _ => length pts = 5%nat
       | cmd_Z | cmd_other => pts = []
       | _ => length pts = 1%nat
       end.
Proof.
  destruct cmd; simpl flattenCommand; simpl commandEnd;
    try (eexists; split; [reflexivity|]; split; reflexivity).
  - destruct (bezierLoop_real (cubicAt currentX currentY x1 y1 x2 y2 cx cy))
      as (t1 & t2 & t3 & t4 & t5 & E & ->).
    eexists. split; [exact E|]. split; [|reflexivity].
    unfold lastOf. simpl. unfold cubicAt, pow3, pow2. simpl. f_equal. f_equal; ring.
  - destruct (bezierLoop_real (quadraticAt currentX currentY x1 y1 cx cy))
      as (t1 & t2 & t3 & t4 & t5 & E & ->).
    eexists. split; [exact E|]. split; [|reflexivity].
    unfold lastOf. simpl. unfold quadraticAt, pow2. simpl. f_equal. f_equal; ring.
Qed.

End FlattenReal.

(* ================================================================== *)
(** ** Colour strings *)

Lemma hexDigitsOf_last (rounds : nat) (n : Z) (acc : string) :
  (0 <= n < 16)%Z -> hexDigitsOf rounds n acc = String (hexDigit n) acc.
Proof.
  intros H. destruct rounds; cbn [hexDigitsOf].
  - rewrite Z.mod_small by lia. reflexivity.
  - replace (n <? 16)%Z with true by (symmetry; apply Z.ltb_lt; lia).
    rewrite Z.mod_small by lia. reflexivity.
Qed.

Lemma hexDigitsOf_step (rounds : nat) (q lo : Z) (acc : string) :
  (1 <= q)%Z -> (0 <= lo < 16)%Z ->
  hexDigitsOf (S rounds) (16 * q + lo) acc
  = hexDigitsOf rounds q (String (hexDigit lo) acc).
Proof.
  intros Hq Hlo. cbn [hexDigitsOf].
  replace (16 * q + lo <? 16)%Z with false by (symmetry; apply Z.ltb_ge; lia).
  replace ((16 * q + lo) mod 16)%Z with lo
    by (rewrite Z.add_comm, Z.mul_comm, Z.mod_add, Z.mod_small; lia).
  replace ((16 * q + lo) / 16)%Z with q
    by (rewrite Z.add_comm, Z.mul_comm, Z.div_add, Z.div_small; lia).
  reflexivity.
Qed.

Lemma hexValue_hexDigit (d : Z) : (0 <= d < 16)%Z -> hexValue (hexDigit d) = Some d.
Proof.
  intros H.
  assert (T : forallb (fun d => match hexValue (hexDigit d) with
                                | Some v => (v =? d)%Z
                                | None => false
                                end) (range 0 15) = true) by (vm_compute; reflexivity).
  rewrite forallb_forall in T. specialize (T d (In_range 0 15 d ltac:(lia))).
  destruct (hexValue (hexDigit d)); [|discriminate].
  apply Z.eqb_eq in T. subst. reflexivity.
Qed.

Lemma shiftLeft32_small (a k : Z) :
  (0 <= k)%Z -> (0 <= a)%Z -> (a * 2 ^ k < 2 ^ 31)%Z -> shiftLeft32 a k = (a * 2 ^ k)%Z.
Proof.
  intros Hk Ha Hs.
  assert (P : (1 <= 2 ^ k)%Z) by (apply Z.pow_pos_nonneg with (a := 2%Z) in Hk; lia).
  assert (A : (a < 2 ^ 31)%Z) by nia.
  unfold shiftLeft32, toInt32.
  rewrite (Z.mod_small (a + 2 ^ 31)) by lia.
  replace (a + 2 ^ 31 - 2 ^ 31)%Z with a by lia.
  rewrite Z.mod_small by nia. lia.
Qed.

(** The seven characters of [rgbToHex] on three bytes. *)
Lemma rgbToHex_bytes (r g b : Z) :
  (0 <= r <= 255)%Z -> (0 <= g <= 255)%Z -> (0 <= b <= 255)%Z ->
  rgbToHex r g b
  = String "#"%char
      (String (hexDigit (r / 16)) (String (hexDigit (r mod 16))
      (String (hexDigit (g / 16)) (String (hexDigit (g mod 16))
      (String (hexDigit (b / 16)) (String (hexDigit (b mod 16)) EmptyString)))))).
Proof.
  intros Hr Hg Hb. unfold rgbToHex.
  rewrite (shiftLeft32_small 1 24), (shiftLeft32_small r 16), (shiftLeft32_small g 8)
    by lia.
  change (2 ^ 24)%Z with 16777216%Z. change (2 ^ 16)%Z with 65536%Z.
  change (2 ^ 8)%Z with 256%Z.
  set (n := (1 * 16777216 + r * 65536 + g * 256 + b)%Z).
  assert (Hn : (2 ^ 24 <= n < 2 ^ 25)%Z) by (subst n; lia).
  unfold toString16.
  replace (n <? 0)%Z with false by (symmetry; apply Z.ltb_ge; lia).
  rewrite (Z.log2_unique n 24) by lia.
  change (Z.to_nat 24) with 24%nat.
  pose proof (Z.div_mod r 16 ltac:(lia)) as Er.
  pose proof (Z.div_mod g 16 ltac:(lia)) as Eg.
  pose proof (Z.div_mod b 16 ltac:(lia)) as Eb.
  pose proof (Z.mod_pos_bound r 16 ltac:(lia)) as Br.
  pose proof (Z.mod_pos_bound g 16 ltac:(lia)) as Bg.
  pose proof (Z.mod_pos_bound b 16 ltac:(lia)) as Bb.
  assert (Qr : (0 <= r / 16 < 16)%Z)
    by (split; [apply Z.div_pos; lia | apply Z.div_lt_upper_bound; lia]).
  assert (Qg : (0 <= g / 16 < 16)%Z)
    by (split; [apply Z.div_pos; lia | apply Z.div_lt_upper_bound; lia]).
  assert (Qb : (0 <= b / 16 < 16)%Z)
    by (split; [apply Z.div_pos; lia | apply Z.div_lt_upper_bound; lia]).
  set (r1 := (r / 16)%Z) in *. set (r0 := (r mod 16)%Z) in *.
  set (g1 := (g / 16)%Z) in *. set (g0 := (g mod 16)%Z) in *.
  set (b1 := (b / 16)%Z) in *. set (b0 := (b mod 16)%Z) in *.
  replace n
    with (16 * (16 * (16 * (16 * (16 * (16 * 1 + r1) + r0) + g1) + g0) + b1) + b0)%Z
    by (subst n; lia).
  rewrite !hexDigitsOf_step by lia.
  rewrite hexDigitsOf_last by lia.
  reflexivity.
Qed.

Section LuminanceFacts.

Context {num : Type} {N : JSNumber num}.
Local Open Scope num_scope.

(** X18.  A colour of three bytes written by [rgbToHex] is a [#] and six
    hexadecimal digits that [getLuminance] reads back in full: its result
    is the weighted sum of the three bytes, not the fallback 0 of a string
    it cannot parse. *)
Theorem getLuminance_rgbToHex (r g b : Z) :
  (0 <= r <= 255)%Z -> (0 <= g <= 255)%Z -> (0 <= b <= 255)%Z ->
  String.length (rgbToHex r g b) = 7%nat
  /\ matchHexColor (rgbToHex r g b) = Some (r, g, b)
  /\ getLuminance (rgbToHex r g b)
     = num_lit 0.299 * num_ofZ r + num_lit 0.587 * num_ofZ g + num_lit 0.114 * num_ofZ b.
Proof.
  intros Hr Hg Hb.
  assert (M : matchHexColor (rgbToHex r g b) = Some (r, g, b)).
  { rewrite rgbToHex_bytes by assumption.
    unfold matchHexColor. cbn [list_ascii_of_string].
    pose proof (Z.mod_pos_bound r 16 ltac:(lia)).
    pose proof (Z.mod_pos_bound g 16 ltac:(lia)).
    pose proof (Z.mod_pos_bound b 16 ltac:(lia)).
    rewrite !hexValue_hexDigit
      by (first [assumption
                | split; [apply Z.div_pos; lia | apply Z.div_lt_upper_bound; lia]]).
    cbv beta iota. rewrite <- !Z.div_mod by lia. reflexivity. }
  split; [rewrite rgbToHex_bytes by assumption; reflexivity|].
  split; [exact M|].
  unfold getLuminance. rewrite M. reflexivity.
Qed.

End LuminanceFacts.

Lemma getLuminance_rgbToHex_witness :
  String.length (rgbToHex 196 74 74) = 7%nat
  /\ matchHexColor (rgbToHex 196 74 74) = Some (196, 74, 74)%Z
  /\ @getLuminance float _ (rgbToHex 196 74 74)
     = (num_lit 0.299 * num_ofZ 196 + num_lit 0.587 * num_ofZ 74
        + num_lit 0.114 * num_ofZ 74)%num.
Proof.
  apply (getLuminance_rgbToHex 196 74 74); lia.
Defined.

(* ================================================================== *)
(** ** Morphological opening *)

Lemma store_length (i v : Z) (grid : list Z) : length (store i v grid) = length grid.
Proof. unfold store. destruct (i <? 0)%Z; [reflexivity | apply setByte_length]. Qed.

Lemma cell_store (i v : Z) (grid : list Z) (j : Z) :
  cell (store i v grid) j
  = if (i =? j)%Z && (0 <=? j)%Z && (j <? Z.of_nat (length grid))%Z then v
    else cell grid j.
Proof.
  unfold cell, store.
  destruct (i <? 0)%Z eqn:Ei; destruct (j <? 0)%Z eqn:Ej;
    destruct (i =? j)%Z eqn:E; destruct (0 <=? j)%Z eqn:E0;
    destruct (j <? Z.of_nat (length grid))%Z eqn:El; simpl;
    repeat match goal with
           | H : (_ <? _)%Z = true |- _ => apply Z.ltb_lt in H
           | H : (_ <? _)%Z = false |- _ => apply Z.ltb_ge in H
           | H : (_ <=? _)%Z = true |- _ => apply Z.leb_le in H
           | H : (_ <=? _)%Z = false |- _ => apply Z.leb_gt in H
           | H : (_ =? _)%Z = true |- _ => apply Z.eqb_eq in H
           | H : (_ =? _)%Z = false |- _ => apply Z.eqb_neq in H
           end; try lia; try reflexivity;
    rewrite nth_setByte.
  - subst j.
    replace (Z.to_nat i =? Z.to_nat i)%nat with true by (symmetry; apply Nat.eqb_refl).
    replace (Z.to_nat i <? length grid)%nat with true
      by (symmetry; apply Nat.ltb_lt; lia).
    reflexivity.
  - subst j.
    replace (Z.to_nat i <? length grid)%nat with false
      by (symmetry; apply Nat.ltb_ge; lia).
    rewrite andb_false_r. reflexivity.
  - replace (Z.to_nat i =? Z.to_nat j)%nat with false
      by (symmetry; apply Nat.eqb_neq; lia).
    reflexivity.
  - replace (Z.to_nat i =? Z.to_nat j)%nat with false
      by (symmetry; apply Nat.eqb_neq; lia).
    reflexivity.
Qed.

Lemma cell_zeros (len : nat) (j : Z) : cell (repeat 0%Z len) j = 0%Z.
Proof.
  unfold cell. destruct (j <? 0)%Z; [reflexivity|].
  destruct (Nat.lt_ge_cases (Z.to_nat j) len) as [H|H].
  - apply nth_repeat_lt. exact H.
  - apply nth_overflow. rewrite repeat_length. exact H.
Qed.

Lemma cell_outside (grid : list Z) (j : Z) :
  (j < 0 \/ Z.of_nat (length grid) <= j)%Z -> cell grid j = 0%Z.
Proof.
  intros H. unfold cell. destruct (j <? 0)%Z eqn:E; [reflexivity|].
  apply Z.ltb_ge in E. apply nth_overflow. lia.
Qed.

(** The two nested loops visit [interiorCells]. *)
Lemma morphologyPass_cells (body : list Z -> list Z -> Z -> list Z) (w h : Z) (len : nat)
    (current : list Z) :
  morphologyPass body w h len current
  = fold_left (body current) (interiorCells w h) (repeat 0%Z len).
Proof.
  unfold morphologyPass, interiorCells.
  generalize (repeat 0%Z len). generalize (range 1 (h - 2)).
  induction l as [|y ys IH]; intros temp; simpl; [reflexivity|].
  rewrite fold_left_app, IH. f_equal.
  generalize temp. generalize (range 1 (w - 2)).
  induction l as [|x xs IHx]; intros t; simpl; [reflexivity | apply IHx].
Qed.

Lemma erode_fold (w : Z) (current : list Z) (cells : list Z) :
  forall temp j,
    length (fold_left (erodeCell w current) cells temp) = length temp
    /\ cell (fold_left (erodeCell w current) cells temp) j
       = if existsb (fun idx => keepsCell w current idx && (idx =? j)%Z) cells
            && (0 <=? j)%Z && (j <? Z.of_nat (length temp))%Z
         then 1%Z else cell temp j.
Proof.
  induction cells as [|idx cells IH]; intros temp j; simpl; [auto|].
  destruct (IH (erodeCell w current temp idx) j) as [L C].
  rewrite L, C. clear L C IH.
  unfold erodeCell.
  destruct (keepsCell w current idx); simpl.
  - rewrite store_length, cell_store. split; [reflexivity|].
    destruct (existsb _ cells); simpl;
      destruct (idx =? j)%Z; simpl; try reflexivity;
      destruct (0 <=? j)%Z; simpl; try reflexivity;
      destruct (j <? Z.of_nat (length temp))%Z; reflexivity.
  - split; reflexivity.
Qed.

Lemma dilate_fold (w : Z) (current : list Z) (cells : list Z) :
  forall temp j,
    length (fold_left (dilateCell w current) cells temp) = length temp
    /\ cell (fold_left (dilateCell w current) cells temp) j
       = if existsb (fun idx => (cell current idx =? 1)%Z && inCross w idx j) cells
            && (0 <=? j)%Z && (j <? Z.of_nat (length temp))%Z
         then 1%Z else cell temp j.
Proof.
  induction cells as [|idx cells IH]; intros temp j; simpl; [auto|].
  destruct (IH (dilateCell w current temp idx) j) as [L C].
  rewrite L, C. clear L C IH.
  unfold dilateCell.
  destruct (cell current idx =? 1)%Z; simpl.
  - rewrite !store_length, !cell_store, !store_length. split; [reflexivity|].
    unfold inCross.
    rewrite (Z.eqb_sym j idx), (Z.eqb_sym j (idx - 1)), (Z.eqb_sym j (idx + 1)),
            (Z.eqb_sym j (idx - w)), (Z.eqb_sym j (idx + w)).
    destruct (existsb _ cells); simpl;
      destruct (idx =? j)%Z; destruct (idx - 1 =? j)%Z; destruct (idx + 1 =? j)%Z;
      destruct (idx - w =? j)%Z; destruct (idx + w =? j)%Z; simpl; try reflexivity;
      destruct (0 <=? j)%Z; simpl; try reflexivity;
      destruct (j <? Z.of_nat (length temp))%Z; reflexivity.
  - split; reflexivity.
Qed.

(** One erosion: the cells at 1 are interior cells that were at 1 with
    four truthy neighbours; every other cell is at 0. *)
Lemma erode_spec (w h : Z) (len : nat) (current : list Z) (j : Z) :
  length (morphologyPass (erodeCell w) w h len current) = len
  /\ (cell (morphologyPass (erodeCell w) w h len current) j = 0%Z
      \/ cell (morphologyPass (erodeCell w) w h len current) j = 1%Z)
  /\ (cell (morphologyPass (erodeCell w) w h len current) j = 1%Z ->
      In j (interiorCells w h) /\ keepsCell w current j = true).
Proof.
  rewrite morphologyPass_cells.
  destruct (erode_fold w current (interiorCells w h) (repeat 0%Z len) j) as [L C].
  rewrite repeat_length in L, C. rewrite cell_zeros in C. rewrite L, C.
  split; [reflexivity|].
  destruct (existsb _ _ && _ && _) eqn:E.
  - split; [right; reflexivity|]. intros _.
    apply andb_true_iff in E. destruct E as [E _].
    apply andb_true_iff in E. destruct E as [E _].
    apply existsb_exists in E. destruct E as (idx & Hin & Hk).
    apply andb_true_iff in Hk. destruct Hk as [Hk He].
    apply Z.eqb_eq in He. subst idx. auto.
  - split; [left; reflexivity|]. intros H. discriminate.
Qed.

(** One dilation: a cell is at 1 exactly when it lies inside the array
    and in the cross of an interior cell that was at 1; every other cell is
    at 0. *)
Lemma dilate_spec (w h : Z) (len : nat) (current : list Z) (j : Z) :
  length (morphologyPass (dilateCell w) w h len current) = len
  /\ (cell (morphologyPass (dilateCell w) w h len current) j = 0%Z
      \/ cell (morphologyPass (dilateCell w) w h len current) j = 1%Z)
  /\ (cell (morphologyPass (dilateCell w) w h len current) j = 1%Z
      <-> (0 <= j < Z.of_nat len)%Z
          /\ exists idx, In idx (interiorCells w h)
                         /\ cell current idx = 1%Z /\ inCross w idx j = true).
Proof.
  rewrite morphologyPass_cells.
  destruct (dilate_fold w current (interiorCells w h) (repeat 0%Z len) j) as [L C].
  rewrite repeat_length in L, C. rewrite cell_zeros in C. rewrite L, C.
  split; [reflexivity|].
  destruct (existsb _ _ && _ && _) eqn:E.
  - split; [right; reflexivity|]. split; [intros _ | reflexivity].
    apply andb_true_iff in E. destruct E as [E E2].
    apply andb_true_iff in E. destruct E as [E E1].
    apply Z.leb_le in E1. apply Z.ltb_lt in E2. split; [lia|].
    apply existsb_exists in E. destruct E as (idx & Hin & Hk).
    apply andb_true_iff in Hk. destruct Hk as [Hk Hc].
    apply Z.eqb_eq in Hk. eauto.
  - split; [left; reflexivity|]. split; [discriminate|].
    intros [Hj (idx & Hin & Hc & Hx)]. exfalso.
    assert (T : existsb (fun idx => (cell current idx =? 1)%Z && inCross w idx j)
                  (interiorCells w h) = true).
    { apply existsb_exists. exists idx. split; [exact Hin|].
      rewrite Hc, Hx. reflexivity. }
    rewrite T in E. simpl in E.
    replace (0 <=? j)%Z with true in E by (symmetry; apply Z.leb_le; lia).
    replace (j <? Z.of_nat len)%Z with true in E by (symmetry; apply Z.ltb_lt; lia).
    discriminate.
Qed.

(** A cell kept by an erosion was at 1 and its cross was truthy. *)
Lemma keepsCell_cross (w : Z) (current : list Z) (idx j : Z) :
  keepsCell w current idx = true -> inCross w idx j = true ->
  cell current j <> 0%Z /\ cell current idx = 1%Z.
Proof.
  unfold keepsCell, inCross. intros K X.
  repeat (apply andb_true_iff in K; destruct K as [K ?]).
  apply Z.eqb_eq in K.
  repeat match goal with
         | H : negb _ = true |- _ => apply negb_true_iff in H; apply Z.eqb_neq in H
         end.
  split; [|exact K].
  repeat (apply orb_true_iff in X; destruct X as [X|X]);
    apply Z.eqb_eq in X; subst j; try assumption.
  rewrite K. discriminate.
Qed.

Lemma dilations_length (w h : Z) (len : nat) (n : nat) (g : list Z) :
  length g = len -> length (Nat.iter n (morphologyPass (dilateCell w) w h len) g) = len.
Proof.
  intros H. destruct n; [exact H|]. simpl.
  apply (dilate_spec w h len _ 0).
Qed.

Lemma erosions_length (w h : Z) (len : nat) (n : nat) (g : list Z) :
  length g = len -> length (Nat.iter n (morphologyPass (erodeCell w) w h len) g) = len.
Proof.
  intros H. destruct n; [exact H|]. simpl.
  apply (erode_spec w h len _ 0).
Qed.

(** Dilations keep inclusions of the cells at 1. *)
Lemma dilations_monotone (w h : Z) (len : nat) (n : nat) :
  forall a b : list Z,
    (forall j, cell a j = 1%Z -> cell b j = 1%Z) ->
    forall j, cell (Nat.iter n (morphologyPass (dilateCell w) w h len) a) j = 1%Z ->
              cell (Nat.iter n (morphologyPass (dilateCell w) w h len) b) j = 1%Z.
Proof.
  induction n as [|n IH]; intros a b Hab j; simpl; [apply Hab|].
  intros H.
  apply (dilate_spec w h len _ j) in H. destruct H as [Hj (idx & Hin & Hc & Hx)].
  apply (dilate_spec w h len _ j). split; [exact Hj|].
  exists idx. split; [exact Hin|]. split; [|exact Hx].
  apply (IH a b Hab). exact Hc.
Qed.

Lemma iter_shift {A : Type} (f : A -> A) (n : nat) (a : A) :
  Nat.iter n f (f a) = f (Nat.iter n f a).
Proof. induction n as [|n IH]; simpl; [reflexivity | rewrite IH; reflexivity]. Qed.

(** Erosions followed by as many dilations give back cells of the grid. *)
Lemma opening_inside (w h : Z) (len : nat) (n : nat) :
  forall g : list Z,
    forall j,
      cell (Nat.iter n (morphologyPass (dilateCell w) w h len)
              (Nat.iter n (morphologyPass (erodeCell w) w h len) g)) j = 1%Z ->
      cell g j <> 0%Z.
Proof.
  induction n as [|n IH]; intros g j H.
  - simpl in H. rewrite H. discriminate.
  - set (eroded := Nat.iter n (morphologyPass (erodeCell w) w h len) g).
    assert (H' : cell (Nat.iter n (morphologyPass (dilateCell w) w h len)
                         (morphologyPass (dilateCell w) w h len
                            (morphologyPass (erodeCell w) w h len eroded))) j = 1%Z).
    { rewrite iter_shift. exact H. }
    clear H.
    assert (Inner : forall i,
               cell (morphologyPass (dilateCell w) w h len
                       (morphologyPass (erodeCell w) w h len eroded)) i = 1%Z ->
               cell eroded i <> 0%Z).
    { intros i Hi.
      apply (dilate_spec w h len _ i) in Hi. destruct Hi as [_ (idx & _ & Hc & Hx)].
      apply (erode_spec w h len eroded idx) in Hc. destruct Hc as [_ Hk].
      apply (keepsCell_cross w eroded idx i Hk Hx). }
    destruct n as [|n'].
    + apply (Inner j). exact H'.
    + apply IH. fold eroded.
      apply (dilations_monotone w h len (S n')
               (morphologyPass (dilateCell w) w h len
                  (morphologyPass (erodeCell w) w h len eroded)) eroded);
        [|exact H'].
      intros i Hi. apply Inner in Hi.
      destruct (proj1 (proj2 (erode_spec w h len
                  (Nat.iter n' (morphologyPass (erodeCell w) w h len) g) i)))
        as [B|B]; [contradiction | exact B].
Qed.

(** X19.  [morphologyOpen] only takes pixels away: the result has the size of
    the grid, and a cell it sets to 1 was not 0 in the grid.  With at
    least one pass every cell of the result is 0 or 1. *)
Theorem morphologyOpen_only_removes (grid : list Z) (w h : Z) (passes : nat) :
  length (morphologyOpen grid w h passes) = length grid
  /\ (forall j, cell (morphologyOpen grid w h passes) j = 1%Z -> cell grid j <> 0%Z)
  /\ (forall j, (1 <= passes)%nat ->
                cell (morphologyOpen grid w h passes) j = 0%Z
                \/ cell (morphologyOpen grid w h passes) j = 1%Z).
Proof.
  unfold morphologyOpen. cbv zeta.
  split; [|split].
  - apply dilations_length. apply erosions_length. reflexivity.
  - apply opening_inside.
  - intros j Hp. destruct passes as [|n]; [lia|].
    cbn [Nat.iter]. apply (dilate_spec w h (length grid) _ j).
Qed.

(* ================================================================== *)
(** ** The sequencer on any list of paths *)

Section SequencerFacts.

Context {num : Type} {N : JSNumber num}.

Lemma scanPath_names (currentPos : Point num) (remaining : list (list (Point num)))
    (i : nat) (p : list (Point num)) :
  nth_error remaining i = Some p ->
  forall (vs : list (Point num)) (v : nat) (best : Best num),
    vs = skipn v p -> namesVertex remaining best ->
    namesVertex remaining (scanPath currentPos i v vs best).
Proof.
  intros Hp. induction vs as [|a vs IH]; intros v best Hv Hb; [exact Hb|].
  destruct vs as [|b vs]; [exact Hb|].
  cbn [scanPath]. apply (IH (S v)).
  - rewrite <- (Nat.add_1_l v), <- skipn_skipn, <- Hv. reflexivity.
  - assert (L : (S v < length p)%nat).
    { assert (E : length (a :: b :: vs) = length (skipn v p)) by (rewrite Hv; reflexivity).
      rewrite length_skipn in E. simpl in E. lia. }
    unfold scanVertex. destruct best as [[[i0 v0] m]|]; [|simpl; eauto].
    destruct (num_lt _ _); [simpl; eauto | exact Hb].
Qed.

Lemma scanPaths_names (currentPos : Point num) (remaining : list (list (Point num))) :
  forall (rest : list (list (Point num))) (i : nat) (best : Best num),
    rest = skipn i remaining -> namesVertex remaining best ->
    namesVertex remaining (scanPaths currentPos i rest best).
Proof.
  induction rest as [|p rest IH]; intros i best Hr Hb; [exact Hb|].
  cbn [scanPaths]. apply IH.
  - rewrite <- (Nat.add_1_l i), <- skipn_skipn, <- Hr. reflexivity.
  - apply (scanPath_names currentPos remaining i p); [|reflexivity|exact Hb].
    rewrite <- (Nat.add_0_r i), <- nth_error_skipn, <- Hr. reflexivity.
Qed.

Lemma reorderPolygonToStartAt_length (p : list (Point num)) (v : nat) :
  (S v < length p)%nat -> length (reorderPolygonToStartAt p v) = length p.
Proof.
  intros H. unfold reorderPolygonToStartAt.
  destruct v as [|v]; [reflexivity|]. cbv zeta.
  set (u := firstn (length p - 1) p).
  assert (Lu : length u = (length p - 1)%nat) by (subst u; rewrite length_firstn; lia).
  assert (Lr : length (skipn (S v) u ++ firstn (S v) u) = (length p - 1)%nat).
  { rewrite length_app, length_skipn, length_firstn. lia. }
  rewrite length_app, Lr.
  destruct (skipn (S v) u ++ firstn (S v) u) as [|a r]; simpl in *; lia.
Qed.

Lemma optimizeLoop_lengths (rounds : nat) :
  forall (currentPos : Point num) (remaining optimized : list (list (Point num))),
    (length remaining <= rounds)%nat ->
    Permutation (map (@length (Point num)) (optimizeLoop rounds currentPos remaining optimized))
                (map (@length (Point num)) (optimized ++ remaining)).
Proof.
  induction rounds as [|rounds IH]; intros currentPos remaining optimized Hr.
  - destruct remaining; [|simpl in Hr; lia]. simpl. rewrite app_nil_r. reflexivity.
  - destruct remaining as [|first rest]; [simpl; rewrite app_nil_r; reflexivity|].
    cbn [optimizeLoop].
    pose proof (scanPaths_names currentPos (first :: rest) (first :: rest) 0 None
                  eq_refl I) as V.
    destruct (scanPaths currentPos 0 (first :: rest) None) as [[[i v] m]|].
    + destruct V as (p & Hp & Hv).
      assert (Hi : (i < length (first :: rest))%nat)
        by (apply nth_error_Some; rewrite Hp; discriminate).
      rewrite (nth_error_nth (first :: rest) i [] Hp).
      eapply perm_trans; [apply IH; rewrite removeAt_length by exact Hi; simpl in *; lia|].
      rewrite <- app_assoc, !map_app. apply Permutation_app_head.
      cbn [app map]. rewrite reorderPolygonToStartAt_length by exact Hv.
      exact (Permutation_map (@length (Point num)) (removeAt_perm i (first :: rest) p Hp)).
    + eapply perm_trans; [apply IH; simpl in Hr; lia|].
      rewrite <- app_assoc. reflexivity.
Qed.

(** X20.  Whatever the paths, open or closed, long or short, the sequencer
    returns as many paths as it was given, and their lengths are the
    lengths of the given paths in some order: it neither drops nor repeats a
    path or a point count. *)
Theorem optimizePathSequence_lengths (paths : list (list (Point num))) :
  length (optimizePathSequence paths) = length paths
  /\ Permutation (map (@length (Point num)) (optimizePathSequence paths))
                 (map (@length (Point num)) paths).
Proof.
  assert (P : Permutation (map (@length (Point num)) (optimizePathSequence paths))
                          (map (@length (Point num)) paths)).
  { unfold optimizePathSequence.
    apply (optimizeLoop_lengths (length paths) origin paths []). apply Nat.le_refl. }
  split; [|exact P].
  apply Permutation_length in P. rewrite !length_map in P. exact P.
Qed.

End SequencerFacts.

(* ================================================================== *)
(** ** Termination of the pipeline *)

Lemma settles_value {A : Type} (o : outcome A) :
  o <> OutOfFuel -> settles (fun _ => o).
Proof. intros H. exists 0%nat, o. split; [exact H | reflexivity]. Qed.

Lemma settles_ext {A : Type} (f g : nat -> outcome A) :
  (forall fuel, f fuel = g fuel) -> settles f -> settles g.
Proof.
  intros E (fuel0 & o & Ho & H). exists fuel0, o. split; [exact Ho|].
  intros fuel Hf. rewrite <- E. apply H. exact Hf.
Qed.

Lemma settles_bind {A B : Type} (e : nat -> outcome A) (k : A -> nat -> outcome B) :
  settles e -> (forall a, settles (k a)) ->
  settles (fun fuel => bind (e fuel) (fun a => k a fuel)).
Proof.
  intros (f1 & o & Ho & H1) Hk.
  destruct o as [a| |]; [| |congruence].
  - destruct (Hk a) as (f2 & o2 & Ho2 & H2).
    exists (Nat.max f1 f2), o2. split; [exact Ho2|].
    intros fuel Hf. rewrite H1 by lia. simpl. apply H2. lia.
  - exists f1, Throws. split; [discriminate|].
    intros fuel Hf. rewrite H1 by lia. reflexivity.
Qed.

(** A loop that spends one unit of budget per round. *)
Lemma settles_round {A : Type} (body : nat -> outcome A) :
  settles body ->
  settles (fun fuel => match fuel with O => OutOfFuel | S fuel' => body fuel' end).
Proof.
  intros (f & o & Ho & H). exists (S f), o. split; [exact Ho|].
  intros [|fuel] Hf; [lia|]. apply H. lia.
Qed.

(** A call that does not look at its budget. *)
Ltac settle :=
  match goal with
  | |- settles ?f =>
      let o := eval cbv beta in (f 0%nat) in
      apply (settles_ext (fun _ : nat => o));
      [intros; reflexivity | apply settles_value; discriminate]
  end.

Section TerminationFacts.

Local Open Scope R_scope.

Lemma resampleLoop_more_fuel (spacing : R) (fuel : nat) :
  forall (prev : Point R) (acc : R) (rest newPath out : list (Point R)) (fuel' : nat),
    resampleLoop fuel spacing prev acc rest newPath = Returned out ->
    (fuel <= fuel')%nat ->
    resampleLoop fuel' spacing prev acc rest newPath = Returned out.
Proof.
  induction fuel as [|fuel IH]; intros prev acc rest newPath out fuel' H Hf.
  - destruct rest; simpl in H; [|discriminate].
    destruct fuel'; exact H.
  - destruct fuel' as [|fuel']; [lia|].
    destruct rest as [|curr rest]; [exact H|].
    cbn [resampleLoop] in *. cbv zeta in *.
    destruct (num_le spacing (num_add acc (dist prev curr)));
      apply (IH _ _ _ _ _ fuel') in H; try lia; exact H.
Qed.

Lemma resamplePath_settles (path : list (Point R)) (spacing : R) :
  0 < spacing -> settles (fun fuel => resamplePath fuel path spacing).
Proof.
  intros Hs.
  destruct (resamplePath_returns path spacing Hs) as (fuel0 & out & HR & _).
  exists fuel0, (Returned out). split; [discriminate|].
  intros fuel Hf. unfold resamplePath in *.
  destruct path as [|p0 [|p1 rest]]; try exact HR.
  destruct (resampleLoop fuel0 spacing p0 zero (p1 :: rest) [p0]) as [np| |] eqn:E;
    try discriminate.
  rewrite (resampleLoop_more_fuel spacing fuel0 _ _ _ _ np fuel E Hf). exact HR.
Qed.

Lemma returns_settles {A : Type} (call : nat -> outcome A) (a : A) :
  returns call a -> settles call.
Proof.
  intros (fuel0 & H). exists fuel0, (Returned a). split; [discriminate | exact H].
Qed.

Lemma generateRunningStitches_settles (path : list (Point R)) (config : ProcessingConfig R)
    (i : nat) (hex : string) :
  settles (fun fuel => generateRunningStitches fuel path config i hex).
Proof.
  apply (returns_settles _ _ (generateRunningStitches_points path config i hex)).
Qed.

(** Over the reals the number of steps of a crossing is an integer [n] and
    the counter goes through [k, k + 1, ..., n - 1]. *)
Lemma satinSteps_real (i : nat) (hex : string) (c : nat) (p1 p2 : Point R)
    (currentLen maxSafeShift : R) (n : Z) :
  forall (m : nat) (k : Z) (fuel : nat),
    Z.to_nat (n - k) = m -> (m <= fuel)%nat ->
    satinSteps fuel i hex c p1 p2 currentLen maxSafeShift (IZR n) (IZR k)
    = Returned (map (fun s => satinSplit i hex c p1 p2 currentLen maxSafeShift
                                (IZR n) (IZR s))
                    (range k (n - 1))).
Proof.
  induction m as [|m IH]; intros k fuel Hm Hf.
  - rewrite range_nil by lia.
    assert (E : num_lt (IZR k) (IZR n) = false).
    { apply ltb_false. apply IZR_le. lia. }
    destruct fuel; cbn [satinSteps]; rewrite E; reflexivity.
  - destruct fuel as [|fuel]; [lia|].
    assert (E : num_lt (IZR k) (IZR n) = true).
    { apply ltb_true. apply IZR_lt. lia. }
    cbn [satinSteps]. rewrite E.
    change (num_add (IZR k) (num_ofZ 1)) with (IZR k + IZR 1).
    rewrite <- plus_IZR.
    rewrite (IH (k + 1)%Z fuel) by lia. simpl bind.
    rewrite (range_cons k (n - 1)) by lia. reflexivity.
Qed.

Lemma satinCrossing_settles (config : ProcessingConfig R) (i : nat) (hex : string)
    (c : nat) (p1 p2 : Point R) :
  settles (fun fuel => satinCrossing fuel config i hex c p1 p2).
Proof.
  unfold satinCrossing. cbv zeta.
  destruct (num_lt _ _); [|settle].
  set (maxLen := orElse (maxStitchLengthMm config) (num_lit 7.0)).
  change (Math_ceil (num_div (dist p1 p2) maxLen))
    with (IZR (Exact.ceilZ (dist p1 p2 / maxLen))).
  set (n := Exact.ceilZ (dist p1 p2 / maxLen)).
  match goal with
  | |- settles (fun fuel => bind (satinSteps fuel i hex c p1 p2 ?cl ?ms (IZR n) ?k) ?f) =>
      apply (settles_bind (fun fuel => satinSteps fuel i hex c p1 p2 cl ms (IZR n) k)
                          (fun a _ => f a))
  end.
  - eapply returns_settles. exists (Z.to_nat (n - 1)). intros fuel Hf.
    change (num_ofZ 1) with (IZR 1).
    apply (satinSteps_real i hex c p1 p2 _ _ n _ 1%Z fuel eq_refl Hf).
  - intros a. settle.
Qed.

Lemma satinCrossings_settles (config : ProcessingConfig R) (i : nat) (hex : string)
    (pens : list (nat * (Point R * Point R))) :
  settles (fun fuel => satinCrossings fuel config i hex pens).
Proof.
  induction pens as [|ip pens IH]; cbn [satinCrossings]; [settle|].
  apply (settles_bind
           (fun fuel => satinCrossing fuel config i hex (fst ip) (fst (snd ip))
                          (snd (snd ip)))
           (fun crossing fuel =>
              rest <- satinCrossings fuel config i hex pens ;;
              Returned (crossing ++ rest))).
  - apply satinCrossing_settles.
  - intros crossing.
    apply (settles_bind (fun fuel => satinCrossings fuel config i hex pens)
                        (fun rest _ => Returned (crossing ++ rest)) IH).
    intros rest. settle.
Qed.

Lemma generateSatinStitches_settles (path : list (Point R)) (config : ProcessingConfig R)
    (i : nat) (hex : string) :
  0 < densityMm config ->
  settles (fun fuel => generateSatinStitches fuel path config i hex).
Proof.
  intros Hd. unfold generateSatinStitches.
  destruct (length path <? 2)%nat; [settle|].
  apply (settles_bind (fun fuel => satinPenetrations fuel path config)
                      (fun pens fuel => satinCrossings fuel config i hex _)).
  - unfold satinPenetrations.
    apply (settles_bind (fun fuel => resamplePath fuel path (densityMm config))
                        (fun resampled _ => Returned _)).
    + apply resamplePath_settles. exact Hd.
    + intros a. settle.
  - intros a. apply satinCrossings_settles.
Qed.

(** The brick loop adds 4 each round. *)
Lemma brickLoop_settles (xEnd yRow : R) (k : nat) :
  forall (currX : R) (lineStitches : list (Point R)),
    xEnd - currX <= INR k * 4 ->
    exists out, forall fuel, (k <= fuel)%nat ->
      brickLoop fuel currX xEnd (num_lit 4.0) yRow lineStitches = Returned out.
Proof.
  assert (L4 : (num_lit 4.0 : R) = 4) by (simpl; unfold Q2R; simpl; lra).
  induction k as [|k IH]; intros currX lineStitches Hk.
  - exists lineStitches. intros fuel _.
    assert (E : num_lt currX xEnd = false) by (apply ltb_false; simpl in Hk; lra).
    destruct fuel; cbn [brickLoop]; rewrite E; reflexivity.
  - destruct (num_lt currX xEnd) eqn:E.
    + destruct (IH (currX + 4) (lineStitches ++ [mkPoint currX yRow])) as [out Ho].
      { rewrite S_INR in Hk. lra. }
      exists out. intros [|fuel] Hf; [lia|].
      cbn [brickLoop]. rewrite E.
      replace (num_add currX (num_lit 4.0)) with (currX + 4) by (rewrite L4; reflexivity).
      apply Ho. lia.
    + exists lineStitches. intros fuel _.
      destruct fuel; cbn [brickLoop]; rewrite E; reflexivity.
Qed.

Lemma lineStitchesOf_settles (maxSatinLen yRow xStart xEnd : R) :
  settles (fun fuel => lineStitchesOf fuel maxSatinLen yRow xStart xEnd).
Proof.
  unfold lineStitchesOf. cbv zeta.
  destruct (num_le _ _); [settle|].
  match goal with
  | |- settles (fun fuel => bind (brickLoop fuel ?c ?e ?s ?y ?l) ?k) =>
      destruct (steps_cover (Rmax 0 (e - c)) 4 ltac:(lra) (Rmax_l 0 (e - c))) as [n Hn];
      destruct (brickLoop_settles e y n c l) as [out Ho];
      [pose proof (Rmax_r 0 (e - c)); lra|];
      exists n, (k out); split; [discriminate|];
      intros fuel Hf; rewrite (Ho fuel Hf); reflexivity
  end.
Qed.

Lemma rowSegments_settles (i : nat) (hex : string)
    (invAngle maxSatinLen rowSpacing yRow : R) (n : nat) :
  forall (intersections : list R) (stitches : list (Stitch R)),
    (length intersections <= n)%nat ->
    settles (fun fuel => rowSegments fuel i hex invAngle maxSatinLen rowSpacing yRow
                           intersections stitches).
Proof.
  induction n as [|n IH]; intros intersections stitches Hn.
  - destruct intersections; [|simpl in Hn; lia].
    settle.
  - destruct intersections as [|xStart [|xEnd rest]];
      try (settle).
    cbn [rowSegments]. cbv zeta.
    destruct (num_lt _ _).
    + apply IH. simpl in Hn. lia.
    + apply (settles_bind
               (fun fuel => lineStitchesOf fuel maxSatinLen yRow xStart xEnd)
               (fun lineStitches fuel =>
                  rowSegments fuel i hex invAngle maxSatinLen rowSpacing yRow rest _)).
      * apply lineStitchesOf_settles.
      * intros a. apply IH. simpl in Hn. lia.
Qed.

Lemma rowLoop_settles (i : nat) (hex : string) (edges : list (Point R * Point R))
    (invAngle maxSatinLen rowSpacing maxY : R) (k : nat) :
  0 < rowSpacing ->
  forall (yRow : R) (stitches : list (Stitch R)),
    maxY - yRow <= INR k * rowSpacing ->
    settles (fun fuel => rowLoop fuel i hex edges invAngle maxSatinLen rowSpacing maxY
                           yRow stitches).
Proof.
  intros Hs. induction k as [|k IH]; intros yRow stitches Hk.
  - assert (E : num_lt yRow maxY = false) by (apply ltb_false; simpl in Hk; lra).
    apply (settles_ext (fun _ => Returned stitches));
      [|apply settles_value; discriminate].
    intros fuel. destruct fuel; cbn [rowLoop]; rewrite E; reflexivity.
  - destruct (num_lt yRow maxY) eqn:E.
    + apply (settles_ext
               (fun fuel =>
                  match fuel with
                  | O => OutOfFuel
                  | S fuel' =>
                      bind (rowSegments fuel' i hex invAngle maxSatinLen rowSpacing yRow
                              (sortNumbers (rowIntersections edges yRow)) stitches)
                           (fun stitches' =>
                              rowLoop fuel' i hex edges invAngle maxSatinLen rowSpacing maxY
                                (yRow + rowSpacing) stitches')
                  end)).
      * intros [|fuel]; cbn [rowLoop]; rewrite E; reflexivity.
      * apply (settles_round
                 (fun fuel' =>
                    bind (rowSegments fuel' i hex invAngle maxSatinLen rowSpacing yRow
                            (sortNumbers (rowIntersections edges yRow)) stitches)
                         (fun stitches' =>
                            rowLoop fuel' i hex edges invAngle maxSatinLen rowSpacing maxY
                              (yRow + rowSpacing) stitches'))).
        apply (settles_bind
                 (fun fuel' => rowSegments fuel' i hex invAngle maxSatinLen rowSpacing yRow
                                 (sortNumbers (rowIntersections edges yRow)) stitches)
                 (fun stitches' fuel' =>
                    rowLoop fuel' i hex edges invAngle maxSatinLen rowSpacing maxY
                      (yRow + rowSpacing) stitches')).
        -- apply (rowSegments_settles i hex invAngle maxSatinLen rowSpacing yRow
                    (length (sortNumbers (rowIntersections edges yRow)))).
           apply Nat.le_refl.
        -- intros a. apply IH. rewrite S_INR in Hk. lra.
    + apply (settles_ext (fun _ => Returned stitches));
        [|apply settles_value; discriminate].
      intros fuel. destruct fuel; cbn [rowLoop]; rewrite E; reflexivity.
Qed.

Lemma generateTatamiStitches_settles (shapePaths : list (list (Point R)))
    (config : ProcessingConfig R) (i : nat) (hex : string) :
  0 < densityMm config ->
  settles (fun fuel => generateTatamiStitches fuel shapePaths config i hex).
Proof.
  intros Hd. unfold generateTatamiStitches.
  destruct (isEmpty shapePaths); [settle|].
  cbv zeta.
  destruct (allEdges _) as [edges| |] eqn:E; simpl.
  - destruct (fold_left lowerY _ None) as [minY|];
      [|settle].
    destruct (fold_left upperY _ None) as [maxY|];
      [|settle].
    destruct (steps_cover (Rmax 0 (maxY - (minY + densityMm config))) (densityMm config) Hd
                (Rmax_l 0 _)) as [k Hk].
    apply (rowLoop_settles i hex edges _ _ (densityMm config) maxY k Hd).
    pose proof (Rmax_r 0 (maxY - (minY + densityMm config))).
    change (num_add minY (densityMm config)) with (minY + densityMm config). lra.
  - settle.
  - exfalso. clear -E.
    revert E. generalize (map (map (fun p : Point R => rotatePoint p
                (num_mul (num_neg (tatamiAngle config)) (num_div Math_PI (num_ofZ 180)))))
                (map (fun p => offsetPolygon p (pullCompensationMm config)) shapePaths)).
    induction l as [|p l IH]; simpl; [discriminate|].
    unfold pathEdges. destruct p as [|a p]; [discriminate|].
    destruct (lastOf (a :: p)); simpl; [|discriminate].
    destruct (allEdges l); simpl; try discriminate. intros _. apply IH. reflexivity.
Qed.

Lemma generateUnderlay_settles (path : list (Point R)) (config : ProcessingConfig R)
    (i : nat) (hex : string) :
  settles (fun fuel => generateUnderlay fuel path config i hex).
Proof.
  unfold generateUnderlay.
  destruct (negb (enableUnderlay config)); [settle|].
  assert (F : forall p,
             settles (fun fuel =>
                        run <- generateRunningStitches fuel p config i hex ;;
                        match run with
                        | run0 :: _ =>
                            Returned (map asStructure run
                                      ++ [asStructure (withType run0 stitch)])
                        | [] => Returned (map asStructure run)
                        end)).
  { intros p.
    apply (settles_bind (fun fuel => generateRunningStitches fuel p config i hex)
                        (fun run _ => match run with
                                      | run0 :: _ => Returned _
                                      | [] => Returned _
                                      end)).
    - apply generateRunningStitches_settles.
    - intros [|run0 run]; settle. }
  match goal with
  | |- settles (fun fuel => bind (@?e fuel) ?k) =>
      apply (settles_bind e (fun a _ => k a))
  end; [|intros a; settle].
  destruct (stitchType config); cbv zeta.
  - destruct (_ <? _)%nat; [apply F | settle].
  - destruct (num_lt _ _); [apply generateRunningStitches_settles|].
    destruct (num_lt _ _); [|settle].
    apply generateSatinStitches_settles. simpl. unfold Q2R. simpl. lra.
  - destruct (_ <? _)%nat; [apply F | settle].
Qed.

Lemma generateMain_settles (path : list (Point R)) (config : ProcessingConfig R)
    (i : nat) (hex : string) :
  stitchType config = running \/ 0 < densityMm config ->
  settles (fun fuel => generateMain fuel path config i hex).
Proof.
  intros Hd. unfold generateMain.
  destruct (stitchType config); [apply generateRunningStitches_settles| |];
    (destruct Hd as [Hd|Hd]; [discriminate|]).
  - apply generateSatinStitches_settles. exact Hd.
  - apply generateTatamiStitches_settles. exact Hd.
Qed.

Lemma digitizePath_settles (config : ProcessingConfig R) (i : nat) (hex : string)
    (layerStitches : list (Stitch R)) (path : list (Point R)) :
  stitchType config = running \/ 0 < densityMm config ->
  settles (fun fuel => digitizePath fuel config i hex layerStitches path).
Proof.
  intros Hd. unfold digitizePath.
  match goal with
  | |- settles (fun fuel => bind (generateUnderlay fuel ?p ?c ?i ?h) (@?k fuel)) =>
      apply (settles_bind (fun fuel => generateUnderlay fuel p c i h)
                          (fun a fuel => k fuel a))
  end.
  - apply generateUnderlay_settles.
  - intros underlay. cbv beta zeta.
    match goal with
    | |- settles (fun fuel => bind (generateMain fuel ?p ?c ?i ?h) ?k) =>
        apply (settles_bind (fun fuel => generateMain fuel p c i h) (fun a _ => k a))
    end.
    + apply generateMain_settles. exact Hd.
    + intros main. cbv beta. destruct (isEmpty main); settle.
Qed.

Lemma digitizePaths_settles (config : ProcessingConfig R) (i : nat) (hex : string)
    (ps : list (list (Point R))) :
  stitchType config = running \/ 0 < densityMm config ->
  forall layerStitches,
    settles (fun fuel => digitizePaths fuel config i hex layerStitches ps).
Proof.
  intros Hd. induction ps as [|path ps IH]; intros layerStitches; cbn [digitizePaths].
  - settle.
  - apply (settles_bind (fun fuel => digitizePath fuel config i hex layerStitches path)
                        (fun ls fuel => digitizePaths fuel config i hex ls ps)).
    + apply digitizePath_settles. exact Hd.
    + exact IH.
Qed.

Lemma digitizeLayers_settles (config : ProcessingConfig R) (layers : list (VectorLayer R)) :
  stitchType config = running \/ 0 < densityMm config ->
  forall i allStitches,
    settles (fun fuel => digitizeLayers fuel config i allStitches layers).
Proof.
  intros Hd. induction layers as [|layer layers IH]; intros i allStitches;
    cbn [digitizeLayers].
  - settle.
  - apply (settles_bind (fun fuel => digitizeLayer fuel config i allStitches layer)
                        (fun a fuel => digitizeLayers fuel config (S i) a layers)).
    + unfold digitizeLayer.
      apply (settles_bind
               (fun fuel => digitizePaths fuel config i (color layer) [] (paths layer))
               (fun ls _ => match ls with
                            | [] => Returned allStitches
                            | first :: _ => Returned _
                            end)).
      * apply digitizePaths_settles. exact Hd.
      * intros [|first ls]; settle.
    + intros a. apply IH.
Qed.

(** X21.  With a positive density [digitizeDesign] comes to an end on every
    design and for each of the three stitch types: from some loop budget on
    it returns one and the same sequence, or throws.  (The resampling loop
    of the satin generator and the row loop of the tatami generator advance
    by the density; the brick loop advances by 4 mm.) *)
Theorem digitizeDesign_settles (layers : list (VectorLayer R)) (config : ProcessingConfig R) :
  0 < densityMm config ->
  settles (fun fuel => digitizeDesign fuel layers config).
Proof.
  intros Hd. unfold digitizeDesign.
  apply (settles_bind (fun fuel => digitizeLayers fuel config 0 [] layers)
                      (fun allStitches _ =>
                         match lastOf (removeSmallStitches allStitches
                                         (minStitchLengthMm config)) with
                         | Some last => Returned _
                         | None => Returned _
                         end)).
  - apply digitizeLayers_settles. right. exact Hd.
  - intros a. destruct (lastOf _); settle.
Qed.

(** Over the reals the running pipeline returns for every configuration:
    the number of steps of a segment is finite, and nothing throws. *)
Lemma digitizeDesign_running_returns_real (layers : list (VectorLayer R))
    (config : ProcessingConfig R) :
  stitchType config = running ->
  exists out, returns (fun fuel => digitizeDesign fuel layers config) out.
Proof.
  intros T.
  assert (S : settles (fun fuel => digitizeDesign fuel layers config)).
  { unfold digitizeDesign.
    apply (settles_bind (fun fuel => digitizeLayers fuel config 0 [] layers)
                        (fun allStitches _ =>
                           match lastOf (removeSmallStitches allStitches
                                           (minStitchLengthMm config)) with
                           | Some last => Returned _
                           | None => Returned _
                           end)).
    - apply digitizeLayers_settles. left. exact T.
    - intros a. destruct (lastOf _); settle. }
  destruct S as (fuel0 & o & Ho & H).
  destruct o as [out| |]; [exists out, fuel0; exact H | | congruence].
  exfalso. apply (digitizeDesign_no_throw fuel0 layers config).
  - rewrite T. discriminate.
  - apply H. apply Nat.le_refl.
Qed.

(** *** A density that is not positive *)

(** X22.  With the satin type and a density that is not positive
    [digitizeDesign] never comes to an end on a design whose first path
    starts with two distinct points: the resampling loop emits a point on
    every round without advancing, so whatever the loop budget the call is
    still running. *)
Theorem digitizeDesign_satin_hangs (fuel : nat) (config : ProcessingConfig R)
    (hex : string) (p0 p1 : Point R) (rest : list (Point R))
    (ps : list (list (Point R))) (layers : list (VectorLayer R)) :
  stitchType config = satin -> densityMm config <= 0 -> 0 < dist p0 p1 ->
  digitizeDesign fuel (mkLayer hex ((p0 :: p1 :: rest) :: ps) :: layers) config
  = OutOfFuel.
Proof.
  intros T Hd _.
  unfold digitizeDesign. cbn [digitizeLayers]. unfold digitizeLayer.
  cbn [paths color digitizePaths]. unfold digitizePath.
  pose proof (generateUnderlay_no_throw fuel (p0 :: p1 :: rest) config 0 hex) as U.
  destruct (generateUnderlay fuel (p0 :: p1 :: rest) config 0 hex) as [u| |];
    [|congruence|reflexivity].
  cbn [bind]. unfold generateMain. rewrite T.
  rewrite (generateSatinStitches_never_returns fuel p0 p1 rest config 0 hex Hd).
  reflexivity.
Qed.

End TerminationFacts.

Lemma digitizeDesign_settles_witness :
  settles (fun fuel =>
             digitizeDesign fuel [mkLayer "#000000" [RealScenario.straightPath]]
               RealScenario.satinConfig).
Proof.
  apply (digitizeDesign_settles [mkLayer "#000000" [RealScenario.straightPath]]
           RealScenario.satinConfig).
  simpl. lra.
Defined.

Lemma digitizeDesign_satin_hangs_witness :
  digitizeDesign 1000
    [mkLayer "#000000" [[mkPoint 0 0; mkPoint 10 0]%R]]
    (RealScenario.config satin 0 2 7)
  = OutOfFuel.
Proof.
  apply (digitizeDesign_satin_hangs 1000 (RealScenario.config satin 0 2 7) "#000000"
           (mkPoint 0 0)%R (mkPoint 10 0)%R [] [] []).
  - reflexivity.
  - simpl. lra.
  - unfold dist, pow2. simpl.
    replace ((0 - 10) * (0 - 10) + (0 - 0) * (0 - 0))%R with (10 * 10)%R by ring.
    rewrite sqrt_square by lra. lra.
Defined.

(* ================================================================== *)
(** ** The tatami fill *)

Section TatamiFacts.

Context {num : Type} {N : JSNumber num}.

Lemma emitSegment_head (i : nat) (hex : string) (invAngle : num) (isReverse : bool)
    (lineStitches : list (Point num)) (stitches : list (Stitch num)) :
  (stitches = [] \/ exists s l, stitches = s :: l /\ type s = jump) ->
  exists s l, emitSegment i hex invAngle isReverse lineStitches stitches = s :: l
              /\ type s = jump.
Proof.
  intros [->|(s & l & -> & T)]; unfold emitSegment; cbv zeta.
  - simpl. eauto.
  - simpl. eauto.
Qed.

Lemma rowSegments_head (fuel : nat) (i : nat) (hex : string)
    (invAngle maxSatinLen rowSpacing yRow : num) (n : nat) :
  forall (intersections : list num) (stitches out : list (Stitch num)),
    (length intersections <= n)%nat ->
    (stitches = [] \/ exists s l, stitches = s :: l /\ type s = jump) ->
    rowSegments fuel i hex invAngle maxSatinLen rowSpacing yRow intersections stitches
    = Returned out ->
    out = [] \/ exists s l, out = s :: l /\ type s = jump.
Proof.
  induction n as [|n IH]; intros intersections stitches out Hn Hs H.
  - destruct intersections; [|simpl in Hn; lia].
    simpl in H. injection H as <-. exact Hs.
  - destruct intersections as [|xStart [|xEnd rest]];
      try (simpl in H; injection H as <-; exact Hs).
    cbn [rowSegments] in H. cbv zeta in H.
    destruct (num_lt _ _).
    + apply (IH rest stitches out); [simpl in Hn; lia | exact Hs | exact H].
    + apply bind_Returned in H. destruct H as (ls & _ & H).
      apply (IH rest _ out) in H; [exact H | simpl in Hn; lia|].
      right. apply emitSegment_head. exact Hs.
Qed.

Lemma rowLoop_head (fuel : nat) (i : nat) (hex : string) (edges : list (Point num * Point num))
    (invAngle maxSatinLen rowSpacing maxY : num) :
  forall (yRow : num) (stitches out : list (Stitch num)),
    (stitches = [] \/ exists s l, stitches = s :: l /\ type s = jump) ->
    rowLoop fuel i hex edges invAngle maxSatinLen rowSpacing maxY yRow stitches
    = Returned out ->
    out = [] \/ exists s l, out = s :: l /\ type s = jump.
Proof.
  induction fuel as [|fuel IH]; intros yRow stitches out Hs H; cbn [rowLoop] in H.
  - destruct (num_lt _ _); [discriminate|]. injection H as <-. exact Hs.
  - destruct (num_lt _ _); [|injection H as <-; exact Hs].
    cbv zeta in H. apply bind_Returned in H. destruct H as (st' & H1 & H2).
    apply (IH (num_add yRow rowSpacing) st' out); [|exact H2].
    apply (rowSegments_head fuel i hex invAngle maxSatinLen rowSpacing yRow _ _ stitches st'
             (Nat.le_refl _) Hs H1).
Qed.

(** X23.  A tatami fill that is not empty starts with a jump; [addTieIn]
    therefore returns it as it is: the fill gets no tie-in lock
    stitches. *)
Theorem tatami_starts_with_jump (fuel : nat) (shapePaths : list (list (Point num)))
    (config : ProcessingConfig num) (i : nat) (hex : string) (out : list (Stitch num)) :
  generateTatamiStitches fuel shapePaths config i hex = Returned out ->
  (out = [] \/ exists s l, out = s :: l /\ type s = jump)
  /\ addTieIn out = out.
Proof.
  intros H.
  assert (G : out = [] \/ exists s l, out = s :: l /\ type s = jump).
  { unfold generateTatamiStitches in H.
    destruct (isEmpty shapePaths); [injection H as <-; left; reflexivity|].
    cbv zeta in H. apply bind_Returned in H. destruct H as (edges & _ & H).
    destruct (fold_left lowerY _ None); [|injection H as <-; left; reflexivity].
    destruct (fold_left upperY _ None); [|injection H as <-; left; reflexivity].
    apply (rowLoop_head _ _ _ _ _ _ _ _ _ [] out) in H; [exact H|].
    left. reflexivity. }
  split; [exact G|].
  destruct G as [->|(s & l & -> & T)]; [reflexivity|].
  unfold addTieIn. rewrite T. reflexivity.
Qed.

End TatamiFacts.

(** What the witness below is run on: the fill of [smallSquare] at angle
    0, where the sine and the cosine are those of zero. *)
Lemma tatami_square_returns :
  exists out,
    generateTatamiStitches 50 [Scenario.smallSquare] Scenario.flatFillConfig 0 "#000000"
    = Returned out
    /\ (2 <= length out)%nat.
Proof. eexists. split; [vm_compute; reflexivity | vm_compute; lia]. Qed.

Lemma tatami_starts_with_jump_witness :
  exists out,
    generateTatamiStitches 50 [Scenario.smallSquare] Scenario.flatFillConfig 0 "#000000"
    = Returned out
    /\ (out = [] \/ exists s l, out = s :: l /\ type s = jump)
    /\ addTieIn out = out.
Proof.
  destruct tatami_square_returns as (out & H & _).
  exists out. split; [exact H|].
  exact (tatami_starts_with_jump 50 _ _ 0 "#000000" out H).
Defined.

(* ================================================================== *)
(** ** Rotation *)

Section RotationFacts.

Local Open Scope R_scope.

(** X24.  Rotating by an angle and then by its opposite gives back the point:
    the tatami generator computes its rows in the frame turned by
    [angleRad] and maps every stitch back with [invAngle = -angleRad]. *)
Theorem rotatePoint_inverse (p : Point R) (angleRad : R) :
  rotatePoint (rotatePoint p angleRad) (- angleRad) = p
  /\ dist origin (rotatePoint p angleRad) = dist origin p.
Proof.
  pose proof (sin2_cos2 angleRad) as SC. unfold Rsqr in SC.
  split.
  - unfold rotatePoint. simpl. rewrite cos_neg, sin_neg.
    destruct p as [px py]. simpl. f_equal.
    + transitivity (px * (sin angleRad * sin angleRad + cos angleRad * cos angleRad));
        [ring | rewrite SC; ring].
    + transitivity (py * (sin angleRad * sin angleRad + cos angleRad * cos angleRad));
        [ring | rewrite SC; ring].
  - unfold dist, rotatePoint, origin, zero, pow2. simpl. f_equal.
    destruct p as [px py]. simpl.
    transitivity ((px * px + py * py)
                  * (sin angleRad * sin angleRad + cos angleRad * cos angleRad));
      [ring | rewrite SC; ring].
Qed.

End RotationFacts.

(* ================================================================== *)
(** ** Colour and structure tags *)

Section TagFacts.

Context {num : Type} {N : JSNumber num}.

Lemma faceStitch_tagged (p : Point num) (i : nat) (hex : string) :
  tagged i hex (faceStitch p i hex).
Proof. unfold tagged. simpl. auto. Qed.

Lemma command_tagged (s : Stitch num) (k : StitchKind) (i : nat) (hex : string) :
  tagged i hex (command s k i hex).
Proof. unfold tagged. simpl. auto. Qed.

Lemma asStructure_tagged (i : nat) (hex : string) (s : Stitch num) :
  tagged i hex s -> tagged i hex (asStructure s).
Proof. intros (A & B & _). unfold tagged. simpl. auto. Qed.

Lemma tieStitch_tagged (i : nat) (hex : string) (s : Stitch num) (px : num)
    (k : StitchKind) :
  tagged i hex s -> tagged i hex (tieStitch s px k).
Proof. intros (A & B & _). unfold tagged. simpl. auto. Qed.

Lemma generateRunningStitches_tagged (fuel : nat) (path : list (Point num))
    (config : ProcessingConfig num) (i : nat) (hex : string) (out : list (Stitch num)) :
  generateRunningStitches fuel path config i hex = Returned out ->
  Forall (tagged i hex) out.
Proof.
  apply (generateRunningStitches_face (tagged i hex) i hex (fun p => faceStitch_tagged p i hex)).
Qed.

Lemma generateSatinStitches_tagged (fuel : nat) (path : list (Point num))
    (config : ProcessingConfig num) (i : nat) (hex : string) (out : list (Stitch num)) :
  generateSatinStitches fuel path config i hex = Returned out ->
  Forall (tagged i hex) out.
Proof.
  apply (generateSatinStitches_face (tagged i hex) i hex (fun p => faceStitch_tagged p i hex)).
Qed.

Lemma emitSegment_tagged (i : nat) (hex : string) (invAngle : num) (isReverse : bool)
    (lineStitches : list (Point num)) (stitches : list (Stitch num)) :
  Forall (tagged i hex) stitches ->
  Forall (tagged i hex) (emitSegment i hex invAngle isReverse lineStitches stitches).
Proof.
  intros H. unfold emitSegment. cbv zeta.
  apply Forall_app. split; [exact H|].
  apply Forall_app. split.
  - assert (J : tagged i hex
                  (mkStitch (rotatePoint
                               (nth 0 (if isReverse then rev lineStitches else lineStitches)
                                  origin) invAngle)
                            jump (Some i) (Some hex) (Some true)))
      by (unfold tagged; simpl; auto).
    destruct (lastOf stitches).
    + destruct (num_lt _ _); [constructor; [exact J | constructor]|].
      destruct (num_lt _ _); [|constructor].
      constructor; [apply faceStitch_tagged | constructor].
    + constructor; [exact J | constructor].
  - apply Forall_map. apply Forall_forall. intros p _. apply faceStitch_tagged.
Qed.

Lemma rowSegments_tagged (fuel : nat) (i : nat) (hex : string)
    (invAngle maxSatinLen rowSpacing yRow : num) (n : nat) :
  forall (intersections : list num) (stitches out : list (Stitch num)),
    (length intersections <= n)%nat ->
    Forall (tagged i hex) stitches ->
    rowSegments fuel i hex invAngle maxSatinLen rowSpacing yRow intersections stitches
    = Returned out ->
    Forall (tagged i hex) out.
Proof.
  induction n as [|n IH]; intros intersections stitches out Hn Hs H.
  - destruct intersections; [|simpl in Hn; lia].
    simpl in H. injection H as <-. exact Hs.
  - destruct intersections as [|xStart [|xEnd rest]];
      try (simpl in H; injection H as <-; exact Hs).
    cbn [rowSegments] in H. cbv zeta in H.
    destruct (num_lt _ _).
    + apply (IH rest stitches out); [simpl in Hn; lia | exact Hs | exact H].
    + apply bind_Returned in H. destruct H as (ls & _ & H).
      apply (IH rest _ out) in H; [exact H | simpl in Hn; lia|].
      apply emitSegment_tagged. exact Hs.
Qed.

Lemma rowLoop_tagged (fuel : nat) (i : nat) (hex : string)
    (edges : list (Point num * Point num))
    (invAngle maxSatinLen rowSpacing maxY : num) :
  forall (yRow : num) (stitches out : list (Stitch num)),
    Forall (tagged i hex) stitches ->
    rowLoop fuel i hex edges invAngle maxSatinLen rowSpacing maxY yRow stitches
    = Returned out ->
    Forall (tagged i hex) out.
Proof.
  induction fuel as [|fuel IH]; intros yRow stitches out Hs H; cbn [rowLoop] in H.
  - destruct (num_lt _ _); [discriminate|]. injection H as <-. exact Hs.
  - destruct (num_lt _ _); [|injection H as <-; exact Hs].
    cbv zeta in H. apply bind_Returned in H. destruct H as (st' & H1 & H2).
    apply (IH (num_add yRow rowSpacing) st' out); [|exact H2].
    apply (rowSegments_tagged fuel i hex invAngle maxSatinLen rowSpacing yRow _ _ stitches st'
             (Nat.le_refl _) Hs H1).
Qed.

Lemma generateTatamiStitches_tagged (fuel : nat) (shapePaths : list (list (Point num)))
    (config : ProcessingConfig num) (i : nat) (hex : string) (out : list (Stitch num)) :
  generateTatamiStitches fuel shapePaths config i hex = Returned out ->
  Forall (tagged i hex) out.
Proof.
  intros H. unfold generateTatamiStitches in H.
  destruct (isEmpty shapePaths); [injection H as <-; constructor|].
  cbv zeta in H. apply bind_Returned in H. destruct H as (edges & _ & H).
  destruct (fold_left lowerY _ None); [|injection H as <-; constructor].
  destruct (fold_left upperY _ None); [|injection H as <-; constructor].
  apply (rowLoop_tagged _ _ _ _ _ _ _ _ _ [] out) in H; [exact H | constructor].
Qed.

Lemma generateMain_tagged (fuel : nat) (path : list (Point num))
    (config : ProcessingConfig num) (i : nat) (hex : string) (out : list (Stitch num)) :
  generateMain fuel path config i hex = Returned out -> Forall (tagged i hex) out.
Proof.
  unfold generateMain. destruct (stitchType config).
  - apply generateRunningStitches_tagged.
  - apply generateSatinStitches_tagged.
  - apply generateTatamiStitches_tagged.
Qed.

Lemma Forall_asStructure (i : nat) (hex : string) (l : list (Stitch num)) :
  Forall (tagged i hex) l -> Forall (tagged i hex) (map asStructure l).
Proof.
  intros H. apply Forall_map. revert H. apply Forall_impl.
  intros s. apply asStructure_tagged.
Qed.

Lemma generateUnderlay_tagged (fuel : nat) (path : list (Point num))
    (config : ProcessingConfig num) (i : nat) (hex : string) (out : list (Stitch num)) :
  generateUnderlay fuel path config i hex = Returned out -> Forall (tagged i hex) out.
Proof.
  intros H. apply generateUnderlay_cases in H. destruct H as (run & Hrun & Hl).
  assert (K : Forall (tagged i hex) run).
  { destruct Hrun as [-> | [[p Hp] | [config' Hs]]].
    - constructor.
    - apply (generateRunningStitches_tagged _ _ _ _ _ _ Hp).
    - apply (generateSatinStitches_tagged _ _ _ _ _ _ Hs). }
  destruct Hl as [-> | (run0 & rest & E & ->)].
  - apply Forall_asStructure. exact K.
  - apply Forall_asStructure. apply Forall_app. split.
    + apply Forall_asStructure. exact K.
    + constructor; [|constructor].
      rewrite E in K. apply Forall_inv in K. destruct K as (A & B & _).
      unfold tagged. simpl. auto.
Qed.

Lemma addTieIn_tagged (i : nat) (hex : string) (l : list (Stitch num)) :
  Forall (tagged i hex) l -> Forall (tagged i hex) (addTieIn l).
Proof.
  intros H. unfold addTieIn. destruct l as [|first l]; [constructor|].
  destruct (isJumpOrEnd _); [exact H|]. cbv zeta.
  pose proof (Forall_inv H) as F.
  apply Forall_app. split; [|exact H].
  repeat (apply Forall_cons; [apply tieStitch_tagged; exact F|]). constructor.
Qed.

Lemma addTieOff_tagged (i : nat) (hex : string) (l : list (Stitch num)) :
  Forall (tagged i hex) l -> Forall (tagged i hex) (addTieOff l).
Proof.
  intros H. unfold addTieOff. destruct (lastOf l) as [last|] eqn:E; [|constructor].
  destruct (isJumpOrEnd _); [exact H|]. cbv zeta.
  apply lastOf_some in E. destruct E as [ys ->].
  assert (F : tagged i hex last).
  { apply Forall_app in H. destruct H as [_ H]. apply (Forall_inv H). }
  apply Forall_app. split; [exact H|].
  repeat (apply Forall_cons; [apply tieStitch_tagged; exact F|]). constructor.
Qed.

Lemma digitizePath_tagged (fuel : nat) (config : ProcessingConfig num) (i : nat)
    (hex : string) (layerStitches out : list (Stitch num)) (path : list (Point num)) :
  Forall (tagged i hex) layerStitches ->
  digitizePath fuel config i hex layerStitches path = Returned out ->
  Forall (tagged i hex) out.
Proof.
  intros Hl H. unfold digitizePath in H.
  apply bind_Returned in H. destruct H as (underlay & Hu & H).
  apply generateUnderlay_tagged in Hu.
  cbv zeta in H.
  set (ls1 := match addTieIn underlay with
              | [] => layerStitches
              | tied0 :: l =>
                  (if isEmpty layerStitches then layerStitches
                   else layerStitches ++ [command tied0 jump i hex]) ++ tied0 :: l
              end) in H.
  assert (H1 : Forall (tagged i hex) ls1).
  { subst ls1. pose proof (addTieIn_tagged i hex underlay Hu) as T.
    destruct (addTieIn underlay) as [|tied0 l]; [exact Hl|].
    apply Forall_app. split; [|exact T].
    destruct (isEmpty layerStitches); [exact Hl|].
    apply Forall_app. split; [exact Hl|].
    constructor; [apply command_tagged | constructor]. }
  clearbody ls1.
  apply bind_Returned in H. destruct H as (main & Hm & H).
  apply generateMain_tagged in Hm.
  destruct (isEmpty main); [injection H as <-; exact H1|].
  injection H as <-.
  set (main' := addTieOff (if isEmpty underlay then addTieIn main else main)).
  assert (Hm' : Forall (tagged i hex) main').
  { subst main'. apply addTieOff_tagged.
    destruct (isEmpty underlay); [apply addTieIn_tagged|]; exact Hm. }
  clearbody main'.
  apply Forall_app. split; [|exact Hm'].
  destruct (lastOf ls1) as [last|]; [|exact H1].
  destruct main' as [|first main']; [exact H1|].
  destruct (num_lt _ _); apply Forall_app; split; try exact H1;
    repeat (apply Forall_cons; [apply command_tagged|]); constructor.
Qed.

Lemma digitizePaths_tagged (fuel : nat) (config : ProcessingConfig num) (i : nat)
    (hex : string) (ps : list (list (Point num))) :
  forall layerStitches out,
    Forall (tagged i hex) layerStitches ->
    digitizePaths fuel config i hex layerStitches ps = Returned out ->
    Forall (tagged i hex) out.
Proof.
  induction ps as [|path ps IH]; intros layerStitches out Hl H; simpl in H.
  - injection H as <-. exact Hl.
  - apply bind_Returned in H. destruct H as (ls & H1 & H2).
    apply (IH ls out); [|exact H2].
    apply (digitizePath_tagged fuel config i hex layerStitches ls path Hl H1).
Qed.

Lemma digitizeLayers_tagged (fuel : nat) (config : ProcessingConfig num)
    (all : list (VectorLayer num)) (layers : list (VectorLayer num)) :
  forall i allStitches out,
    layers = skipn i all ->
    Forall (fun s => taggedItem all (record s)) allStitches ->
    digitizeLayers fuel config i allStitches layers = Returned out ->
    Forall (fun s => taggedItem all (record s)) out.
Proof.
  induction layers as [|layer layers IH]; intros i allStitches out Hs Ha H; simpl in H.
  - injection H as <-. exact Ha.
  - apply bind_Returned in H. destruct H as (as' & H1 & H2).
    apply (IH (S i) as' out); [| |exact H2].
    + rewrite <- (Nat.add_1_l i), <- skipn_skipn, <- Hs. reflexivity.
    + assert (Hn : nth_error all i = Some layer).
      { rewrite <- (Nat.add_0_r i), <- nth_error_skipn, <- Hs. reflexivity. }
      assert (T : forall s, tagged i (color layer) s -> taggedItem all (record s)).
      { intros s (A & B & C). simpl. exists i, layer.
        repeat split; auto. destruct C; auto. }
      unfold digitizeLayer in H1.
      apply bind_Returned in H1. destruct H1 as (ls & Hp & H1).
      apply (digitizePaths_tagged fuel config i (color layer) (paths layer) [] ls
               (Forall_nil _)) in Hp.
      destruct ls as [|first ls]; injection H1 as <-; [exact Ha|].
      apply Forall_app. split.
      * destruct (lastOf allStitches); [|exact Ha].
        apply Forall_app. split; [exact Ha|].
        repeat (apply Forall_cons; [apply T; apply command_tagged|]). constructor.
      * revert Hp. apply Forall_impl. exact T.
Qed.

Lemma subsequence_Forall {A : Type} (P : A -> Prop) (l1 l2 : list A) :
  subsequence l1 l2 -> Forall P l2 -> Forall P l1.
Proof.
  intros S H. apply Forall_forall. intros a Ha.
  apply (proj1 (Forall_forall P l2) H). apply (subsequence_In l1 l2 a S Ha).
Qed.

(** X25.  Every record of a sequence [digitizeDesign] returns carries the
    index [i] of a layer of the design and that layer's colour, and every
    record that is neither a [stitch] nor the [end] (a jump, a trim, a
    colour change) is flagged [isStructure]. *)
Theorem digitizeDesign_records_tagged (fuel : nat) (layers : list (VectorLayer num))
    (config : ProcessingConfig num) (out : list (Item num)) :
  digitizeDesign fuel layers config = Returned out ->
  Forall (taggedItem layers) out.
Proof.
  intros H. unfold digitizeDesign in H.
  apply bind_Returned in H. destruct H as (allStitches & Ha & H).
  apply (digitizeLayers_tagged fuel config layers layers 0 [] allStitches eq_refl
           (Forall_nil _)) in Ha.
  cbv zeta in H.
  destruct allStitches as [|s0 rest].
  - simpl in H. injection H as <-. repeat constructor.
  - assert (C : Forall (taggedItem layers)
                  (removeSmallStitches (s0 :: rest) (minStitchLengthMm config))).
    { unfold removeSmallStitches. apply Forall_map.
      constructor; [apply (Forall_inv Ha)|].
      apply (subsequence_Forall _ _ rest
               (proj1 (removeLoop_keeps (minStitchLengthMm config) rest s0))).
      apply (Forall_inv_tail Ha). }
    set (cleaned := removeSmallStitches (s0 :: rest) (minStitchLengthMm config)) in *.
    clearbody cleaned.
    destruct (lastOf cleaned) as [last|] eqn:E; injection H as <-; [|exact C].
    apply Forall_app. split; [exact C|].
    constructor; [|constructor].
    apply lastOf_some in E. destruct E as [ys E]. rewrite E in C.
    apply Forall_app in C. destruct C as [_ C]. apply Forall_inv in C.
    destruct last as [|s|k]; simpl; auto.
    destruct C as (i & layer & K1 & K2 & K3 & _).
    exists i, layer. simpl. repeat split; auto.
Qed.

End TagFacts.

Lemma digitizeDesign_records_tagged_witness :
  Forall (taggedItem Scenario.twoPaths) Scenario.twoPathsOut.
Proof.
  apply (digitizeDesign_records_tagged 0 Scenario.twoPaths Scenario.runningConfig
           Scenario.twoPathsOut).
  vm_compute. reflexivity.
Defined.

(* ================================================================== *)
(** ** Trims in a DST file *)

Section DstTrim.

Context {num : Type} {N : JSNumber num}.

Lemma dstStep_trim (st : DstState) (s : Stitch num) :
  type s = trim -> dstStep st (withType s stitch) = dstStep st s.
Proof. intros E. unfold dstStep. rewrite E. reflexivity. Qed.

Lemma dstLoop_trim (stitches : list (Stitch num)) :
  forall st,
    fold_left dstStep
      (map (fun s => if StitchKind_eqb (type s) trim then withType s stitch else s) stitches)
      st
    = fold_left dstStep stitches st.
Proof.
  induction stitches as [|s stitches IH]; intros st; [reflexivity|].
  cbn [map fold_left]. rewrite IH. f_equal.
  destruct (StitchKind_eqb (type s) trim) eqn:E; [|reflexivity].
  apply dstStep_trim. destruct (type s); try discriminate; reflexivity.
Qed.

Lemma colorChanges_trim (stitches : list (Stitch num)) :
  length (filter isColorChange
            (map (fun s => if StitchKind_eqb (type s) trim then withType s stitch else s)
                 stitches))
  = length (filter isColorChange stitches).
Proof.
  induction stitches as [|s stitches IH]; [reflexivity|].
  cbn [map filter].
  assert (E : isColorChange
                (if StitchKind_eqb (type s) trim then withType s stitch else s)
              = isColorChange s).
  { unfold isColorChange. destruct (type s) eqn:T; simpl; rewrite ?T; reflexivity. }
  rewrite E. destruct (isColorChange s); cbn [length]; rewrite IH; reflexivity.
Qed.

(** X26.  A DST file has no trim command: [createDstFile] writes a [trim]
    record exactly as it writes a [stitch] at the same place, so that
    turning every trim of a sequence into a stitch leaves the file, header
    and body, as it is. *)
Theorem dst_trim_written_as_stitch (stitches : list (Stitch num)) (widthMm heightMm : num) :
  createDstFile
    (map (fun s => if StitchKind_eqb (type s) trim then withType s stitch else s) stitches)
    widthMm heightMm
  = createDstFile stitches widthMm heightMm.
Proof.
  unfold createDstFile, dstBodyParts, dstHeader, dstLoop. cbv zeta.
  rewrite !dstLoop_trim, colorChanges_trim. reflexivity.
Qed.

End DstTrim.

(* ================================================================== *)
(** ** The concrete designs on binary64 *)

(** The designs of [Scenario] never reach a value of [Math.sin], [Math.cos]
    or [Math.pow] that ECMAScript leaves to the engine: run on any engine
    they give what they give on the engine of the examples. *)
Lemma scenarios_on_every_engine (e : F64.Engine) :
  @digitizeDesign float (FloatNumber e) 0 Scenario.twoPaths Scenario.runningConfig
  = digitizeDesign 0 Scenario.twoPaths Scenario.runningConfig
  /\ @digitizeDesign float (FloatNumber e) 0 Scenario.twoPaths Scenario.outOfRangeConfig
     = digitizeDesign 0 Scenario.twoPaths Scenario.outOfRangeConfig
  /\ @generateRunningStitches float (FloatNumber e) 10 Scenario.offGridPath
       Scenario.runningConfig 0 "#000000"
     = generateRunningStitches 10 Scenario.offGridPath Scenario.runningConfig 0 "#000000"
  /\ @generateRunningStitches float (FloatNumber e) 10 Scenario.farPath
       Scenario.longRunConfig 0 "#000000"
     = generateRunningStitches 10 Scenario.farPath Scenario.longRunConfig 0 "#000000"
  /\ @generateSatinStitches float (FloatNumber e) 10 Scenario.sharpSpine
       Scenario.satinConfig 0 "#000000"
     = generateSatinStitches 10 Scenario.sharpSpine Scenario.satinConfig 0 "#000000"
  /\ @satinPenetrations float (FloatNumber e) 20 Scenario.cornerSpine Scenario.cornerConfig
     = satinPenetrations 20 Scenario.cornerSpine Scenario.cornerConfig
  /\ @generateTatamiStitches float (FloatNumber e) 50 [Scenario.smallSquare]
       Scenario.flatFillConfig 0 "#000000"
     = generateTatamiStitches 50 [Scenario.smallSquare] Scenario.flatFillConfig 0 "#000000"
  /\ @optimizePathSequence float (FloatNumber e) Scenario.dotAndSquare
     = optimizePathSequence Scenario.dotAndSquare
  /\ @createDstFile float (FloatNumber e) Scenario.boundsList (F64.lit 100) (F64.lit 100)
     = createDstFile Scenario.boundsList (num_lit 100) (num_lit 100)
  /\ @createDstFile float (FloatNumber e) Scenario.lockStitch (F64.lit 100) (F64.lit 100)
     = createDstFile Scenario.lockStitch (num_lit 100) (num_lit 100)
  /\ @createExpFile float (FloatNumber e) Scenario.lockStitch
     = createExpFile Scenario.lockStitch
  /\ @dstBodyParts float (FloatNumber e) Scenario.smallStep
     = dstBodyParts Scenario.smallStep.
Proof. repeat split; vm_compute; reflexivity. Qed.

(* ================================================================== *)
(** ** A counting loop bounded by [Infinity] *)

Lemma shr_1_nonneg (mrs : shr_record) : (0 <= shr_m mrs)%Z -> (0 <= shr_m (shr_1 mrs))%Z.
Proof.
  destruct mrs as [m r s]. simpl. intros H.
  destruct m as [|p|p]; [simpl; lia | destruct p; simpl; lia | lia].
Qed.

Lemma iter_pos_nonneg (p : positive) :
  forall mrs, (0 <= shr_m mrs)%Z -> (0 <= shr_m (SpecFloat.iter_pos shr_1 p mrs))%Z.
Proof.
  induction p as [p IH|p IH|]; intros mrs H; simpl.
  - apply IH, IH, shr_1_nonneg, H.
  - apply IH, IH, H.
  - apply shr_1_nonneg, H.
Qed.

Lemma shr_fexp_nonneg (prec emax m e : Z) (l : location) :
  (0 <= m)%Z -> (0 <= shr_m (fst (shr_fexp prec emax m e l)))%Z.
Proof.
  intros H. unfold shr_fexp, shr.
  assert (H0 : (0 <= shr_m (shr_record_of_loc m l))%Z).
  { unfold shr_record_of_loc. destruct l as [|[| |]]; simpl; exact H. }
  destruct (fexp prec emax (Zdigits2 m + e) - e)%Z; simpl; try exact H0.
  apply iter_pos_nonneg, H0.
Qed.

Lemma binary_round_aux_countingUp (prec emax mx ex : Z) (lx : location) :
  (0 <= mx)%Z -> countingUp (binary_round_aux prec emax false mx ex lx).
Proof.
  intros H. unfold binary_round_aux.
  pose proof (shr_fexp_nonneg prec emax mx ex lx H) as H1.
  destruct (shr_fexp prec emax mx ex lx) as [mrs' e']. simpl in H1.
  assert (H2 : (0 <= round_nearest_even (shr_m mrs') (loc_of_shr_record mrs'))%Z).
  { unfold round_nearest_even. destruct (loc_of_shr_record mrs') as [|[| |]]; try lia.
    destruct (Z.even _); lia. }
  pose proof (shr_fexp_nonneg prec emax _ e' loc_Exact H2) as H3.
  destruct (shr_fexp prec emax _ e' loc_Exact) as [mrs'' e'']. simpl in H3.
  destruct (shr_m mrs''); simpl; [exact I | destruct (_ <=? _)%Z; exact I | lia].
Qed.

Lemma SFadd_countingUp (prec emax : Z) (a b : spec_float) :
  countingUp a -> countingUp b -> countingUp (SFadd prec emax a b).
Proof.
  destruct a as [[|]|[|]| |[|] ma ea]; try contradiction;
    destruct b as [[|]|[|]| |[|] mb eb]; try contradiction; intros _ _;
    try exact I.
  unfold SFadd. unfold binary_normalize. simpl cond_Zopp.
  destruct (Zpos _ + Zpos _)%Z eqn:E; try lia.
  unfold binary_round.
  destruct (shl_align p _ _) as [mz ez].
  apply binary_round_aux_countingUp. lia.
Qed.

Lemma add_countingUp (a b : float) :
  countingUp (Prim2SF a) -> countingUp (Prim2SF b) -> countingUp (Prim2SF (a + b)).
Proof. rewrite add_spec. apply SFadd_countingUp. Qed.

Lemma leb_infinity (a : float) : countingUp (Prim2SF a) -> PrimFloat.leb a infinity = true.
Proof.
  rewrite leb_spec. change (Prim2SF infinity) with (S754_infinity false).
  destruct (Prim2SF a) as [[|]|[|]| |[|] m e]; try contradiction; intros _; reflexivity.
Qed.

(** A counter that starts at a float that is not negative never leaves
    [s <= Infinity]: the loop [for (s = ..; s <= steps; s++)] with
    [steps = Infinity] is still running whatever the budget. *)
Lemma runSteps_never_returns (e : F64.Engine) (i : nat) (hex : string)
    (prev curr : Point float) (fuel : nat) :
  forall s : float,
    countingUp (Prim2SF s) ->
    @runSteps float (FloatNumber e) fuel i hex prev curr infinity s = OutOfFuel.
Proof.
  induction fuel as [|fuel IH]; intros s Hs; cbn [runSteps];
    change (@num_le float (FloatNumber e) s infinity) with (PrimFloat.leb s infinity);
    rewrite (leb_infinity s Hs); [reflexivity|].
  cbv zeta. rewrite IH; [reflexivity|].
  change (@num_add float (FloatNumber e) s (@num_ofZ float (FloatNumber e) 1))
    with (s + F64.ofZ 1)%float.
  apply add_countingUp; [exact Hs | vm_compute; exact I].
Qed.

(** With the smallest positive number as maximum stitch length the quotient
    [d / L] of a segment of 1 mm overflows, [Math.ceil] returns [Infinity]
    and the running generator never returns, on any engine. *)
Lemma tiny_run_length_never_returns (e : F64.Engine) (fuel : nat) :
  @generateRunningStitches float (FloatNumber e) fuel [Scenario.pt 0 0; Scenario.pt 1 0]
    Scenario.tinyRunConfig 0 "#000000"
  = OutOfFuel.
Proof.
  unfold generateRunningStitches.
  change (length [Scenario.pt 0 0; Scenario.pt 1 0] <? 2)%nat with false. cbv iota.
  replace (@cleanPath float (FloatNumber e) [Scenario.pt 0 0; Scenario.pt 1 0])
    with [Scenario.pt 0 0; Scenario.pt 1 0] by (vm_compute; reflexivity).
  cbn [runLoop]. unfold runSegment. cbv zeta.
  replace (@num_lt float (FloatNumber e) _ _) with true by (vm_compute; reflexivity).
  replace (@Math_ceil float (FloatNumber e) _) with infinity by (vm_compute; reflexivity).
  rewrite runSteps_never_returns; [reflexivity | vm_compute; exact I].
Qed.

(** So does [digitizeDesign]: a maximum stitch length that is positive but
    tiny makes the pipeline run for ever. *)
Lemma digitizeDesign_tiny_run_length (e : F64.Engine) (fuel : nat) :
  @digitizeDesign float (FloatNumber e) fuel
    [mkLayer "#000000" [[Scenario.pt 0 0; Scenario.pt 1 0]]] Scenario.tinyRunConfig
  = OutOfFuel.
Proof.
  unfold digitizeDesign. cbn [digitizeLayers]. unfold digitizeLayer.
  cbn [paths color digitizePaths]. unfold digitizePath.
  change (@generateUnderlay float (FloatNumber e) fuel [Scenario.pt 0 0; Scenario.pt 1 0]
            Scenario.tinyRunConfig 0 "#000000")
    with (@Returned (list (Stitch float)) []).
  cbn [bind]. unfold generateMain.
  change (stitchType Scenario.tinyRunConfig) with running. cbv iota.
  rewrite tiny_run_length_never_returns. reflexivity.
Qed.
